(** * ComponentManager: the component registry of the WYSIWYG editor

    A shallow embedding of the [ComponentManager] class of
    [src/env.d.ts] (lines 152-706) and of the part of the browser's DOM
    it drives.

    - The document is a store of nodes addressed by reference ([ref]);
      a [ComponentData] keeps the reference of its element, so two
      records may alias one node, as in the source.
    - [Date.now()] and [Math.random()] are inputs of the environment:
      the state carries them as two functions of the number of calls of
      [generateId] made so far.
    - A change listener is an opaque callback: the state keeps the
      handles of the registered listeners and the log of the calls made
      to them.
    - Inline styles are lists of declarations whose values are kept as
      written; the serialisation of a node follows the HTML fragment
      algorithm over that representation.

    [getAllComponents] and [getComponentsByType], which only read the
    registry in insertion order, and the global accessor are left out.

    The validators of lines 30-150 that work on strings alone
    ([isValidAddress], [isValidTxHash], [isValidSignature],
    [isValidNonce], [sanitizeInput], [getRateLimitKey], [isValidJWT])
    are embedded as well; [validateTokenAmount] (floating-point
    parsing), [isAllowedDomain] (the URL parser) and [generateCSP] are
    left out. *)

From Stdlib Require Import Ascii String DecimalString DecimalN.
From stdpp Require Import gmap strings list fin_maps.

Open Scope string_scope.
Open Scope list_scope.

(** ** Strings *)

(** The double quote character, for serialised attributes. *)
Definition dquote : string := String (ascii_of_nat 34) "".

Definition lower_ascii (a : ascii) : ascii :=
  let n := nat_of_ascii a in
  if (65 <=? n)%nat && (n <=? 90)%nat then ascii_of_nat (n + 32) else a.

Fixpoint toLowerCase (s : string) : string :=
  match s with
  | "" => ""
  | String a s' => String (lower_ascii a) (toLowerCase s')
  end.

(** [s.includes(c)] for a one-character needle. *)
Fixpoint includes_char (c : ascii) (s : string) : bool :=
  match s with
  | "" => false
  | String a s' => if Ascii.eqb a c then true else includes_char c s'
  end.

Definition join (sep : string) (l : list string) : string :=
  match l with
  | [] => ""
  | x :: r => fold_left (fun acc y => acc +:+ sep +:+ y) r x
  end.

(** Escaping of the HTML fragment serialisation algorithm. *)
Fixpoint escape (attr : bool) (s : string) : string :=
  match s with
  | "" => ""
  | String a s' =>
      let r := escape attr s' in
      if Ascii.eqb a "&"%char then "&amp;" +:+ r
      else if attr && Ascii.eqb a (ascii_of_nat 34) then "&quot;" +:+ r
      else if negb attr && Ascii.eqb a "<"%char then "&lt;" +:+ r
      else if negb attr && Ascii.eqb a ">"%char then "&gt;" +:+ r
      else String a r
  end.

(** [`${n}`] for a non-negative integer. *)
Definition decimal (n : N) : string := NilEmpty.string_of_uint (N.to_uint n).

(** ** Ordered association lists (attributes, style declarations) *)

Fixpoint assoc_get (k : string) (l : list (string * string)) : option string :=
  match l with
  | [] => None
  | (k', v) :: r => if String.eqb k k' then Some v else assoc_get k r
  end.

(** Update in place when the key is present, append otherwise. *)
Fixpoint assoc_set (k v : string) (l : list (string * string)) : list (string * string) :=
  match l with
  | [] => [(k, v)]
  | (k', v') :: r =>
      if String.eqb k k' then (k, v) :: r else (k', v') :: assoc_set k v r
  end.

Fixpoint assoc_remove (k : string) (l : list (string * string)) : list (string * string) :=
  match l with
  | [] => []
  | (k', v') :: r =>
      if String.eqb k k' then assoc_remove k r else (k', v') :: assoc_remove k r
  end.

(** ** DOM nodes

    Element names are kept as [tagName] reports them, in upper case
    for the elements of HTML. The elements of HTML, which are the
    instances of [HTMLElement], and the elements of SVG and MathML,
    which the parser puts into the same tree, are told apart by
    [namespaceURI]; selectors by name and the serialisation treat every
    element as they treat those of HTML.
    The [class] attribute is kept as its token list ([classList]), the
    [style] attribute as its list of declarations over longhand
    properties, the marker attribute [data-component-id] in a field of
    its own ([dataset.componentId]), and every other attribute ([src],
    [alt], ...) in [attributes], in the order of insertion. *)

Abbreviation ref := nat.

Inductive NodeType := ELEMENT_NODE | TEXT_NODE.

Inductive Namespace := NS_HTML | NS_SVG | NS_MathML.

Record Node := mkNode {
  nodeType : NodeType;
  namespaceURI : Namespace;               (* of an element *)
  tagName : string;
  data : string;                          (* character data of a text node *)
  attributes : list (string * string);
  classList : list string;
  componentId : option string;            (* dataset.componentId *)
  style : list (string * string);
  childNodes : list ref;
  parentNode : option ref
}.

Definition with_attributes (a : list (string * string)) (n : Node) : Node :=
  mkNode (nodeType n) (namespaceURI n) (tagName n) (data n) a (classList n) (componentId n)
         (style n) (childNodes n) (parentNode n).
Definition with_classList (c : list string) (n : Node) : Node :=
  mkNode (nodeType n) (namespaceURI n) (tagName n) (data n) (attributes n) c (componentId n)
         (style n) (childNodes n) (parentNode n).
Definition with_componentId (m : option string) (n : Node) : Node :=
  mkNode (nodeType n) (namespaceURI n) (tagName n) (data n) (attributes n) (classList n) m
         (style n) (childNodes n) (parentNode n).
Definition with_style (s : list (string * string)) (n : Node) : Node :=
  mkNode (nodeType n) (namespaceURI n) (tagName n) (data n) (attributes n) (classList n)
         (componentId n) s (childNodes n) (parentNode n).
Definition with_childNodes (c : list ref) (n : Node) : Node :=
  mkNode (nodeType n) (namespaceURI n) (tagName n) (data n) (attributes n) (classList n)
         (componentId n) (style n) c (parentNode n).
Definition with_parentNode (p : option ref) (n : Node) : Node :=
  mkNode (nodeType n) (namespaceURI n) (tagName n) (data n) (attributes n) (classList n)
         (componentId n) (style n) (childNodes n) p.

(** An element of HTML, as [document.createElement] makes it, and an
    element of another namespace, as [document.createElementNS] does. *)
Definition new_element (tag : string) : Node :=
  mkNode ELEMENT_NODE NS_HTML tag "" [] [] None [] [] None.
Definition new_element_NS (ns : Namespace) (tag : string) : Node :=
  mkNode ELEMENT_NODE ns tag "" [] [] None [] [] None.
Definition new_text (s : string) : Node :=
  mkNode TEXT_NODE NS_HTML "#text" s [] [] None [] [] None.

(** The document: every node ever created, attached or not, and the
    next free reference. *)
Record DOM := mkDOM {
  nodes : gmap ref Node;
  next_ref : ref
}.

Definition node_at (d : DOM) (r : ref) : option Node := nodes d !! r.

Definition update_node (f : Node -> Node) (r : ref) (d : DOM) : DOM :=
  mkDOM (alter f r (nodes d)) (next_ref d).

Definition alloc (n : Node) (d : DOM) : ref * DOM :=
  (next_ref d, mkDOM (<[next_ref d := n]> (nodes d)) (S (next_ref d))).

(** *** Reading a node *)

(** [node instanceof HTMLElement] *)
Definition instanceof_HTMLElement (d : DOM) (r : ref) : bool :=
  match node_at d r with
  | Some n =>
      match nodeType n, namespaceURI n with
      | ELEMENT_NODE, NS_HTML => true
      | _, _ => false
      end
  | None => false
  end.

Definition tag_is (t : string) (d : DOM) (r : ref) : bool :=
  match node_at d r with
  | Some n => String.eqb (tagName n) t
  | None => false
  end.

Definition mem_string (x : string) (l : list string) : bool :=
  existsb (String.eqb x) l.

(** [el.classList.contains(c)] *)
Definition classList_contains (c : string) (d : DOM) (r : ref) : bool :=
  match node_at d r with
  | Some n => mem_string c (classList n)
  | None => false
  end.

(** [el.dataset.componentId] *)
Definition dataset_componentId (d : DOM) (r : ref) : option string :=
  match node_at d r with
  | Some n => componentId n
  | None => None
  end.

(** The test [el.dataset.componentId] in a condition: an absent marker
    and the empty string are both falsy. *)
Definition has_marker (d : DOM) (r : ref) : bool :=
  match dataset_componentId d r with
  | Some s => negb (String.eqb s "")
  | None => false
  end.

Definition getAttribute (k : string) (d : DOM) (r : ref) : option string :=
  match node_at d r with
  | Some n => assoc_get k (attributes n)
  | None => None
  end.

(** [img.src] and [img.alt]: the reflected attribute, empty when
    absent (the resolution of [src] against the base URL is the
    identity here). *)
Definition get_src (d : DOM) (r : ref) : string := default "" (getAttribute "src" d r).
Definition get_alt (d : DOM) (r : ref) : string := default "" (getAttribute "alt" d r).

(** [el.style.prop], empty when the declaration is absent. *)
Definition style_get (p : string) (d : DOM) (r : ref) : string :=
  match node_at d r with
  | Some n => default "" (assoc_get p (style n))
  | None => ""
  end.

Definition children_of (d : DOM) (r : ref) : list ref :=
  match node_at d r with
  | Some n => childNodes n
  | None => []
  end.

Definition parent_of (d : DOM) (r : ref) : option ref :=
  match node_at d r with
  | Some n => parentNode n
  | None => None
  end.

(** *** Writing attributes, classes and styles *)

(** [el.dataset.componentId = v] *)
Definition set_componentId (v : string) (r : ref) (d : DOM) : DOM :=
  update_node (with_componentId (Some v)) r d.

Definition setAttribute (k v : string) (r : ref) (d : DOM) : DOM :=
  update_node (fun n => with_attributes (assoc_set k v (attributes n)) n) r d.

(** [x.src = v] and [x.alt = v] reflect into the attribute on an
    [<img>]; on any other element the assignment creates a plain
    script property, which the document does not see. *)
Definition set_src (v : string) (r : ref) (d : DOM) : DOM :=
  if tag_is "IMG" d r then setAttribute "src" v r d else d.
Definition set_alt (v : string) (r : ref) (d : DOM) : DOM :=
  if tag_is "IMG" d r then setAttribute "alt" v r d else d.

(** The ordered set of the tokens of a list: the first occurrence of
    each is kept. *)
Fixpoint ordered_set (seen l : list string) : list string :=
  match l with
  | [] => []
  | x :: rest =>
      if mem_string x seen then ordered_set seen rest
      else x :: ordered_set (x :: seen) rest
  end.

(** [el.className = s] *)
Definition set_className (s : string) (r : ref) (d : DOM) : DOM :=
  update_node (with_classList (ordered_set [] (String.words s))) r d.

Definition remove_tokens (ts : list string) (l : list string) : list string :=
  filter (fun c => mem_string c ts = false) l.

(** [el.classList.remove(...ts)] *)
Definition classList_remove (ts : list string) (r : ref) (d : DOM) : DOM :=
  update_node (fun n => with_classList (remove_tokens ts (classList n)) n) r d.

Definition add_token (t : string) (l : list string) : list string :=
  if mem_string t l then l else l ++ [t].

(** [el.classList.add(t)] *)
Definition classList_add (t : string) (r : ref) (d : DOM) : DOM :=
  update_node (fun n => with_classList (add_token t (classList n)) n) r d.

(** One longhand declaration: the empty value removes it. *)
Definition set_declaration (p v : string) (l : list (string * string)) : list (string * string) :=
  if String.eqb v "" then assoc_remove p l else assoc_set p v l.

(** The [margin] shorthand sets its four longhands; a value that is
    not one to four tokens is ignored, as an invalid declaration is. *)
Definition set_margin (v : string) (l : list (string * string)) : list (string * string) :=
  let four t r b l' :=
    set_declaration "margin-left" l'
      (set_declaration "margin-bottom" b
         (set_declaration "margin-right" r
            (set_declaration "margin-top" t l))) in
  match String.words v with
  | [] => if String.eqb v "" then four "" "" "" "" else l
  | [a] => four a a a a
  | [a; b] => four a b a b
  | [a; b; c] => four a b c b
  | [a; b; c; e] => four a b c e
  | _ => l
  end.

(** [el.style.prop = v], [p] being the CSS name of the property. *)
Definition style_set (p v : string) (r : ref) (d : DOM) : DOM :=
  update_node
    (fun n => with_style
                (if String.eqb p "margin" then set_margin v (style n)
                 else set_declaration p v (style n)) n) r d.

Definition with_data (s : string) (n : Node) : Node :=
  mkNode (nodeType n) (namespaceURI n) (tagName n) s (attributes n) (classList n)
         (componentId n) (style n) (childNodes n) (parentNode n).

(** ** The tree structure

    Traversals follow [childNodes]. A tree of the document has fewer
    levels than the document has nodes, so the number of nodes serves
    as the bound of every traversal. *)

Definition depth_bound (d : DOM) : nat := size (nodes d).

(** The descendants of a node, in document order. *)
Fixpoint descendants_upto (fuel : nat) (d : DOM) (r : ref) : list ref :=
  match fuel with
  | 0 => []
  | S f => flat_map (fun c => c :: descendants_upto f d c) (children_of d r)
  end.

Definition descendants (d : DOM) (r : ref) : list ref :=
  descendants_upto (depth_bound d) d r.

(** [el.querySelectorAll(sel)] and [el.querySelector(sel)], the
    selector being given as the predicate it denotes. *)
Definition querySelectorAll (sel : DOM -> ref -> bool) (d : DOM) (r : ref) : list ref :=
  List.filter (sel d) (descendants d r).

Definition querySelector (sel : DOM -> ref -> bool) (d : DOM) (r : ref) : option ref :=
  head (querySelectorAll sel d r).

(** [el.closest(sel)]: the element itself or its nearest matching ancestor. *)
Fixpoint closest_upto (fuel : nat) (sel : DOM -> ref -> bool) (d : DOM) (r : ref) : option ref :=
  if sel d r then Some r
  else match fuel with
       | 0 => None
       | S f => match parent_of d r with
                | Some p => closest_upto f sel d p
                | None => None
                end
       end.

Definition closest (sel : DOM -> ref -> bool) (d : DOM) (r : ref) : option ref :=
  closest_upto (depth_bound d) sel d r.

Definition text_of (d : DOM) (r : ref) : string :=
  match node_at d r with
  | Some n => match nodeType n with TEXT_NODE => data n | ELEMENT_NODE => "" end
  | None => ""
  end.

(** [el.textContent] *)
Definition textContent (d : DOM) (r : ref) : string :=
  String.concat "" (map (text_of d) (descendants d r)).

(** [node.remove()] *)
Definition remove (r : ref) (d : DOM) : DOM :=
  match parent_of d r with
  | None => d
  | Some p =>
      update_node (with_parentNode None) r
        (update_node (fun n => with_childNodes (filter (fun c => c ≠ r) (childNodes n)) n) p d)
  end.

Fixpoint insert_before_child (new before : ref) (cs : list ref) : list ref :=
  match cs with
  | [] => [new]
  | c :: rest =>
      if Nat.eqb c before then new :: c :: rest
      else c :: insert_before_child new before rest
  end.

(** [parent.insertBefore(new, before)]: the node is first taken out of
    its former parent. The engine only inserts nodes it has just
    created, so the hierarchy checks of the DOM never fail. *)
Definition insertBefore (p new : ref) (before : option ref) (d : DOM) : DOM :=
  let d1 := remove new d in
  let place cs :=
    match before with
    | None => cs ++ [new]
    | Some b => insert_before_child new b cs
    end in
  update_node (with_parentNode (Some p)) new
    (update_node (fun n => with_childNodes (place (childNodes n)) n) p d1).

(** [parent.appendChild(new)] *)
Definition appendChild (p new : ref) (d : DOM) : DOM := insertBefore p new None d.

Fixpoint following_siblings (r : ref) (cs : list ref) : list ref :=
  match cs with
  | [] => []
  | c :: rest => if Nat.eqb c r then rest else following_siblings r rest
  end.

Definition nextSibling (d : DOM) (r : ref) : option ref :=
  match parent_of d r with
  | Some p => head (following_siblings r (children_of d p))
  | None => None
  end.

(** [r.after(new)]: nothing happens when [r] has no parent. *)
Definition after (r new : ref) (d : DOM) : DOM :=
  match parent_of d r with
  | None => d
  | Some p =>
      let viable :=
        head (filter (fun c => c ≠ new) (following_siblings r (children_of d p))) in
      insertBefore p new viable d
  end.

(** [document.createElement(tag)] *)
Definition createElement (tag : string) (d : DOM) : ref * DOM :=
  alloc (new_element tag) d.

Definition orphan_children (r : ref) (d : DOM) : DOM :=
  update_node (with_childNodes [])  r
    (fold_right (fun c acc => update_node (with_parentNode None) c acc) d (children_of d r)).

(** [el.textContent = v] *)
Definition set_textContent (v : string) (r : ref) (d : DOM) : DOM :=
  let d1 := orphan_children r d in
  if String.eqb v "" then d1
  else let '(t, d2) := alloc (with_parentNode (Some r) (new_text v)) d1 in
       update_node (with_childNodes [t]) r d2.

(** [el.innerHTML = '<br>'], the one markup string the engine assigns. *)
Definition set_innerHTML_br (r : ref) (d : DOM) : DOM :=
  let d1 := orphan_children r d in
  let '(b, d2) := alloc (with_parentNode (Some r) (new_element "BR")) d1 in
  update_node (with_childNodes [b]) r d2.

(** [node.cloneNode(true)]: a copy of the subtree made of new nodes,
    without parent. A reference that denotes no node is its own clone. *)
Fixpoint cloneNode_upto (fuel : nat) (d : DOM) (r : ref) (parent : option ref) : ref * DOM :=
  match node_at d r with
  | None => (r, d)
  | Some n =>
      let '(c, d1) := alloc (with_parentNode parent (with_childNodes [] n)) d in
      match fuel with
      | 0 => (c, d1)
      | S f =>
          let '(kids, d2) :=
            fold_left
              (fun (acc : list ref * DOM) k =>
                 let '(k', dd) := cloneNode_upto f (snd acc) k (Some c) in
                 (fst acc ++ [k'], dd))
              (childNodes n) ([], d1) in
          (c, update_node (with_childNodes kids) c d2)
      end
  end.

Definition cloneNode (d : DOM) (r : ref) : ref * DOM :=
  cloneNode_upto (depth_bound d) d r None.

(** *** Serialisation

    The start tag lists the plain attributes, then [class], the marker
    and [style]; declarations are written as kept, longhand by
    longhand. *)

Definition void_elements : list string :=
  ["AREA"; "BASE"; "BR"; "COL"; "EMBED"; "HR"; "IMG"; "INPUT"; "LINK";
   "META"; "SOURCE"; "TRACK"; "WBR"].

Definition serialize_attribute (k v : string) : string :=
  " " +:+ k +:+ "=" +:+ dquote +:+ escape true v +:+ dquote.

Definition cssText (l : list (string * string)) : string :=
  join " " (map (fun kv => fst kv +:+ ": " +:+ snd kv +:+ ";") l).

Definition start_tag (n : Node) : string :=
  "<" +:+ toLowerCase (tagName n)
  +:+ String.concat "" (map (fun kv => serialize_attribute (fst kv) (snd kv)) (attributes n))
  +:+ (match classList n with
       | [] => ""
       | l => serialize_attribute "class" (join " " l)
       end)
  +:+ (match componentId n with
       | None => ""
       | Some m => serialize_attribute "data-component-id" m
       end)
  +:+ (match style n with
       | [] => ""
       | l => serialize_attribute "style" (cssText l)
       end)
  +:+ ">".

(** [node.outerHTML] *)
Fixpoint outerHTML_upto (fuel : nat) (d : DOM) (r : ref) : string :=
  match node_at d r with
  | None => ""
  | Some n =>
      match nodeType n with
      | TEXT_NODE => escape false (data n)
      | ELEMENT_NODE =>
          if mem_string (tagName n) void_elements then start_tag n
          else
            start_tag n
            +:+ (match fuel with
                 | 0 => ""
                 | S f => String.concat "" (map (outerHTML_upto f d) (childNodes n))
                 end)
            +:+ "</" +:+ toLowerCase (tagName n) +:+ ">"
      end
  end.

Definition outerHTML (d : DOM) (r : ref) : string := outerHTML_upto (depth_bound d) d r.

(** [el.innerHTML] *)
Definition innerHTML (d : DOM) (r : ref) : string :=
  String.concat "" (map (outerHTML d) (children_of d r)).

(** *** The selection

    [window.getSelection()] is an input of the environment: the start
    of its first range when it has one. *)
Record Range := mkRange {
  startContainer : ref;
  startOffset : nat
}.

(** [range.insertNode(new)]: in a text node the text is split at the
    offset and the node goes between the two halves; in an element it
    goes before the child at the offset, or last. [None] is the
    [HierarchyRequestError] of a text node without parent (and of a
    container that is no node). *)
Definition insertNode (rg : Range) (new : ref) (d : DOM) : option DOM :=
  let sc := startContainer rg in
  match node_at d sc with
  | None => None
  | Some n =>
      match nodeType n with
      | ELEMENT_NODE =>
          Some (insertBefore sc new (childNodes n !! startOffset rg) d)
      | TEXT_NODE =>
          match parentNode n with
          | None => None
          | Some p =>
              let off := startOffset rg in
              let len := String.length (data n) in
              let '(t2, d1) := alloc (new_text (substring off (len - off) (data n))) d in
              let d2 := update_node (with_data (substring 0 off (data n))) sc d1 in
              let d3 := insertBefore p t2 (nextSibling d2 sc) d2 in
              Some (insertBefore p new (Some t2) d3)
          end
      end
  end.

(** ** Component records *)

(** [ComponentData['type']] *)
Inductive ComponentType :=
  T_image | T_layout | T_gallery | T_figure | T_quote | T_comparison | T_hero.

(** [ImageProps['layout']] *)
Inductive Layout := L_inline | L_float_left | L_float_right | L_center | L_figure.

Definition layout_name (l : Layout) : string :=
  match l with
  | L_inline => "inline"
  | L_float_left => "float-left"
  | L_float_right => "float-right"
  | L_center => "center"
  | L_figure => "figure"
  end.

(** The values a property bag ([Record<string, any>]) holds in this
    program: strings, numbers ([columns]), lists of [{src, alt}]
    ([images]) and [undefined]. *)
Inductive JSValue :=
  | VUndefined
  | VString (s : string)
  | VNumber (z : Z)
  | VImages (l : list (string * string)).

(** Truthiness, as in [if (img && component.props.src)]. *)
Definition truthy (v : option JSValue) : bool :=
  match v with
  | None | Some VUndefined => false
  | Some (VString s) => negb (String.eqb s "")
  | Some (VNumber z) => negb (Z.eqb z 0)
  | Some (VImages _) => true
  end.

(** [v !== undefined] for the property read [bag.k]. *)
Definition defined (v : option JSValue) : bool :=
  match v with
  | None | Some VUndefined => false
  | Some _ => true
  end.

(** The string a value becomes when it is assigned to [src] or
    [textContent]. *)
Definition js_string (v : option JSValue) : string :=
  match v with
  | None | Some VUndefined => "undefined"
  | Some (VString s) => s
  | Some (VNumber z) =>
      if (z <? 0)%Z then "-" +:+ decimal (Z.to_N (- z)) else decimal (Z.to_N z)
  | Some (VImages l) => join "," (map (fun _ => "[object Object]") l)
  end.

(** No method of the class writes into a property bag in place:
    [updateComponent] and [updateImage] bind a new object to [props].
    A bag is therefore a value, and [{...a, ...b}] is the union in
    which [b] wins. *)
Abbreviation Props := (gmap string JSValue).

Definition spread (a b : Props) : Props := b ∪ a.

Record ComponentData := mkComponent {
  id : string;
  type : ComponentType;
  props : Props;
  element : option ref
}.

Definition with_props (p : Props) (c : ComponentData) : ComponentData :=
  mkComponent (id c) (type c) p (element c).

(** [Partial<ImageProps>]: [None] is a property that is not supplied. *)
Record ImageProps := mkImageProps {
  ip_src : option string;
  ip_alt : option string;
  ip_width : option string;
  ip_layout : option Layout;
  ip_caption : option string
}.

Definition put (k : string) (v : option string) (m : Props) : Props :=
  match v with
  | Some s => <[k := VString s]> m
  | None => m
  end.

(** The own properties of a [Partial<ImageProps>] object. *)
Definition image_bag (p : ImageProps) : Props :=
  put "src" (ip_src p)
    (put "alt" (ip_alt p)
       (put "width" (ip_width p)
          (put "layout" (layout_name <$> ip_layout p)
             (put "caption" (ip_caption p) ∅)))).

(** ** The manager *)

Record HTMLInputElement := mkInput { value : string }.

Record State := mkState {
  document : DOM;
  components : gmap string ComponentData;
  editor : option ref;
  contentInput : option HTMLInputElement;
  changeListeners : list nat;                        (* handles, in order of insertion *)
  calls : list (nat * string * ComponentData);       (* listener, componentId, data *)
  Date_now : nat -> N;                               (* [Date.now()] at the k-th draw *)
  random36 : nat -> string;                          (* [Math.random().toString(36)] at the k-th draw *)
  draws : nat
}.

Definition with_document (d : DOM) (st : State) : State :=
  mkState d (components st) (editor st) (contentInput st) (changeListeners st)
          (calls st) (Date_now st) (random36 st) (draws st).
Definition with_components (m : gmap string ComponentData) (st : State) : State :=
  mkState (document st) m (editor st) (contentInput st) (changeListeners st)
          (calls st) (Date_now st) (random36 st) (draws st).
Definition with_editor (e : option ref) (st : State) : State :=
  mkState (document st) (components st) e (contentInput st) (changeListeners st)
          (calls st) (Date_now st) (random36 st) (draws st).
Definition with_contentInput (i : option HTMLInputElement) (st : State) : State :=
  mkState (document st) (components st) (editor st) i (changeListeners st)
          (calls st) (Date_now st) (random36 st) (draws st).
Definition with_changeListeners (l : list nat) (st : State) : State :=
  mkState (document st) (components st) (editor st) (contentInput st) l
          (calls st) (Date_now st) (random36 st) (draws st).
Definition with_calls (l : list (nat * string * ComponentData)) (st : State) : State :=
  mkState (document st) (components st) (editor st) (contentInput st)
          (changeListeners st) l (Date_now st) (random36 st) (draws st).
Definition with_draws (k : nat) (st : State) : State :=
  mkState (document st) (components st) (editor st) (contentInput st)
          (changeListeners st) (calls st) (Date_now st) (random36 st) k.

(** [new ComponentManager()] in a page whose document is [d]. *)
Definition new_ComponentManager (d : DOM) (now : nat -> N) (rnd : nat -> string) : State :=
  mkState d ∅ None None [] [] now rnd 0.

(** The id the next call of [generateId] returns. *)
Definition next_id (st : State) : string :=
  "cmp-" +:+ decimal (Date_now st (draws st)) +:+ "-"
  +:+ substring 2 9 (random36 st (draws st)).

Definition generateId (st : State) : string * State :=
  (next_id st, with_draws (S (draws st)) st).

(** *** Selectors used by the class *)

Definition sel_class (c : string) : DOM -> ref -> bool := classList_contains c.
Definition sel_tag (t : string) : DOM -> ref -> bool := tag_is t.

(** [figure:not(.blog-figure)] *)
Definition sel_plain_figure (d : DOM) (r : ref) : bool :=
  tag_is "FIGURE" d r && negb (classList_contains "blog-figure" d r).

(** [img.blog-image, img.editable] *)
Definition sel_editable_img (d : DOM) (r : ref) : bool :=
  tag_is "IMG" d r
  && (classList_contains "blog-image" d r || classList_contains "editable" d r).

(** [[data-component-id]]: the attribute is present, whatever its value. *)
Definition sel_marked (d : DOM) (r : ref) : bool :=
  match dataset_componentId d r with Some _ => true | None => false end.

(** [p, div:not(:has(img))] *)
Definition sel_text_block (d : DOM) (r : ref) : bool :=
  tag_is "P" d r
  || (tag_is "DIV" d r
      && match querySelector (sel_tag "IMG") d r with Some _ => false | None => true end).

(** *** Classification and extraction *)

Definition detectComponentType (d : DOM) (el : ref) : ComponentType :=
  if classList_contains "blog-layout" d el then T_layout
  else if classList_contains "blog-gallery" d el then T_gallery
  else if classList_contains "blog-hero" d el then T_hero
  else if classList_contains "blog-quote" d el then T_quote
  else if classList_contains "blog-comparison" d el then T_comparison
  else if classList_contains "blog-figure" d el || tag_is "FIGURE" d el then T_figure
  else T_image.

Definition detectImageLayout (d : DOM) (img : ref) : Layout :=
  if classList_contains "float-left" d img then L_float_left
  else if classList_contains "float-right" d img then L_float_right
  else if classList_contains "center" d img then L_center
  else match closest (sel_tag "FIGURE") d img with
       | Some _ => L_figure
       | None => L_inline
       end.

Definition images_of (d : DOM) (el : ref) : JSValue :=
  VImages (map (fun i => (get_src d i, get_alt d i)) (querySelectorAll (sel_tag "IMG") d el)).

(** [x || fallback] on strings *)
Definition or_else (s fallback : string) : string :=
  if String.eqb s "" then fallback else s.

Definition extractProps (d : DOM) (el : ref) (t : ComponentType) : Props :=
  match t with
  | T_image =>
      let img := if tag_is "IMG" d el then Some el else querySelector (sel_tag "IMG") d el in
      match img with
      | Some i =>
          <["width" := VString (style_get "width" d i)]>
            (<["alt" := VString (get_alt d i)]>
               (<["src" := VString (get_src d i)]> ∅))
      | None => ∅
      end
  | T_layout =>
      let layoutType :=
        if classList_contains "image-left" d el then "image-left"
        else if classList_contains "image-right" d el then "image-right"
        else if classList_contains "split-50-50" d el then "split-50-50"
        else "custom" in
      let text :=
        match querySelector sel_text_block d el with
        | Some b => innerHTML d b
        | None => ""
        end in
      <["text" := VString text]>
        (<["images" := images_of d el]>
           (<["layoutType" := VString layoutType]> ∅))
  | T_gallery =>
      let columns :=
        if includes_char "3"%char (style_get "grid-template-columns" d el) then 3%Z else 2%Z in
      <["images" := images_of d el]> (<["columns" := VNumber columns]> ∅)
  | T_figure =>
      let img := querySelector (sel_tag "IMG") d el in
      let caption := querySelector (sel_tag "FIGCAPTION") d el in
      let p1 := match img with
                | Some i => <["alt" := VString (get_alt d i)]> (<["src" := VString (get_src d i)]> ∅)
                | None => ∅
                end in
      match caption with
      | Some c => <["caption" := VString (textContent d c)]> p1
      | None => p1
      end
  | T_quote =>
      let p1 := match querySelector (sel_tag "IMG") d el with
                | Some i => <["avatarSrc" := VString (get_src d i)]> ∅
                | None => ∅
                end in
      let p2 := match querySelector (sel_tag "BLOCKQUOTE") d el with
                | Some b => <["quote" := VString (textContent d b)]> p1
                | None => p1
                end in
      match querySelector (sel_tag "CITE") d el with
      | Some c => <["author" := VString (textContent d c)]> p2
      | None => p2
      end
  | T_comparison =>
      let images := querySelectorAll (sel_tag "IMG") d el in
      let captions := querySelectorAll (sel_tag "FIGCAPTION") d el in
      let src_at k := match images !! k with
                      | Some i => VString (get_src d i)
                      | None => VUndefined
                      end in
      let label_at k fallback :=
        match captions !! k with
        | Some c => VString (or_else (textContent d c) fallback)
        | None => VString fallback
        end in
      <["afterLabel" := label_at 1%nat "After"]>
        (<["beforeLabel" := label_at 0%nat "Before"]>
           (<["afterImage" := src_at 1%nat]>
              (<["beforeImage" := src_at 0%nat]> ∅)))
  | T_hero => ∅
  end.

(** *** Registration *)

Definition registerElement (el : ref) (st : State) : string * State :=
  let '(i, st1) := generateId st in
  let d := set_componentId i el (document st1) in
  let t := detectComponentType d el in
  let p := extractProps d el t in
  (i, with_components (<[i := mkComponent i t p (Some el)]> (components st1))
        (with_document d st1)).

Definition registerImage (img : ref) (st : State) : string * State :=
  let '(i, st1) := generateId st in
  let d := set_componentId i img (document st1) in
  let p : Props :=
    <["layout" := VString (layout_name (detectImageLayout d img))]>
      (<["width" := VString (or_else (style_get "width" d img) "100%")]>
         (<["alt" := VString (get_alt d img)]>
            (<["src" := VString (get_src d img)]> ∅))) in
  (i, with_components (<[i := mkComponent i T_image p (Some img)]> (components st1))
        (with_document d st1)).

Definition component_selectors : list (DOM -> ref -> bool) :=
  [ sel_class "blog-layout"; sel_class "blog-gallery"; sel_class "blog-hero";
    sel_class "blog-quote"; sel_class "blog-comparison"; sel_class "blog-figure";
    sel_class "blog-image-wrapper"; sel_plain_figure ].

Definition scanExistingComponents (st : State) : State :=
  match editor st with
  | None => st
  | Some ed =>
      let st1 :=
        fold_left
          (fun s sel =>
             fold_left
               (fun s' el =>
                  if has_marker (document s') el then s' else snd (registerElement el s'))
               (querySelectorAll sel (document s) ed) s)
          component_selectors st in
      fold_left
        (fun s img =>
           match closest sel_marked (document s) img with
           | Some _ => s
           | None => if has_marker (document s) img then s else snd (registerImage img s)
           end)
        (querySelectorAll sel_editable_img (document st1) ed) st1
  end.

Definition isComponentElement (d : DOM) (el : ref) : bool :=
  classList_contains "blog-layout" d el
  || classList_contains "blog-gallery" d el
  || classList_contains "blog-hero" d el
  || classList_contains "blog-quote" d el
  || classList_contains "blog-comparison" d el
  || classList_contains "blog-figure" d el
  || classList_contains "blog-image-wrapper" d el
  || tag_is "FIGURE" d el.

(** One [MutationRecord] of a [childList] observation. *)
Record MutationRecord := mkMutation {
  removedNodes : list ref;
  addedNodes : list ref
}.

Definition on_removed (node : ref) (st : State) : State :=
  if instanceof_HTMLElement (document st) node && has_marker (document st) node
  then match dataset_componentId (document st) node with
       | Some m => with_components (delete m (components st)) st
       | None => st
       end
  else st.

Definition on_added (node : ref) (st : State) : State :=
  if instanceof_HTMLElement (document st) node then
    let st1 :=
      if isComponentElement (document st) node && negb (has_marker (document st) node)
      then snd (registerElement node st) else st in
    if tag_is "IMG" (document st1) node && negb (has_marker (document st1) node)
    then snd (registerImage node st1) else st1
  else st.

(** The callback that [setupMutationObserver] hands to the
    [MutationObserver] of the editor: the environment calls it with
    each batch of records. *)
Definition mutation_callback (mutations : list MutationRecord) (st : State) : State :=
  fold_left
    (fun s m =>
       fold_left (fun s' n => on_added n s') (addedNodes m)
         (fold_left (fun s' n => on_removed n s') (removedNodes m) s))
    mutations st.

Definition init (ed : ref) (input : HTMLInputElement) (st : State) : State :=
  scanExistingComponents (with_contentInput (Some input) (with_editor (Some ed) st)).

(** *** Lookup *)

Definition getComponent (i : string) (st : State) : option ComponentData :=
  components st !! i.

Definition getComponentByElement (el : ref) (st : State) : option ComponentData :=
  if has_marker (document st) el
  then dataset_componentId (document st) el ≫= fun i => components st !! i
  else None.

(** *** Synchronisation and notification *)

Definition syncContent (st : State) : State :=
  match editor st, contentInput st with
  | Some ed, Some _ => with_contentInput (Some (mkInput (innerHTML (document st) ed))) st
  | _, _ => st
  end.

(** [onChange(listener)]: the set of listeners keeps one copy of each. *)
Definition onChange (listener : nat) (st : State) : State :=
  if bool_decide (listener ∈ changeListeners st) then st
  else with_changeListeners (changeListeners st ++ [listener]) st.

(** The function [onChange(listener)] returns. *)
Definition unsubscribe (listener : nat) (st : State) : State :=
  with_changeListeners (filter (fun l => l ≠ listener) (changeListeners st)) st.

Definition notifyListeners (componentId : string) (c : ComponentData) (st : State) : State :=
  with_calls (calls st ++ map (fun l => (l, componentId, c)) (changeListeners st)) st.

(** *** Updates *)

Definition applyUpdatesToDOM (c : ComponentData) (d : DOM) : DOM :=
  match element c with
  | None => d
  | Some el =>
      match type c with
      | T_figure =>
          let img := querySelector (sel_tag "IMG") d el in
          let figcaption := querySelector (sel_tag "FIGCAPTION") d el in
          let d1 := match img with
                    | Some i => if truthy (props c !! "src")
                                then set_src (js_string (props c !! "src")) i d else d
                    | None => d
                    end in
          let d2 := match img with
                    | Some i => if truthy (props c !! "alt")
                                then set_alt (js_string (props c !! "alt")) i d1 else d1
                    | None => d1
                    end in
          match figcaption with
          | Some f => if defined (props c !! "caption")
                      then set_textContent (js_string (props c !! "caption")) f d2 else d2
          | None => d2
          end
      | T_quote =>
          let img := querySelector (sel_tag "IMG") d el in
          let blockquote := querySelector (sel_tag "BLOCKQUOTE") d el in
          let cite := querySelector (sel_tag "CITE") d el in
          let d1 := match img with
                    | Some i => if truthy (props c !! "avatarSrc")
                                then set_src (js_string (props c !! "avatarSrc")) i d else d
                    | None => d
                    end in
          let d2 := match blockquote with
                    | Some b => if truthy (props c !! "quote")
                                then set_textContent (js_string (props c !! "quote")) b d1 else d1
                    | None => d1
                    end in
          match cite with
          | Some ci => if truthy (props c !! "author")
                       then set_textContent (js_string (props c !! "author")) ci d2 else d2
          | None => d2
          end
      | _ => d
      end
  end.

Definition updateComponent (i : string) (updates : Props) (st : State) : bool * State :=
  match components st !! i with
  | None => (false, st)
  | Some component =>
      match element component with
      | None => (false, st)
      | Some _ =>
          let component' := with_props (spread (props component) updates) component in
          let st1 := with_components (<[i := component']> (components st)) st in
          let st2 := with_document (applyUpdatesToDOM component' (document st1)) st1 in
          (true, notifyListeners i component' (syncContent st2))
      end
  end.

(** The layout part of [updateImage]. *)
Definition apply_layout (l : Layout) (img : ref) (d : DOM) : DOM :=
  let d1 := classList_remove ["float-left"; "float-right"; "center"; "inline"] img d in
  let d2 := match l with
            | L_inline | L_figure => d1
            | _ => classList_add (layout_name l) img d1
            end in
  match l with
  | L_float_left =>
      style_set "margin-bottom" "0.5rem" img
        (style_set "margin-right" "1rem" img (style_set "float" "left" img d2))
  | L_float_right =>
      style_set "margin-bottom" "0.5rem" img
        (style_set "margin-left" "1rem" img (style_set "float" "right" img d2))
  | L_center =>
      style_set "margin" "1rem auto" img
        (style_set "display" "block" img (style_set "float" "" img d2))
  | L_inline | L_figure =>
      style_set "display" "" img (style_set "float" "" img d2)
  end.

Definition when {A B : Type} (o : option A) (f : A -> B -> B) (b : B) : B :=
  match o with
  | Some a => f a b
  | None => b
  end.

(** The element [updateImage] patches: the element of the component
    itself when its type is [image], its first [<img>] otherwise. *)
Definition image_of (component : ComponentData) (d : DOM) : option ref :=
  match type component with
  | T_image => element component
  | _ => element component ≫= querySelector (sel_tag "IMG") d
  end.

Definition updateImage (i : string) (p : ImageProps) (st : State) : bool * State :=
  match components st !! i with
  | None => (false, st)
  | Some component =>
      match image_of component (document st) with
      | None => (false, st)
      | Some img =>
          let d :=
            when (ip_layout p) (fun l => apply_layout l img)
              (when (ip_width p) (fun w => style_set "width" w img)
                 (when (ip_alt p) (fun a => set_alt a img)
                    (when (ip_src p) (fun s => set_src s img) (document st)))) in
          let component' := with_props (spread (props component) (image_bag p)) component in
          let st1 := with_components (<[i := component']> (components st))
                       (with_document d st) in
          (true, notifyListeners i component' (syncContent st1))
      end
  end.

Definition removeComponent (i : string) (st : State) : bool * State :=
  match components st !! i with
  | None => (false, st)
  | Some component =>
      match element component with
      | None => (false, st)
      | Some el =>
          (true, syncContent
                   (with_components (delete i (components st))
                      (with_document (remove el (document st)) st)))
      end
  end.

(** *** Insertion and duplication *)

(** The result of a call that may be aborted by an exception of the DOM. *)
Inductive Outcome (A : Type) :=
  | Returns (a : A)
  | Throws.
Arguments Returns {A} a.
Arguments Throws {A}.

(** The wrapper [insertImage] creates: a [<div>] stamped with the id. *)
Definition new_wrapper (i : string) (d : DOM) : ref * DOM :=
  let '(wrapper, d1) := createElement "DIV" d in
  (wrapper,
   style_set "margin" "1rem 0" wrapper
     (set_componentId i wrapper (set_className "blog-image-wrapper" wrapper d1))).

(** The [<img>] it creates. *)
Definition new_image (src alt width : string) (layout : Layout) (d : DOM) : ref * DOM :=
  let '(img, d1) := createElement "IMG" d in
  (img,
   style_set "display" "block" img
     (style_set "cursor" "pointer" img
        (style_set "height" "auto" img
           (style_set "width" width img
              (style_set "max-width" "100%" img
                 (set_className
                    ("blog-image editable "
                     +:+ match layout with
                         | L_inline => ""
                         | _ => layout_name layout
                         end) img
                    (set_alt alt img (set_src src img d1)))))))).

(** The fragment [insertImage] builds: the image in the wrapper. *)
Definition image_fragment (i src alt width : string) (layout : Layout) (d : DOM)
    : ref * DOM :=
  let '(wrapper, d1) := new_wrapper i d in
  let '(img, d2) := new_image src alt width layout d1 in
  (wrapper, appendChild wrapper img d2).

(** The paragraph that follows the image: [<p><br></p>]. *)
Definition empty_paragraph (d : DOM) : ref * DOM :=
  let '(p, d1) := createElement "P" d in
  (p, set_innerHTML_br p d1).

(** [selection] is what [window.getSelection()] holds at the call. The
    two calls that follow [range.insertNode], [setStartAfter] and
    [collapse], move the range and leave the document alone. *)
Definition insertImage (src alt : string) (options : ImageProps)
    (selection : option Range) (st : State) : Outcome string * State :=
  match editor st with
  | None => (Returns "", st)
  | Some ed =>
      let '(i, st1) := generateId st in
      let width := or_else (default "" (ip_width options)) "100%" in
      let layout := default L_inline (ip_layout options) in
      let '(wrapper, d5) := image_fragment i src alt width layout (document st1) in
      let inserted :=
        match selection with
        | Some range => insertNode range wrapper d5
        | None => Some (appendChild ed wrapper d5)
        end in
      match inserted with
      | None => (Throws, with_document d5 st1)
      | Some d6 =>
          let '(p, d7) := empty_paragraph d6 in
          let d8 := after wrapper p d7 in
          let bag : Props :=
            <["layout" := VString (layout_name layout)]>
              (<["width" := VString width]>
                 (<["alt" := VString alt]> (<["src" := VString src]> ∅))) in
          (Returns i,
           syncContent
             (with_components
                (<[i := mkComponent i T_image bag (Some wrapper)]> (components st1))
                (with_document d8 st1)))
      end
  end.

Definition duplicateComponent (i : string) (st : State) : option string * State :=
  match components st !! i with
  | None => (None, st)
  | Some component =>
      match element component with
      | None => (None, st)
      | Some el =>
          let '(clone, d1) := cloneNode (document st) el in
          let '(newId, st1) := generateId st in
          let d2 := after el clone (set_componentId newId clone d1) in
          (Some newId,
           syncContent
             (with_components
                (<[newId := mkComponent newId (type component) (props component) (Some clone)]>
                   (components st1))
                (with_document d2 st1)))
      end
  end.

(** *** The mutating operations as one type *)

Inductive Mutation :=
  | M_updateComponent (i : string) (updates : Props)
  | M_updateImage (i : string) (p : ImageProps)
  | M_insertImage (src alt : string) (options : ImageProps) (selection : option Range)
  | M_removeComponent (i : string)
  | M_duplicateComponent (i : string).

(** [insertImage] fails by returning the empty string, or by an
    exception. *)
Definition inserted (o : Outcome string) : bool :=
  match o with
  | Returns i => negb (String.eqb i "")
  | Throws => false
  end.

Definition present {A : Type} (o : option A) : bool :=
  match o with Some _ => true | None => false end.

(** The success indicator and the state a mutating call produces. *)
Definition perform (m : Mutation) (st : State) : bool * State :=
  match m with
  | M_updateComponent i u => updateComponent i u st
  | M_updateImage i p => updateImage i p st
  | M_insertImage s a o sel =>
      (inserted (fst (insertImage s a o sel st)), snd (insertImage s a o sel st))
  | M_removeComponent i => removeComponent i st
  | M_duplicateComponent i =>
      (present (fst (duplicateComponent i st)), snd (duplicateComponent i st))
  end.

(** [{layout: l}] *)
Definition layout_only (l : Layout) : ImageProps :=
  mkImageProps None None None (Some l) None.

(** ** Input validation and sanitisation

    The functions of lines 30-150 that work on strings alone. A
    character is a UTF-16 code unit below 256; the regular expressions
    of the source are written out as the matchers they denote. *)

Definition between (lo hi a : ascii) : bool :=
  (nat_of_ascii lo <=? nat_of_ascii a)%nat && (nat_of_ascii a <=? nat_of_ascii hi)%nat.

Fixpoint all_chars (p : ascii -> bool) (s : string) : bool :=
  match s with
  | "" => true
  | String a r => p a && all_chars p r
  end.

Fixpoint filter_chars (p : ascii -> bool) (s : string) : string :=
  match s with
  | "" => ""
  | String a r => if p a then String a (filter_chars p r) else filter_chars p r
  end.

Fixpoint map_chars (f : ascii -> ascii) (s : string) : string :=
  match s with
  | "" => ""
  | String a r => String (f a) (map_chars f r)
  end.

(** [[a-fA-F0-9]] *)
Definition is_hex (a : ascii) : bool :=
  between "a" "f" a || between "A" "F" a || between "0" "9" a.

(** [/^[a-fA-F0-9]{n}$/.test(s)] *)
Fixpoint hex_exactly (n : nat) (s : string) : bool :=
  match n, s with
  | 0, "" => true
  | S k, String a r => is_hex a && hex_exactly k r
  | _, _ => false
  end.

(** [/^0x[a-fA-F0-9]{n}$/.test(s)] *)
Definition prefixed_hex (n : nat) (s : string) : bool :=
  match s with
  | String a (String b r) => Ascii.eqb a "0" && Ascii.eqb b "x" && hex_exactly n r
  | _ => false
  end.

Definition isValidAddress (address : string) : bool := prefixed_hex 40 address.
Definition isValidTxHash (hash : string) : bool := prefixed_hex 64 hash.
Definition isValidSignature (signature : string) : bool := prefixed_hex 130 signature.
Definition isValidNonce (nonce : string) : bool := hex_exactly 64 nonce.

(** *** [sanitizeInput] *)

(** [s.replace(re, '')] for a global [re] that matches no empty
    string: [m s] is the length of the match of [re] at the start of
    [s], if there is one. The characters of a match are skipped and the
    search resumes behind it. *)
Fixpoint remove_matches_from (skip : nat) (m : string -> option nat) (s : string) : string :=
  match s with
  | "" => ""
  | String a r =>
      match skip with
      | S k => remove_matches_from k m r
      | 0 =>
          match m s with
          | Some (S k) => remove_matches_from k m r
          | _ => String a (remove_matches_from 0 m r)
          end
      end
  end.

Definition remove_matches (m : string -> option nat) (s : string) : string :=
  remove_matches_from 0 m s.

(** [/[<>]/] *)
Definition match_angle_bracket (s : string) : option nat :=
  match s with
  | String a _ => if Ascii.eqb a "<" || Ascii.eqb a ">" then Some 1 else None
  | "" => None
  end.

(** Does [s] start with [p], a pattern in lower case, letters being
    compared without regard to case? *)
Fixpoint starts_with_ci (p s : string) : bool :=
  match p, s with
  | "", _ => true
  | String a p', String b s' => Ascii.eqb a (lower_ascii b) && starts_with_ci p' s'
  | String _ _, "" => false
  end.

(** [/javascript:/i] *)
Definition match_javascript (s : string) : option nat :=
  if starts_with_ci "javascript:" s then Some 11 else None.

(** [\w] and [\s] *)
Definition is_word (a : ascii) : bool :=
  between "a" "z" a || between "A" "Z" a || between "0" "9" a || Ascii.eqb a "_".

Definition is_space (a : ascii) : bool :=
  let n := nat_of_ascii a in
  ((9 <=? n)%nat && (n <=? 13)%nat) || (n =? 32)%nat || (n =? 160)%nat.

(** The length of the longest prefix of [s] made of characters in [p]. *)
Fixpoint span (p : ascii -> bool) (s : string) : nat :=
  match s with
  | String a r => if p a then S (span p r) else 0
  | "" => 0
  end.

Fixpoint drop_chars (n : nat) (s : string) : string :=
  match n, s with
  | S k, String _ r => drop_chars k r
  | _, _ => s
  end.

(** [/on\w+\s*=/i]. The classes [\w] and [\s] and the character [=] are
    disjoint, so the greedy runs are the only way to match: giving a
    character back never helps. *)
Definition match_handler (s : string) : option nat :=
  match s with
  | String o (String n r) =>
      if Ascii.eqb (lower_ascii o) "o" && Ascii.eqb (lower_ascii n) "n" then
        let w := span is_word r in
        let sp := span is_space (drop_chars w r) in
        match w, drop_chars sp (drop_chars w r) with
        | S _, String e _ => if Ascii.eqb e "=" then Some (2 + w + sp + 1) else None
        | _, _ => None
        end
      else None
  | _ => None
  end.

Fixpoint trim_start (s : string) : string :=
  match s with
  | String a r => if is_space a then trim_start r else s
  | "" => ""
  end.

Fixpoint trim_end (s : string) : string :=
  match s with
  | "" => ""
  | String a r =>
      match trim_end r with
      | "" => if is_space a then "" else String a ""
      | r' => String a r'
      end
  end.

(** [s.trim()] *)
Definition trim (s : string) : string := trim_end (trim_start s).

Definition sanitizeInput (input : string) : string :=
  trim
    (remove_matches match_handler
       (remove_matches match_javascript
          (remove_matches match_angle_bracket input))).

(** *** [getRateLimitKey] *)

(** [[a-zA-Z0-9-_]] *)
Definition is_key_char (a : ascii) : bool :=
  between "a" "z" a || between "A" "Z" a || between "0" "9" a
  || Ascii.eqb a "-" || Ascii.eqb a "_".

Definition getRateLimitKey (prefix identifier : string) : string :=
  let safe := filter_chars is_key_char identifier in
  substring 0 128 (prefix +:+ "-" +:+ safe).

(** *** [isValidJWT] *)

(** [s.split(c)] for a one-character separator. *)
Fixpoint split (c : ascii) (s : string) : list string :=
  match s with
  | "" => [""]
  | String a r =>
      if Ascii.eqb a c then "" :: split c r
      else match split c r with
           | x :: xs => String a x :: xs
           | [] => [String a ""]
           end
  end.

(** [s.replace(/a/g, b)] for single characters. *)
Definition replace_char (a b : ascii) (s : string) : string :=
  map_chars (fun x => if Ascii.eqb x a then b else x) s.

(** ASCII whitespace, as the decoder of [atob] strips it. *)
Definition is_ascii_whitespace (a : ascii) : bool :=
  let n := nat_of_ascii a in
  (n =? 9)%nat || (n =? 10)%nat || (n =? 12)%nat || (n =? 13)%nat || (n =? 32)%nat.

Definition is_base64 (a : ascii) : bool :=
  between "a" "z" a || between "A" "Z" a || between "0" "9" a
  || Ascii.eqb a "+" || Ascii.eqb a "/".

(** One or two [=] at the end are taken off. *)
Fixpoint without_padding (s : string) : string :=
  match s with
  | "" => ""
  | String a r =>
      if Ascii.eqb a "=" && (String.eqb r "" || String.eqb r "=") then ""
      else String a (without_padding r)
  end.

(** Whether [atob(data)] returns: the forgiving base64 decoder of the
    HTML standard fails, and [atob] throws, when the length of the data
    without whitespace and padding is 1 modulo 4 or a character is
    outside the alphabet. The decoded value is not used by the source. *)
Definition atob_returns (data : string) : bool :=
  let d1 := filter_chars (fun a => negb (is_ascii_whitespace a)) data in
  let d2 := if (String.length d1 mod 4 =? 0)%nat then without_padding d1 else d1 in
  negb (String.length d2 mod 4 =? 1)%nat && all_chars is_base64 d2.

Definition isValidJWT (token : string) : bool :=
  let parts := split "." token in
  if negb (length parts =? 3)%nat then false
  else forallb (fun part => atob_returns (replace_char "_" "/" (replace_char "-" "+" part)))
         parts.

(** The alphabet of the segments of a token: base64 with [-] and [_]. *)
Definition is_base64url (a : ascii) : bool :=
  between "a" "z" a || between "A" "Z" a || between "0" "9" a
  || Ascii.eqb a "-" || Ascii.eqb a "_".

(** The characters of a string, as a list. *)
Abbreviation chars := list_ascii_of_string.

(** ** Notions used in the statements *)

(** The calls a successful mutation makes to the listeners [ls], given
    the state [st'] it produced: the two updates call every listener
    with the id and the updated record, the other three call nobody. *)
Definition expected_calls (m : Mutation) (st' : State) (ls : list nat)
    : list (nat * string * ComponentData) :=
  match m with
  | M_updateComponent i _ | M_updateImage i _ =>
      match components st' !! i with
      | Some c => map (fun l => (l, i, c)) ls
      | None => []
      end
  | _ => []
  end.

(** What [apply_layout] does to the class list and to the declarations
    of the element it patches. *)
Definition layout_classes : list string := ["float-left"; "float-right"; "center"; "inline"].

Definition class_patch (l : Layout) (cl : list string) : list string :=
  match l with
  | L_inline | L_figure => remove_tokens layout_classes cl
  | _ => add_token (layout_name l) (remove_tokens layout_classes cl)
  end.

Definition style_patch (l : Layout) (s : list (string * string)) : list (string * string) :=
  match l with
  | L_float_left =>
      set_declaration "margin-bottom" "0.5rem"
        (set_declaration "margin-right" "1rem" (set_declaration "float" "left" s))
  | L_float_right =>
      set_declaration "margin-bottom" "0.5rem"
        (set_declaration "margin-left" "1rem" (set_declaration "float" "right" s))
  | L_center =>
      set_margin "1rem auto"
        (set_declaration "display" "block" (set_declaration "float" "" s))
  | L_inline | L_figure =>
      set_declaration "display" "" (set_declaration "float" "" s)
  end.

Definition layout_patch (l : Layout) (n : Node) : Node :=
  with_style (style_patch l (style n)) (with_classList (class_patch l (classList n)) n).

(** A change of a node that leaves its marker as it is. *)
Definition keeps_marker (f : Node -> Node) : Prop :=
  forall n, componentId (f n) = componentId n.

(** A change of a node that leaves the tree and the element names as
    they are. *)
Definition keeps_shape (f : Node -> Node) : Prop :=
  forall n, nodeType (f n) = nodeType n /\ tagName (f n) = tagName n
            /\ childNodes (f n) = childNodes n /\ parentNode (f n) = parentNode n
            /\ componentId (f n) = componentId n.

(** ** Reconciliation of the registry with the document

    The operations that keep the registry in step with the markers:
    registration of a node that has no marker (what the scan and the
    watcher do), the scan, [removeComponent], a run of the watcher's
    callback, and an edit of the document made outside the engine,
    which may do anything but change a marker that is there. *)

Definition entries_marked (st : State) : Prop :=
  forall i c, components st !! i = Some c ->
    i <> "" /\ id c = i
    /\ exists el, element c = Some el
                  /\ dataset_componentId (document st) el = Some i.




(** ** Well-formed documents

    References below [next_ref] only; the children of a node name it as
    their parent, without repetition; a node is listed by its parent
    and is not its own parent. *)
Definition wf_node (d : DOM) (k : ref) (n : Node) : Prop :=
  k < next_ref d
  /\ (forall c, c ∈ childNodes n -> c < next_ref d /\ parent_of d c = Some k)
  /\ NoDup (childNodes n)
  /\ (forall p, parentNode n = Some p -> p <> k /\ k ∈ children_of d p).

Definition wf_dom (d : DOM) : Prop :=
  forall k n, nodes d !! k = Some n -> wf_node d k n.

Definition wf_node_b (d : DOM) (k : ref) (n : Node) : bool :=
  (k <? next_ref d)%nat
  && forallb (fun c => (c <? next_ref d)%nat && bool_decide (parent_of d c = Some k))
       (childNodes n)
  && bool_decide (NoDup (childNodes n))
  && match parentNode n with
     | None => true
     | Some p => negb (p =? k)%nat && bool_decide (k ∈ children_of d p)
     end.

Definition wf_dom_b (d : DOM) : bool :=
  forallb (fun kn => wf_node_b d (fst kn) (snd kn)) (map_to_list (nodes d)).

(** The nodes from [base] on form a region of their own: nothing is
    stored at or above [next_ref], and a node of the region has its
    children in the region. *)
Definition region (base : ref) (d : DOM) : Prop :=
  base <= next_ref d
  /\ (forall x, next_ref d <= x -> nodes d !! x = None)
  /\ (forall x n, base <= x -> nodes d !! x = Some n ->
                  forall k, k ∈ childNodes n -> base <= k).

(** [d'] has the nodes of [d] below [base] as they were. *)
Definition agree_below (base : ref) (d d' : DOM) : Prop :=
  forall x, x < base -> nodes d' !! x = nodes d !! x.

(** [d] comes from [d0] by writes at or above [base] only. *)
Definition inside (base : ref) (d0 d : DOM) : Prop :=
  region base d /\ agree_below base d0 d.

(** The nodes [insertImage] builds for [{layout: 'center'}] and the
    default width. *)
Definition wrapper_node (i : string) (children : list ref) (parent : option ref) : Node :=
  mkNode ELEMENT_NODE NS_HTML "DIV" "" [] ["blog-image-wrapper"] (Some i)
    [("margin-top", "1rem"); ("margin-right", "0"); ("margin-bottom", "1rem");
     ("margin-left", "0")] children parent.

Definition centered_image_node (src alt : string) (parent : option ref) : Node :=
  mkNode ELEMENT_NODE NS_HTML "IMG" "" [("src", src); ("alt", alt)]
    ["blog-image"; "editable"; "center"] None
    [("max-width", "100%"); ("width", "100%"); ("height", "auto");
     ("cursor", "pointer"); ("display", "block")] [] parent.

Definition paragraph_node (children : list ref) (parent : option ref) : Node :=
  mkNode ELEMENT_NODE NS_HTML "P" "" [] [] None [] children parent.

Definition br_node (parent : option ref) : Node :=
  mkNode ELEMENT_NODE NS_HTML "BR" "" [] [] None [] [] parent.

(** ** Copies

    [r'] in [d'] is a copy of [r] in [d] down to [fuel] levels: at
    every node the kind, namespace, name, data, attributes, classes,
    marker and style are the same and the children are copies, in order; the copy
    ends where the fuel does. *)
Definition same_content (n n' : Node) : Prop :=
  nodeType n' = nodeType n /\ namespaceURI n' = namespaceURI n
  /\ tagName n' = tagName n /\ data n' = data n
  /\ attributes n' = attributes n /\ classList n' = classList n
  /\ componentId n' = componentId n /\ style n' = style n.

Fixpoint copy_of (fuel : nat) (d d' : DOM) (r r' : ref) : Prop :=
  match node_at d r, node_at d' r' with
  | Some n, Some n' =>
      same_content n n'
      /\ match fuel with
         | 0 => childNodes n' = []
         | S f => Forall2 (copy_of f d d') (childNodes n) (childNodes n')
         end
  | _, _ => False
  end.

(** ** Sequences of registrations *)

(** The calls that give a component its id. *)
Inductive Registration :=
  | R_registerElement (el : ref)
  | R_registerImage (img : ref)
  | R_insertImage (src alt : string) (options : ImageProps) (selection : option Range)
  | R_duplicateComponent (i : string).

(** The id a registration produces, if it produces one, and the state
    it leaves. *)
Definition register (r : Registration) (st : State) : option string * State :=
  match r with
  | R_registerElement el =>
      (Some (fst (registerElement el st)), snd (registerElement el st))
  | R_registerImage img =>
      (Some (fst (registerImage img st)), snd (registerImage img st))
  | R_insertImage s a o sel =>
      (match fst (insertImage s a o sel st) with
       | Returns i => if String.eqb i "" then None else Some i
       | Throws => None
       end, snd (insertImage s a o sel st))
  | R_duplicateComponent i => duplicateComponent i st
  end.

Fixpoint register_all (rs : list Registration) (st : State) : list string * State :=
  match rs with
  | [] => ([], st)
  | r :: rest =>
      let '(o, st1) := register r st in
      let '(ids, st2) := register_all rest st1 in
      (match o with Some i => i :: ids | None => ids end, st2)
  end.

(** What the k-th call of [generateId] reads from the environment, as
    far as the id depends on it. *)
Definition draw (st : State) (k : nat) : N * string :=
  (Date_now st k, substring 2 9 (random36 st k)).

Definition id_of_draw (st : State) (k : nat) : string :=
  "cmp-" +:+ decimal (Date_now st k) +:+ "-" +:+ substring 2 9 (random36 st k).

(** Clock and random source are those of [st]. *)
Definition same_environment (st st' : State) : Prop :=
  Date_now st' = Date_now st /\ random36 st' = random36 st.

(** ** Notions used in the further properties *)

(** ** Registrations of unmarked nodes

    What [registerElement] and [registerImage] do to the state,
    whatever type and properties they record, and the states that a
    run of such registrations reaches when each of them is made on a
    node that carries no marker, as the scan and the watcher make them. *)

Definition stamped (el : ref) (t : ComponentType) (p : Props) (st : State) : State :=
  with_components (<[next_id st := mkComponent (next_id st) t p (Some el)]> (components st))
    (with_document (set_componentId (next_id st) el (document st))
       (with_draws (S (draws st)) st)).

Inductive registers : State -> State -> Prop :=
  | registers_none st : registers st st
  | registers_more st s el t p :
      registers st s ->
      is_Some (node_at (document s) el) ->
      has_marker (document s) el = false ->
      registers st (stamped el t p s).

(** A node without its marker, and two documents that differ in
    markers only. *)
Definition unmarked (n : Node) : Node := with_componentId None n.

Definition same_but_markers (d d' : DOM) : Prop :=
  next_ref d' = next_ref d
  /\ forall x, unmarked <$> node_at d' x = unmarked <$> node_at d x.

(** A selector that does not look at markers. *)
Definition ignores_markers (sel : DOM -> ref -> bool) : Prop :=
  forall d d', same_but_markers d d' -> forall x, sel d' x = sel d x.

(** Every element of the root that a selector of the list matches
    carries a marker; every editable image has a marked node at or
    above it. *)
Definition all_marked (sels : list (DOM -> ref -> bool)) (ed : ref) (s : State) : Prop :=
  forall sel el, sel ∈ sels -> el ∈ querySelectorAll sel (document s) ed ->
                 has_marker (document s) el = true.

Definition images_covered (ed : ref) (s : State) : Prop :=
  forall img, img ∈ querySelectorAll sel_editable_img (document s) ed ->
              is_Some (closest sel_marked (document s) img).

(** [d'] has the nodes of [d], and maybe more, and what [g] reads from
    a node of [d] is the same in [d']. *)
Definition extends {A : Type} (g : Node -> A) (d d' : DOM) : Prop :=
  next_ref d <= next_ref d'
  /\ forall x, x < next_ref d -> g <$> node_at d' x = g <$> node_at d x.

(** ** Pages and managers used as examples *)

(** [<body><div></div></body>]: the [<div>], node 1, is the editable root. *)
Definition empty_page : DOM :=
  mkDOM
    (<[1%nat := with_parentNode (Some 0%nat) (new_element "DIV")]>
       (<[0%nat := with_childNodes [1%nat] (new_element "BODY")]> ∅))
    2.

(** [<body><div><figure><img src="a.png"><figcaption>A</figcaption></figure></div></body>] *)
Definition figure_page : DOM :=
  mkDOM
    (<[5%nat := with_parentNode (Some 4%nat) (new_text "A")]>
       (<[4%nat := with_childNodes [5%nat]
                     (with_parentNode (Some 2%nat) (new_element "FIGCAPTION"))]>
          (<[3%nat := with_attributes [("src", "a.png")]
                        (with_parentNode (Some 2%nat) (new_element "IMG"))]>
             (<[2%nat := with_childNodes [3%nat; 4%nat]
                           (with_parentNode (Some 1%nat) (new_element "FIGURE"))]>
                (<[1%nat := with_childNodes [2%nat]
                              (with_parentNode (Some 0%nat) (new_element "DIV"))]>
                   (<[0%nat := with_childNodes [1%nat] (new_element "BODY")]> ∅))))))
    6.

(** A clock that advances by one millisecond per draw, and a random
    source that always prints the same digits. *)
Definition ticking_clock (k : nat) : N := (1700000000000 + N.of_nat k)%N.
Definition frozen_clock (k : nat) : N := 1700000000000%N.
Definition constant_random (k : nat) : string := "0.4fzyo82mvyr".

Definition empty_manager : State :=
  init 1 (mkInput "") (new_ComponentManager empty_page ticking_clock constant_random).

Definition figure_manager : State :=
  init 1 (mkInput "") (new_ComponentManager figure_page ticking_clock constant_random).

Definition center_options : ImageProps := layout_only L_center.

(** [figure_manager] with listener 7 subscribed. *)
Definition listening_manager : State := onChange 7 figure_manager.

(** The id [scanExistingComponents] gave to the figure of [figure_page]. *)
Definition figure_id : string := "cmp-1700000000000-4fzyo82mv".

(** [<body><div><img class="blog-image" src="p.png"></div></body>] *)
Definition photo_page : DOM :=
  mkDOM
    (<[2%nat := with_classList ["blog-image"]
                  (with_attributes [("src", "p.png")]
                     (with_parentNode (Some 1%nat) (new_element "IMG")))]>
       (<[1%nat := with_childNodes [2%nat]
                     (with_parentNode (Some 0%nat) (new_element "DIV"))]>
          (<[0%nat := with_childNodes [1%nat] (new_element "BODY")]> ∅)))
    3.

(** The scan registers the image, node 2, under the first id drawn. *)
Definition photo_manager : State :=
  init 1 (mkInput "") (new_ComponentManager photo_page ticking_clock constant_random).

Definition photo_id : string := "cmp-1700000000000-4fzyo82mv".

(** [<body><div><figure></figure><figure></figure></div></body>], and a
    manager whose clock and random source repeat themselves. *)
Definition two_figures_page : DOM :=
  mkDOM
    (<[3%nat := with_parentNode (Some 1%nat) (new_element "FIGURE")]>
       (<[2%nat := with_parentNode (Some 1%nat) (new_element "FIGURE")]>
          (<[1%nat := with_childNodes [2%nat; 3%nat]
                        (with_parentNode (Some 0%nat) (new_element "DIV"))]>
             (<[0%nat := with_childNodes [1%nat] (new_element "BODY")]> ∅))))
    4.

Definition repeating_manager : State :=
  new_ComponentManager two_figures_page frozen_clock constant_random.



(** [figure_page] under a manager whose clock and random source repeat
    themselves: the scan gives [figure_id] to the figure, and the next
    draw gives [figure_id] again. *)
Definition frozen_manager : State :=
  init 1 (mkInput "") (new_ComponentManager figure_page frozen_clock constant_random).

(** The figure of [figure_manager] has been taken out of the document
    by [figure.remove()], and the watcher has not been called yet. *)
Definition detached_manager : State :=
  with_document (remove 2 (document figure_manager)) figure_manager.

(** [<body><div><svg class="blog-figure"></svg></div></body>], and a
    manager bound to the [<div>] that has not scanned it. *)
Definition drawing_page : DOM :=
  mkDOM
    (<[2%nat := with_classList ["blog-figure"]
                  (with_parentNode (Some 1%nat) (new_element_NS NS_SVG "svg"))]>
       (<[1%nat := with_childNodes [2%nat]
                     (with_parentNode (Some 0%nat) (new_element "DIV"))]>
          (<[0%nat := with_childNodes [1%nat] (new_element "BODY")]> ∅)))
    3.

Definition drawing_manager : State :=
  with_editor (Some 1%nat) (new_ComponentManager drawing_page ticking_clock constant_random).

(** * Properties *)

(** ** Synchronisation (C1) *)

Section Sync.

Variables (st : State) (ed : ref) (inp : HTMLInputElement).
Hypothesis Hed : editor st = Some ed.
Hypothesis Hin : contentInput st = Some inp.

Lemma syncContent_bound (s : State) :
  editor s = Some ed -> is_Some (contentInput s) ->
  contentInput (syncContent s) = Some (mkInput (innerHTML (document s) ed))
  /\ document (syncContent s) = document s
  /\ editor (syncContent s) = Some ed.
Proof.
  intros He [x Hx]. unfold syncContent. rewrite He, Hx. simpl. auto.
Qed.

Lemma synced_after_sync (s : State) :
  editor s = Some ed -> is_Some (contentInput s) ->
  contentInput (syncContent s)
  = Some (mkInput (innerHTML (document (syncContent s)) ed)).
Proof.
  intros He Hi. destruct (syncContent_bound s He Hi) as (-> & -> & _). reflexivity.
Qed.

Lemma synced_after_notify (s : State) (i : string) (c : ComponentData) :
  editor s = Some ed -> is_Some (contentInput s) ->
  contentInput (notifyListeners i c (syncContent s))
  = Some (mkInput (innerHTML (document (notifyListeners i c (syncContent s))) ed)).
Proof.
  intros He Hi. simpl. apply synced_after_sync; assumption.
Qed.

End Sync.

(** C1. After every successful mutating operation of a manager whose
    editable root and output field are bound, the value of the output
    field is the serialised markup of the editable root. *)
Theorem sync_after_mutation (m : Mutation) (st : State) (ed : ref)
    (inp : HTMLInputElement) :
  editor st = Some ed ->
  contentInput st = Some inp ->
  fst (perform m st) = true ->
  contentInput (snd (perform m st))
  = Some (mkInput (innerHTML (document (snd (perform m st))) ed)).
Proof.
  intros Hed Hin Hok.
  assert (Hb : is_Some (contentInput st)) by (rewrite Hin; eauto).
  destruct m as [i u | i p | s a o sel | i | i]; simpl in *.
  - unfold updateComponent in *.
    destruct (components st !! i) as [c|]; [|discriminate].
    destruct (element c); [|discriminate].
    cbn [snd]. apply synced_after_notify; assumption.
  - unfold updateImage in *.
    destruct (components st !! i) as [c|]; [|discriminate].
    destruct (image_of c (document st)); [|discriminate].
    cbn [snd]. apply synced_after_notify; assumption.
  - unfold insertImage in *. rewrite Hed in *.
    unfold generateId, image_fragment, new_wrapper, new_image, empty_paragraph,
      createElement, alloc in *.
    cbn [fst snd] in *.
    match goal with |- context [match ?x with Some _ => _ | None => _ end] =>
      destruct x end; [|discriminate].
    cbn [snd]. apply synced_after_sync; assumption.
  - unfold removeComponent in *.
    destruct (components st !! i) as [c|]; [|discriminate].
    destruct (element c); [|discriminate].
    cbn [snd]. apply synced_after_sync; assumption.
  - unfold duplicateComponent in *.
    destruct (components st !! i) as [c|]; [|discriminate].
    destruct (element c) as [el|]; [|discriminate].
    destruct (cloneNode (document st) el) as [clone d1].
    unfold generateId. cbn [snd]. apply synced_after_sync; assumption.
Qed.

Lemma sync_after_mutation_witness :
  editor empty_manager = Some 1%nat
  /\ contentInput
       (snd (perform (M_insertImage "https://x/img.png" "cat" center_options None)
               empty_manager))
     = Some (mkInput
               (innerHTML
                  (document
                     (snd (perform
                             (M_insertImage "https://x/img.png" "cat" center_options None)
                             empty_manager))) 1%nat)).
Proof.
  split; [reflexivity|].
  apply (sync_after_mutation _ empty_manager 1%nat (mkInput ""));
    vm_compute; reflexivity.
Defined.

(** ** Failed updates (C3) *)

(** C3. For an id that is absent from the registry, [updateComponent]
    and [updateImage] return [false] (they are total functions: no
    exception) and leave the whole state as it was: document, stored
    records and output field. *)
Theorem update_unknown_id (i : string) (updates : Props) (p : ImageProps) (st : State) :
  components st !! i = None ->
  updateComponent i updates st = (false, st)
  /\ updateImage i p st = (false, st).
Proof.
  intros Hnone. unfold updateComponent, updateImage. rewrite Hnone. split; reflexivity.
Qed.

Lemma update_unknown_id_witness :
  components figure_manager !! "nonexistent-id" = None
  /\ updateComponent "nonexistent-id" {["caption" := VString "B"]} figure_manager
     = (false, figure_manager)
  /\ updateImage "nonexistent-id" center_options figure_manager = (false, figure_manager).
Proof.
  split; [vm_compute; reflexivity|].
  apply (update_unknown_id "nonexistent-id" {["caption" := VString "B"]}
           center_options figure_manager).
  vm_compute; reflexivity.
Defined.

(** ** Insertion without an editable root (C10) *)

(** C10. When no editable root is bound, [insertImage] returns the
    empty string, which is not the id [generateId] would give, and the
    state is untouched: no draw, no node created, registry and output
    field as before; an empty registry stays empty. *)
Theorem insertImage_without_editor (src alt : string) (options : ImageProps)
    (selection : option Range) (st : State) :
  editor st = None ->
  insertImage src alt options selection st = (Returns "", st)
  /\ "" <> next_id st
  /\ (components st = ∅ ->
      components (snd (insertImage src alt options selection st)) = ∅).
Proof.
  intros Hnone. unfold insertImage. rewrite Hnone. repeat split.
  - unfold next_id. simpl. discriminate.
  - intros H; exact H.
Qed.

Lemma insertImage_without_editor_witness :
  editor (new_ComponentManager empty_page ticking_clock constant_random) = None
  /\ insertImage "https://x/img.png" "cat" center_options None
       (new_ComponentManager empty_page ticking_clock constant_random)
     = (Returns "", new_ComponentManager empty_page ticking_clock constant_random).
Proof.
  split; [reflexivity|].
  apply (insertImage_without_editor "https://x/img.png" "cat" center_options None
           (new_ComponentManager empty_page ticking_clock constant_random)).
  reflexivity.
Defined.

(** ** Change notification (C6) *)

Lemma syncContent_fields (s : State) :
  components (syncContent s) = components s
  /\ document (syncContent s) = document s
  /\ calls (syncContent s) = calls s
  /\ changeListeners (syncContent s) = changeListeners s
  /\ draws (syncContent s) = draws s
  /\ editor (syncContent s) = editor s.
Proof.
  destruct s as [d c [e|] [i|] ls cs now rnd k]; repeat split; reflexivity.
Qed.

Lemma calls_syncContent (s : State) : calls (syncContent s) = calls s.
Proof. apply syncContent_fields. Qed.
Lemma components_syncContent (s : State) : components (syncContent s) = components s.
Proof. apply syncContent_fields. Qed.
Lemma changeListeners_syncContent (s : State) :
  changeListeners (syncContent s) = changeListeners s.
Proof. apply syncContent_fields. Qed.
Lemma document_syncContent (s : State) : document (syncContent s) = document s.
Proof. apply syncContent_fields. Qed.
Lemma draws_syncContent (s : State) : draws (syncContent s) = draws s.
Proof. apply syncContent_fields. Qed.

(** C6, the claim as stated fails: with listener 7 subscribed,
    [removeComponent] succeeds on the figure and calls no listener. *)
Lemma remove_notifies_nobody :
  ~ (forall (m : Mutation) (st : State) (l : nat),
        l ∈ changeListeners st ->
        fst (perform m st) = true ->
        exists i c, (l, i, c) ∈ calls (snd (perform m st))).
Proof.
  intros H.
  destruct (H (M_removeComponent figure_id) listening_manager 7%nat) as (i & c & Hin).
  - vm_compute. left.
  - vm_compute. reflexivity.
  - vm_compute in Hin. inversion Hin.
Qed.

(** C6, amended. A successful [updateComponent] or [updateImage] calls
    every registered listener, in order of registration, with the
    component id and the updated record; a successful [insertImage],
    [removeComponent] or [duplicateComponent] calls no listener; no
    mutation changes the set of listeners; [onChange] registers the
    listener and the function it returns removes that listener and no
    other. *)
Theorem listeners_called_on_updates (m : Mutation) (st : State) (l : nat) :
  fst (perform m st) = true ->
  calls (snd (perform m st))
  = calls st ++ expected_calls m (snd (perform m st)) (changeListeners st)
  /\ changeListeners (snd (perform m st)) = changeListeners st
  /\ (l ∈ changeListeners (onChange l st))
  /\ (l ∉ changeListeners (unsubscribe l st))
  /\ (forall l', l' <> l ->
        (l' ∈ changeListeners (unsubscribe l st)) <-> (l' ∈ changeListeners st)).
Proof.
  intros Hok. repeat split.
  - destruct m as [i u | i p | s a o sel | i | i]; simpl in *.
    + unfold updateComponent in *.
      destruct (components st !! i) as [c|]; [|discriminate].
      destruct (element c); [|discriminate].
      cbn [snd]. unfold notifyListeners at 1. simpl.
      rewrite components_syncContent, calls_syncContent, changeListeners_syncContent.
      simpl. rewrite lookup_insert_eq. reflexivity.
    + unfold updateImage in *.
      destruct (components st !! i) as [c|]; [|discriminate].
      match goal with |- context [match ?x with Some _ => _ | None => (false, st) end] =>
        destruct x end; [|discriminate].
      cbn [snd]. unfold notifyListeners at 1. simpl.
      rewrite components_syncContent, calls_syncContent, changeListeners_syncContent.
      simpl. rewrite lookup_insert_eq. reflexivity.
    + rewrite app_nil_r. unfold insertImage in *.
      destruct (editor st); [|reflexivity].
      unfold generateId, image_fragment, new_wrapper, new_image, empty_paragraph,
      createElement, alloc in *.
    cbn [fst snd] in *.
      match goal with |- context [match ?x with Some _ => _ | None => _ end] =>
        destruct x end; [|discriminate].
      cbn [snd]. rewrite calls_syncContent. reflexivity.
    + rewrite app_nil_r. unfold removeComponent in *.
      destruct (components st !! i) as [c|]; [|discriminate].
      destruct (element c); [|discriminate].
      cbn [snd]. rewrite calls_syncContent. reflexivity.
    + rewrite app_nil_r. unfold duplicateComponent in *.
      destruct (components st !! i) as [c|]; [|discriminate].
      destruct (element c) as [el|]; [|discriminate].
      destruct (cloneNode (document st) el) as [clone d1].
      unfold generateId. cbn [snd]. rewrite calls_syncContent. reflexivity.
  - destruct m as [i u | i p | s a o sel | i | i]; simpl in *.
    + unfold updateComponent in *.
      destruct (components st !! i) as [c|]; [|discriminate].
      destruct (element c); [|discriminate].
      cbn [snd]. simpl. rewrite changeListeners_syncContent. reflexivity.
    + unfold updateImage in *.
      destruct (components st !! i) as [c|]; [|discriminate].
      match goal with |- context [match ?x with Some _ => _ | None => (false, st) end] =>
        destruct x end; [|discriminate].
      cbn [snd]. simpl. rewrite changeListeners_syncContent. reflexivity.
    + unfold insertImage in *.
      destruct (editor st); [|reflexivity].
      unfold generateId, image_fragment, new_wrapper, new_image, empty_paragraph,
      createElement, alloc in *.
    cbn [fst snd] in *.
      match goal with |- context [match ?x with Some _ => _ | None => _ end] =>
        destruct x end; [|discriminate].
      cbn [snd]. rewrite changeListeners_syncContent. reflexivity.
    + unfold removeComponent in *.
      destruct (components st !! i) as [c|]; [|discriminate].
      destruct (element c); [|discriminate].
      cbn [snd]. rewrite changeListeners_syncContent. reflexivity.
    + unfold duplicateComponent in *.
      destruct (components st !! i) as [c|]; [|discriminate].
      destruct (element c) as [el|]; [|discriminate].
      destruct (cloneNode (document st) el) as [clone d1].
      unfold generateId. cbn [snd]. rewrite changeListeners_syncContent. reflexivity.
  - unfold onChange. case_bool_decide as Hl; [exact Hl|].
    simpl. apply elem_of_app. right. left.
  - unfold unsubscribe. simpl. intros Hl%list_elem_of_filter. tauto.
  - unfold unsubscribe. simpl. intros Hl%list_elem_of_filter. tauto.
  - unfold unsubscribe. simpl. intros Hl. apply list_elem_of_filter. tauto.
Qed.

Lemma listeners_called_on_updates_witness :
  fst (perform (M_updateComponent figure_id {["caption" := VString "B"]})
         listening_manager) = true
  /\ calls (snd (perform (M_updateComponent figure_id {["caption" := VString "B"]})
                   listening_manager))
     = calls listening_manager
       ++ expected_calls (M_updateComponent figure_id {["caption" := VString "B"]})
            (snd (perform (M_updateComponent figure_id {["caption" := VString "B"]})
                    listening_manager))
            (changeListeners listening_manager).
Proof.
  split; [vm_compute; reflexivity|].
  apply (listeners_called_on_updates
           (M_updateComponent figure_id {["caption" := VString "B"]})
           listening_manager 7%nat).
  vm_compute; reflexivity.
Defined.

(** ** Association lists *)

Lemma assoc_get_set (k k' v : string) (l : list (string * string)) :
  assoc_get k (assoc_set k' v l) = if String.eqb k k' then Some v else assoc_get k l.
Proof.
  induction l as [|[a b] l IH]; simpl.
  - destruct (String.eqb_spec k k'); reflexivity.
  - destruct (String.eqb_spec k' a) as [->|Hne]; simpl.
    + destruct (String.eqb_spec k a); reflexivity.
    + destruct (String.eqb_spec k a) as [->|Hka].
      * destruct (String.eqb_spec a k'); [congruence|reflexivity].
      * exact IH.
Qed.

Lemma assoc_get_remove (k k' : string) (l : list (string * string)) :
  assoc_get k (assoc_remove k' l) = if String.eqb k k' then None else assoc_get k l.
Proof.
  induction l as [|[a b] l IH]; simpl.
  - destruct (String.eqb k k'); reflexivity.
  - destruct (String.eqb_spec k' a) as [->|Hne]; simpl.
    + rewrite IH. destruct (String.eqb_spec k a); reflexivity.
    + destruct (String.eqb_spec k a) as [->|Hka].
      * destruct (String.eqb_spec a k'); [congruence|reflexivity].
      * exact IH.
Qed.

Lemma assoc_set_same (k v : string) (l : list (string * string)) :
  assoc_get k l = Some v -> assoc_set k v l = l.
Proof.
  induction l as [|[a b] l IH]; simpl; [discriminate|].
  destruct (String.eqb_spec k a) as [->|Hne].
  - intros [= ->]. reflexivity.
  - intros H. rewrite (IH H). reflexivity.
Qed.

Lemma assoc_remove_absent (k : string) (l : list (string * string)) :
  assoc_get k l = None -> assoc_remove k l = l.
Proof.
  induction l as [|[a b] l IH]; simpl; [reflexivity|].
  destruct (String.eqb_spec k a) as [->|Hne]; [discriminate|].
  intros H. rewrite (IH H). reflexivity.
Qed.

Ltac assoc_lookup :=
  repeat (rewrite ?assoc_get_set, ?assoc_get_remove; simpl); reflexivity.

Ltac assoc_settle :=
  repeat first
    [ rewrite assoc_set_same by assoc_lookup
    | rewrite assoc_remove_absent by assoc_lookup ].

Lemma style_patch_idempotent (l : Layout) (s : list (string * string)) :
  style_patch l (style_patch l s) = style_patch l s.
Proof.
  destruct l; unfold style_patch, set_margin, set_declaration; simpl;
    assoc_settle; reflexivity.
Qed.

(** ** Class lists *)

Lemma mem_string_true (x : string) (l : list string) :
  mem_string x l = true <-> x ∈ l.
Proof.
  unfold mem_string. rewrite existsb_exists. split.
  - intros (y & Hin & Heq). apply String.eqb_eq in Heq. subst.
    apply list_elem_of_In. exact Hin.
  - intros Hin. exists x. split; [apply list_elem_of_In; exact Hin|apply String.eqb_refl].
Qed.

Lemma mem_remove_tokens (t : string) (ts l : list string) :
  mem_string t ts = true -> mem_string t (remove_tokens ts l) = false.
Proof.
  intros Ht. destruct (mem_string t (remove_tokens ts l)) eqn:E; [|reflexivity].
  apply mem_string_true in E. unfold remove_tokens in E.
  apply list_elem_of_filter in E. destruct E as [E _]. congruence.
Qed.

Lemma remove_tokens_idempotent (ts l : list string) :
  remove_tokens ts (remove_tokens ts l) = remove_tokens ts l.
Proof.
  unfold remove_tokens. rewrite list_filter_filter.
  apply list_filter_iff. intros x. tauto.
Qed.

Lemma class_patch_idempotent (l : Layout) (cl : list string) :
  class_patch l (class_patch l cl) = class_patch l cl.
Proof.
  assert (Hadd : forall t, mem_string t layout_classes = true ->
            add_token t (remove_tokens layout_classes
                           (add_token t (remove_tokens layout_classes cl)))
            = add_token t (remove_tokens layout_classes cl)).
  { intros t Ht. unfold add_token at 2.
    rewrite (mem_remove_tokens t layout_classes cl Ht).
    unfold remove_tokens at 1. rewrite filter_app.
    fold (remove_tokens layout_classes (remove_tokens layout_classes cl)).
    rewrite remove_tokens_idempotent.
    rewrite filter_cons_False by (rewrite Ht; discriminate).
    rewrite filter_nil, app_nil_r.
    unfold add_token. rewrite (mem_remove_tokens t layout_classes cl Ht). reflexivity. }
  destruct l; unfold class_patch; simpl layout_name;
    try apply remove_tokens_idempotent; apply Hadd; reflexivity.
Qed.

Lemma layout_patch_idem (l : Layout) (n : Node) :
  layout_patch l (layout_patch l n) = layout_patch l n.
Proof.
  unfold layout_patch. destruct n; simpl.
  rewrite style_patch_idempotent, class_patch_idempotent. reflexivity.
Qed.

(** ** Node updates *)

Lemma update_node_twice (f g : Node -> Node) (r : ref) (d : DOM) :
  update_node f r (update_node g r d) = update_node (f ∘ g) r d.
Proof. unfold update_node. simpl. rewrite alter_alter_eq. reflexivity. Qed.

Lemma update_node_ext (f g : Node -> Node) (r : ref) (d : DOM) :
  (forall n, f n = g n) -> update_node f r d = update_node g r d.
Proof.
  intros H. unfold update_node. f_equal. apply alter_ext. intros; apply H.
Qed.

Lemma apply_layout_patch (l : Layout) (img : ref) (d : DOM) :
  apply_layout l img d = update_node (layout_patch l) img d.
Proof.
  destruct l; unfold apply_layout, classList_add, classList_remove, style_set;
    rewrite ?update_node_twice; apply update_node_ext; intros [];
    reflexivity.
Qed.

Lemma apply_layout_idempotent (l : Layout) (img : ref) (d : DOM) :
  apply_layout l img (apply_layout l img d) = apply_layout l img d.
Proof.
  rewrite !apply_layout_patch, update_node_twice.
  apply update_node_ext. intros n. apply layout_patch_idem.
Qed.

Lemma node_at_update (f : Node -> Node) (r x : ref) (d : DOM) :
  node_at (update_node f r d) x
  = if decide (r = x) then f <$> node_at d x else node_at d x.
Proof.
  unfold node_at, update_node. simpl. rewrite lookup_alter.
  destruct (decide (r = x)); subst; reflexivity.
Qed.

Lemma depth_bound_update (f : Node -> Node) (r : ref) (d : DOM) :
  depth_bound (update_node f r d) = depth_bound d.
Proof.
  unfold depth_bound, update_node. simpl.
  rewrite <- (size_dom (D:=gset nat) (alter f r (nodes d))).
  rewrite <- (size_dom (D:=gset nat) (nodes d)), dom_alter_L. reflexivity.
Qed.

Section KeepsShape.

Variables (f : Node -> Node) (r : ref) (d : DOM).
Hypothesis Hf : keeps_shape f.

Lemma children_of_update (x : ref) :
  children_of (update_node f r d) x = children_of d x.
Proof.
  unfold children_of. rewrite node_at_update.
  destruct (decide (r = x)); [|reflexivity].
  destruct (node_at d x) as [n|]; simpl; [apply Hf|reflexivity].
Qed.

Lemma parent_of_update (x : ref) :
  parent_of (update_node f r d) x = parent_of d x.
Proof.
  unfold parent_of. rewrite node_at_update.
  destruct (decide (r = x)); [|reflexivity].
  destruct (node_at d x) as [n|]; simpl; [apply Hf|reflexivity].
Qed.

Lemma tag_is_update (t : string) (x : ref) :
  tag_is t (update_node f r d) x = tag_is t d x.
Proof.
  unfold tag_is. rewrite node_at_update.
  destruct (decide (r = x)); [|reflexivity].
  destruct (node_at d x) as [n|]; simpl; [|reflexivity].
  destruct (Hf n) as (_ & -> & _). reflexivity.
Qed.

Lemma dataset_componentId_update (x : ref) :
  dataset_componentId (update_node f r d) x = dataset_componentId d x.
Proof.
  unfold dataset_componentId. rewrite node_at_update.
  destruct (decide (r = x)); [|reflexivity].
  destruct (node_at d x) as [n|]; simpl; [apply Hf|reflexivity].
Qed.

Lemma descendants_upto_update (fuel : nat) (x : ref) :
  descendants_upto fuel (update_node f r d) x = descendants_upto fuel d x.
Proof.
  revert x. induction fuel as [|k IH]; intros x; simpl; [reflexivity|].
  rewrite children_of_update.
  induction (children_of d x) as [|c cs IHc]; simpl; [reflexivity|].
  rewrite IH, IHc. reflexivity.
Qed.

Lemma descendants_update (x : ref) :
  descendants (update_node f r d) x = descendants d x.
Proof.
  unfold descendants. rewrite depth_bound_update. apply descendants_upto_update.
Qed.

Lemma querySelectorAll_tag_update (t : string) (x : ref) :
  querySelectorAll (sel_tag t) (update_node f r d) x
  = querySelectorAll (sel_tag t) d x.
Proof.
  unfold querySelectorAll. rewrite descendants_update.
  apply List.filter_ext. intros y. apply tag_is_update.
Qed.

Lemma querySelector_tag_update (t : string) (x : ref) :
  querySelector (sel_tag t) (update_node f r d) x = querySelector (sel_tag t) d x.
Proof. unfold querySelector. rewrite querySelectorAll_tag_update. reflexivity. Qed.

End KeepsShape.

Lemma layout_patch_keeps_shape (l : Layout) : keeps_shape (layout_patch l).
Proof. intros []. repeat split. Qed.

(** ** Idempotence of the layout patch (C5) *)

Lemma spread_idempotent (a b : Props) : spread (spread a b) b = spread a b.
Proof.
  unfold spread. rewrite (assoc_L (∪)), (idemp_L (∪)). reflexivity.
Qed.

Lemma syncContent_again (s0 s : State) :
  editor s = editor s0 ->
  document s = document s0 ->
  contentInput s = contentInput (syncContent s0) ->
  contentInput (syncContent s) = contentInput (syncContent s0).
Proof.
  destruct s0 as [d0 c0 [e0|] [i0|] ls0 cs0 now0 rnd0 k0];
    destruct s as [d c e inp ls cs now rnd k]; simpl;
    intros -> -> ->; reflexivity.
Qed.

(** C5. When [updateImage(id, {layout})] succeeds, the same call made
    again succeeds and changes nothing: the document (hence the classes
    and the inline styles of the patched element), the stored records
    and the output field are as the first call left them. *)
Theorem layout_update_idempotent (i : string) (l : Layout) (st : State) :
  fst (updateImage i (layout_only l) st) = true ->
  fst (updateImage i (layout_only l) (snd (updateImage i (layout_only l) st))) = true
  /\ document (snd (updateImage i (layout_only l) (snd (updateImage i (layout_only l) st))))
     = document (snd (updateImage i (layout_only l) st))
  /\ components (snd (updateImage i (layout_only l) (snd (updateImage i (layout_only l) st))))
     = components (snd (updateImage i (layout_only l) st))
  /\ contentInput (snd (updateImage i (layout_only l) (snd (updateImage i (layout_only l) st))))
     = contentInput (snd (updateImage i (layout_only l) st)).
Proof.
  intros Hok.
  destruct (components st !! i) as [c|] eqn:Hc;
    [|unfold updateImage in Hok; rewrite Hc in Hok; discriminate].
  destruct (image_of c (document st)) as [im|] eqn:Himg;
    [|unfold updateImage in Hok; rewrite Hc, Himg in Hok; discriminate].
  set (c' := with_props (spread (props c) (image_bag (layout_only l))) c).
  set (d1 := apply_layout l im (document st)).
  set (st1 := notifyListeners i c'
                (syncContent (with_components (<[i := c']> (components st))
                                (with_document d1 st)))).
  assert (E1 : updateImage i (layout_only l) st = (true, st1)).
  { unfold updateImage. rewrite Hc, Himg. reflexivity. }
  assert (Hc1 : components st1 !! i = Some c').
  { unfold st1. simpl. rewrite components_syncContent. simpl. apply lookup_insert_eq. }
  assert (Hd1 : document st1 = d1).
  { unfold st1. simpl. rewrite document_syncContent. reflexivity. }
  assert (Himg1 : image_of c' (document st1) = Some im).
  { rewrite Hd1. unfold d1. rewrite apply_layout_patch.
    unfold image_of in *. simpl.
    destruct (element c) as [el|]; simpl in *.
    - rewrite (querySelector_tag_update _ _ _ (layout_patch_keeps_shape l)).
      exact Himg.
    - exact Himg. }
  set (st2 := notifyListeners i (with_props (spread (props c') (image_bag (layout_only l))) c')
                (syncContent
                   (with_components
                      (<[i := with_props (spread (props c') (image_bag (layout_only l))) c']>
                         (components st1))
                      (with_document (apply_layout l im (document st1)) st1)))).
  assert (E2 : updateImage i (layout_only l) st1 = (true, st2)).
  { unfold updateImage. rewrite Hc1, Himg1. reflexivity. }
  rewrite E1. cbn [fst snd]. rewrite E2. cbn [fst snd].
  split; [reflexivity|].
  assert (Hdoc : document st2 = document st1).
  { unfold st2. simpl. rewrite document_syncContent. simpl.
    rewrite document_syncContent. simpl. unfold d1. apply apply_layout_idempotent. }
  split; [exact Hdoc|]. split.
  - unfold st2. simpl. rewrite !components_syncContent. simpl.
    rewrite ?components_syncContent. simpl.
    rewrite insert_insert_eq. unfold c'. simpl.
    rewrite spread_idempotent. reflexivity.
  - unfold st2, st1. simpl. apply syncContent_again; simpl.
    + pose proof (syncContent_fields
                    (with_components (<[i := c']> (components st)) (with_document d1 st)))
        as (_ & _ & _ & _ & _ & He).
      exact He.
    + rewrite document_syncContent. simpl. unfold d1. apply apply_layout_idempotent.
    + reflexivity.
Qed.

Lemma layout_update_idempotent_witness :
  fst (updateImage photo_id (layout_only L_center) photo_manager) = true
  /\ document (snd (updateImage photo_id (layout_only L_center)
                      (snd (updateImage photo_id (layout_only L_center) photo_manager))))
     = document (snd (updateImage photo_id (layout_only L_center) photo_manager)).
Proof.
  split; [vm_compute; reflexivity|].
  apply (layout_update_idempotent photo_id L_center photo_manager).
  vm_compute; reflexivity.
Defined.

(** ** Switching between layouts (C4) *)

(** C4, the code at the failing input. On the image of [photo_page],
    which has no inline style, [float-left] followed by [float-right]
    leaves the [margin-right] of the first layout in place, while
    [float-right] alone sets none; the class lists agree. The patch
    removes the classes of the previous layout but none of its margins. *)
Theorem layout_switch_keeps_margin :
  let twice :=
    snd (updateImage photo_id (layout_only L_float_right)
           (snd (updateImage photo_id (layout_only L_float_left) photo_manager))) in
  let once := snd (updateImage photo_id (layout_only L_float_right) photo_manager) in
  (fun c => image_of c (document photo_manager)) <$> components photo_manager !! photo_id
  = Some (Some 2%nat)
  /\ style <$> node_at (document photo_manager) 2 = Some []
  /\ style <$> node_at (document twice) 2
     = Some [("float", "right"); ("margin-right", "1rem");
             ("margin-bottom", "0.5rem"); ("margin-left", "1rem")]
  /\ style <$> node_at (document once) 2
     = Some [("float", "right"); ("margin-left", "1rem"); ("margin-bottom", "0.5rem")]
  /\ classList <$> node_at (document twice) 2 = classList <$> node_at (document once) 2.
Proof. vm_compute. repeat split. Qed.

(** ** Identity of components (C7) *)

Lemma uint_dash_inj (u v : Decimal.uint) (s t : string) :
  NilEmpty.string_of_uint u +:+ "-" +:+ s = NilEmpty.string_of_uint v +:+ "-" +:+ t ->
  u = v /\ s = t.
Proof.
  revert v. induction u as [|u IH|u IH|u IH|u IH|u IH|u IH|u IH|u IH|u IH|u IH];
    intros [|v|v|v|v|v|v|v|v|v|v]; simpl; intros H; try discriminate;
    try (injection H as H; destruct (IH v H) as [-> ->]; split; reflexivity).
  injection H as H. change (s = t) in H. subst t. split; reflexivity.
Qed.

(** The format of the ids is injective: two ids are equal only when
    timestamp and suffix are. *)
Lemma id_of_draw_inj (st : State) (j k : nat) :
  id_of_draw st j = id_of_draw st k -> draw st j = draw st k.
Proof.
  unfold id_of_draw, draw, decimal. simpl. intros H. injection H as H.
  apply uint_dash_inj in H as [Hu ->].
  apply DecimalN.Unsigned.to_uint_inj in Hu. rewrite Hu. reflexivity.
Qed.

(** A registration draws at most once, and an id it returns is the id
    of the draw it made. *)
Lemma register_draws (r : Registration) (st : State) :
  same_environment st (snd (register r st))
  /\ draws st <= draws (snd (register r st))
  /\ forall i, fst (register r st) = Some i ->
               i = id_of_draw st (draws st) /\ draws (snd (register r st)) = S (draws st).
Proof.
  destruct r as [el|img|s a o sel|i]; simpl.
  - unfold registerElement, generateId. simpl. split; [split; reflexivity|].
    split; [lia|]. intros i [= <-]. split; reflexivity.
  - unfold registerImage, generateId. simpl. split; [split; reflexivity|].
    split; [lia|]. intros i [= <-]. split; reflexivity.
  - unfold insertImage.
    destruct (editor st); [|simpl; split; [split; reflexivity|split; [lia|discriminate]]].
    unfold generateId. cbn [fst snd].
    destruct (image_fragment _ _ _ _ _ _) as [wrapper d5].
    match goal with |- context [match ?x with Some _ => _ | None => (Throws, _) end] =>
      destruct x as [d6|] end.
    + destruct (empty_paragraph d6) as [p d7]. cbn [fst snd].
      rewrite draws_syncContent.
      split; [unfold same_environment, syncContent; simpl;
              destruct (editor st), (contentInput st); split; reflexivity|].
      simpl. split; [lia|]. intros i [= <-]. split; reflexivity.
    + simpl. split; [split; reflexivity|]. split; [lia|discriminate].
  - unfold duplicateComponent.
    destruct (components st !! i) as [c|];
      [|simpl; split; [split; reflexivity|split; [lia|discriminate]]].
    destruct (element c) as [el|];
      [|simpl; split; [split; reflexivity|split; [lia|discriminate]]].
    destruct (cloneNode (document st) el) as [clone d1]. unfold generateId.
    cbn [fst snd]. rewrite draws_syncContent.
    split; [unfold same_environment, syncContent; simpl;
            destruct (editor st), (contentInput st); split; reflexivity|].
    simpl. split; [lia|]. intros j [= <-]. split; reflexivity.
Qed.

Lemma register_all_draws (rs : list Registration) :
  forall st i,
    i ∈ fst (register_all rs st) ->
    exists k, draws st <= k /\ k < draws (snd (register_all rs st))
              /\ i = id_of_draw st k.
Proof.
  induction rs as [|r rs IH]; intros st i; simpl.
  - intros H. inversion H.
  - destruct (register r st) as [o st1] eqn:Er.
    destruct (register_all rs st1) as [ids st2] eqn:Ea.
    pose proof (register_draws r st) as (Henv & Hle & Hid). rewrite Er in *.
    cbn [fst snd] in *.
    assert (Hrest : forall j, j ∈ ids ->
              exists k, draws st <= k /\ k < draws st2 /\ j = id_of_draw st k).
    { intros j Hj. specialize (IH st1 j). rewrite Ea in IH.
      destruct (IH Hj) as (k & H1 & H2 & H3). exists k.
      split; [lia|]. split; [exact H2|]. rewrite H3.
      unfold id_of_draw. destruct Henv as [-> ->]. reflexivity. }
    assert (Hmono : draws st1 <= draws st2).
    { clear -Ea. revert st1 ids st2 Ea. induction rs as [|r' rs' IH']; intros s1 ids s2 E.
      - simpl in E. injection E as <- <-. lia.
      - simpl in E. destruct (register r' s1) as [o' s1'] eqn:Er'.
        destruct (register_all rs' s1') as [ids' s2'] eqn:Ea'.
        injection E as <- <-.
        pose proof (register_draws r' s1) as (_ & Hle' & _). rewrite Er' in Hle'.
        specialize (IH' _ _ _ Ea'). simpl in *. lia. }
    destruct o as [i0|]; [|apply Hrest].
    intros Hi. apply elem_of_cons in Hi as [->|Hi]; [|apply Hrest, Hi].
    destruct (Hid i0 eq_refl) as [-> Hs]. exists (draws st).
    split; [lia|]. split; [lia|reflexivity].
Qed.

(** When no two draws of the environment agree, the ids of any
    sequence of registrations are pairwise distinct. *)
Lemma distinct_draws_distinct_ids (rs : list Registration) :
  forall st,
    (forall j k, draw st j = draw st k -> j = k) ->
    NoDup (fst (register_all rs st)).
Proof.
  induction rs as [|r rs IH]; intros st Hinj; simpl; [constructor|].
  destruct (register r st) as [o st1] eqn:Er.
  destruct (register_all rs st1) as [ids st2] eqn:Ea.
  pose proof (register_draws r st) as (Henv & Hle & Hid). rewrite Er in *.
  cbn [fst snd] in *.
  assert (Hids : NoDup ids).
  { specialize (IH st1). rewrite Ea in IH. apply IH.
    intros j k. unfold draw. destruct Henv as [-> ->]. apply Hinj. }
  destruct o as [i0|]; [|exact Hids].
  apply NoDup_cons. split; [|exact Hids].
  intros Hin. destruct (Hid i0 eq_refl) as [-> Hs].
  pose proof (register_all_draws rs st1 (id_of_draw st (draws st))) as H.
  rewrite Ea in H. destruct (H Hin) as (k & H1 & _ & H3).
  assert (id_of_draw st1 k = id_of_draw st k) as E
    by (unfold id_of_draw; destruct Henv as [-> ->]; reflexivity).
  rewrite E in H3. apply id_of_draw_inj, Hinj in H3. lia.
Qed.

(** C7, the code at the failing input. The editable root holds two
    figures and [init] scans them in the same millisecond while
    [Math.random()] gives the same number twice: the two calls of
    [registerElement] return the same id, the second record replaces
    the first in the registry, which ends with one entry for two
    draws, and both nodes carry the one marker. *)
Theorem colliding_draws_share_an_id :
  let first := registerElement 2 repeating_manager in
  let second := registerElement 3 (snd first) in
  let scanned := init 1 (mkInput "") repeating_manager in
  fst first = fst second
  /\ element <$> components (snd first) !! fst first = Some (Some 2%nat)
  /\ element <$> components (snd second) !! fst first = Some (Some 3%nat)
  /\ draws scanned = 2%nat
  /\ size (components scanned) = 1%nat
  /\ dataset_componentId (document scanned) 2 = Some (fst first)
  /\ dataset_componentId (document scanned) 3 = Some (fst first).
Proof. vm_compute. repeat split. Qed.

(** ** Markers and registry entries (C2) *)

Lemma dataset_componentId_keep (f : Node -> Node) (r x : ref) (d : DOM) :
  keeps_marker f ->
  dataset_componentId (update_node f r d) x = dataset_componentId d x.
Proof.
  intros Hf. unfold dataset_componentId. rewrite node_at_update.
  destruct (decide (r = x)); [|reflexivity].
  destruct (node_at d x) as [n|]; simpl; [apply Hf|reflexivity].
Qed.

Lemma node_exists_update (f : Node -> Node) (r x : ref) (d : DOM) :
  is_Some (node_at (update_node f r d) x) <-> is_Some (node_at d x).
Proof.
  rewrite node_at_update. destruct (decide (r = x)); [|reflexivity].
  destruct (node_at d x); simpl; split; intros [? ?]; eauto; discriminate.
Qed.

Lemma dataset_componentId_remove (r x : ref) (d : DOM) :
  dataset_componentId (remove r d) x = dataset_componentId d x.
Proof.
  unfold remove. destruct (parent_of d r); [|reflexivity].
  rewrite !dataset_componentId_keep; [reflexivity| |]; intros []; reflexivity.
Qed.


Lemma dataset_componentId_set (v : string) (r x : ref) (d : DOM) :
  dataset_componentId (set_componentId v r d) x
  = if decide (r = x)
    then match node_at d x with Some _ => Some v | None => None end
    else dataset_componentId d x.
Proof.
  unfold set_componentId, dataset_componentId. rewrite node_at_update.
  destruct (decide (r = x)); [|reflexivity].
  destruct (node_at d x); reflexivity.
Qed.

Lemma has_marker_false (d : DOM) (r : ref) (m : string) :
  has_marker d r = false -> dataset_componentId d r = Some m -> m = "".
Proof.
  unfold has_marker. intros H E. rewrite E in H.
  destruct (String.eqb_spec m ""); [assumption|discriminate].
Qed.

Lemma next_id_nonempty (st : State) : next_id st <> "".
Proof. unfold next_id. simpl. discriminate. Qed.

(** Registration of an unmarked node, whatever the record says besides
    its id and element. *)
Lemma register_marked (st : State) (el : ref) (t : ComponentType) (p : Props) :
  entries_marked st ->
  is_Some (node_at (document st) el) ->
  has_marker (document st) el = false ->
  entries_marked
    (with_components
       (<[next_id st := mkComponent (next_id st) t p (Some el)]> (components st))
       (with_document (set_componentId (next_id st) el (document st))
          (with_draws (S (draws st)) st))).
Proof.
  intros Hinv [n Hn] Hun i c. simpl.
  rewrite lookup_insert. case_decide as Hi.
  - intros [= <-]. subst i. split; [apply next_id_nonempty|]. split; [reflexivity|].
    exists el. split; [reflexivity|].
    rewrite dataset_componentId_set, decide_True by reflexivity.
    rewrite Hn. reflexivity.
  - intros Hc. destruct (Hinv i c Hc) as (Hne & Hid & e & He & Hm).
    split; [exact Hne|]. split; [exact Hid|]. exists e. split; [exact He|].
    rewrite dataset_componentId_set. case_decide as Hel; [|exact Hm].
    subst e. exfalso. apply Hne. eapply has_marker_false; eassumption.
Qed.

Lemma registerElement_marked (st : State) (el : ref) :
  entries_marked st ->
  is_Some (node_at (document st) el) ->
  has_marker (document st) el = false ->
  entries_marked (snd (registerElement el st)).
Proof. intros. unfold registerElement, generateId. simpl. apply register_marked; assumption. Qed.

Lemma registerImage_marked (st : State) (img : ref) :
  entries_marked st ->
  is_Some (node_at (document st) img) ->
  has_marker (document st) img = false ->
  entries_marked (snd (registerImage img st)).
Proof. intros. unfold registerImage, generateId. simpl. apply register_marked; assumption. Qed.

Lemma registerElement_exists (st : State) (el x : ref) :
  is_Some (node_at (document st) x) ->
  is_Some (node_at (document (snd (registerElement el st))) x).
Proof.
  intros H. unfold registerElement, generateId, set_componentId. simpl.
  apply node_exists_update. exact H.
Qed.

Lemma registerImage_exists (st : State) (img x : ref) :
  is_Some (node_at (document st) x) ->
  is_Some (node_at (document (snd (registerImage img st))) x).
Proof.
  intros H. unfold registerImage, generateId, set_componentId. simpl.
  apply node_exists_update. exact H.
Qed.

(** A loop that registers some of the nodes of a list keeps the invariant. *)
Lemma guarded_loop_marked (body : State -> ref -> State) (l : list ref) :
  (forall s r, entries_marked s -> is_Some (node_at (document s) r) ->
               entries_marked (body s r)) ->
  (forall s r x, is_Some (node_at (document s) x) ->
                 is_Some (node_at (document (body s r)) x)) ->
  forall s,
    entries_marked s ->
    (forall r, r ∈ l -> is_Some (node_at (document s) r)) ->
    entries_marked (fold_left body l s)
    /\ (forall x, is_Some (node_at (document s) x) ->
                  is_Some (node_at (document (fold_left body l s)) x)).
Proof.
  intros Hstep Hex. induction l as [|r l IH]; intros s Hs Hl; simpl.
  - split; [exact Hs|auto].
  - destruct (IH (body s r)) as [H1 H2].
    + apply Hstep; [exact Hs|]. apply Hl. left.
    + intros y Hy. apply Hex. apply Hl. right. exact Hy.
    + split; [exact H1|]. intros x Hx. apply H2, Hex, Hx.
Qed.

Lemma selected_exists (sel : DOM -> ref -> bool) (d : DOM) (root r : ref) :
  (forall x, sel d x = true -> is_Some (node_at d x)) ->
  r ∈ querySelectorAll sel d root -> is_Some (node_at d r).
Proof.
  intros Hsel Hin. apply Hsel.
  unfold querySelectorAll in Hin. apply list_elem_of_In, List.filter_In in Hin.
  apply Hin.
Qed.

Lemma classList_contains_exists (c : string) (d : DOM) (x : ref) :
  classList_contains c d x = true -> is_Some (node_at d x).
Proof. unfold classList_contains. destruct (node_at d x); [eauto|discriminate]. Qed.

Lemma tag_is_exists (t : string) (d : DOM) (x : ref) :
  tag_is t d x = true -> is_Some (node_at d x).
Proof. unfold tag_is. destruct (node_at d x); [eauto|discriminate]. Qed.

Lemma instanceof_HTMLElement_exists (d : DOM) (x : ref) :
  instanceof_HTMLElement d x = true -> is_Some (node_at d x).
Proof. unfold instanceof_HTMLElement. destruct (node_at d x); [eauto|discriminate]. Qed.

Lemma component_selector_exists (sel : DOM -> ref -> bool) (d : DOM) (x : ref) :
  sel ∈ component_selectors -> sel d x = true -> is_Some (node_at d x).
Proof.
  unfold component_selectors. intros Hin.
  repeat (apply elem_of_cons in Hin; destruct Hin as [->|Hin];
          [first [apply classList_contains_exists
                 | unfold sel_plain_figure; intros [H _]%andb_prop;
                   apply tag_is_exists in H; exact H]|]).
  inversion Hin.
Qed.

Lemma scanExistingComponents_marked (st : State) :
  entries_marked st -> entries_marked (scanExistingComponents st).
Proof.
  intros Hinv. unfold scanExistingComponents.
  destruct (editor st) as [ed|]; [|exact Hinv].
  assert (Hsel : forall sels s,
             (forall sel, sel ∈ sels -> sel ∈ component_selectors) ->
             entries_marked s ->
             entries_marked
               (fold_left
                  (fun s0 sel =>
                     fold_left
                       (fun s' el =>
                          if has_marker (document s') el then s'
                          else snd (registerElement el s'))
                       (querySelectorAll sel (document s0) ed) s0) sels s)).
  { induction sels as [|sel sels IH]; intros s Hsub Hs; simpl; [exact Hs|].
    apply IH; [intros; apply Hsub; right; assumption|].
    apply guarded_loop_marked; [| |exact Hs|].
    - intros s0 r H0 Hr. destruct (has_marker (document s0) r) eqn:E; [exact H0|].
      apply registerElement_marked; assumption.
    - intros s0 r x Hx. destruct (has_marker (document s0) r); [exact Hx|].
      apply registerElement_exists, Hx.
    - intros r Hr. eapply selected_exists; [|exact Hr].
      intros x. apply component_selector_exists, Hsub. left. }
  apply guarded_loop_marked.
  - intros s0 r H0 Hr. destruct (closest sel_marked (document s0) r); [exact H0|].
    destruct (has_marker (document s0) r) eqn:E; [exact H0|].
    apply registerImage_marked; assumption.
  - intros s0 r x Hx. destruct (closest sel_marked (document s0) r); [exact Hx|].
    destruct (has_marker (document s0) r); [exact Hx|].
    apply registerImage_exists, Hx.
  - apply Hsel; [auto|exact Hinv].
  - intros r Hr. eapply selected_exists; [|exact Hr].
    intros x [H _]%andb_prop. apply tag_is_exists in H. exact H.
Qed.












(** ** Duplication (C9) *)

Lemma wf_dom_b_spec (d : DOM) : wf_dom_b d = true -> wf_dom d.
Proof.
  unfold wf_dom_b. rewrite forallb_forall. intros H k n Hk.
  specialize (H (k, n)). simpl in H.
  assert (Hin : In (k, n) (map_to_list (nodes d))).
  { apply list_elem_of_In, elem_of_map_to_list. exact Hk. }
  specialize (H Hin). unfold wf_node_b in H.
  apply andb_prop in H as [H H4]. apply andb_prop in H as [H H3].
  apply andb_prop in H as [H1 H2].
  repeat split.
  - apply Nat.ltb_lt. exact H1.
  - rewrite forallb_forall in H2. apply list_elem_of_In, H2 in H.
    apply andb_prop in H as [H _]. apply Nat.ltb_lt. exact H.
  - rewrite forallb_forall in H2. apply list_elem_of_In, H2 in H.
    apply andb_prop in H as [_ H]. apply bool_decide_eq_true in H. exact H.
  - apply bool_decide_eq_true in H3. exact H3.
  - rewrite H in H4. apply andb_prop in H4 as [H4 _].
    apply negb_true_iff, Nat.eqb_neq in H4. exact H4.
  - rewrite H in H4. apply andb_prop in H4 as [_ H4].
    apply bool_decide_eq_true in H4. exact H4.
Qed.

Lemma region_update (base : ref) (f : Node -> Node) (r : ref) (d : DOM) :
  (forall n k, k ∈ childNodes (f n) -> k ∈ childNodes n \/ base <= k) ->
  region base d -> region base (update_node f r d).
Proof.
  intros Hf (H1 & H2 & H3). split; [exact H1|]. split.
  - intros x Hx. unfold update_node. simpl. rewrite lookup_alter.
    case_decide; [subst; rewrite (H2 _ Hx); reflexivity|apply H2, Hx].
  - intros x n Hx. unfold update_node. simpl. rewrite lookup_alter.
    case_decide as E.
    + subst x. destruct (nodes d !! r) as [n0|] eqn:E0; [|discriminate].
      simpl. intros [= <-] k Hk. destruct (Hf n0 k Hk) as [Hk'|Hk']; [|exact Hk'].
      eapply H3; eassumption.
    + intros Hn. eapply H3; eassumption.
Qed.

Lemma agree_below_update (base : ref) (f : Node -> Node) (r : ref) (d0 d : DOM) :
  base <= r -> agree_below base d0 d -> agree_below base d0 (update_node f r d).
Proof.
  intros Hr H x Hx. unfold update_node. simpl.
  rewrite lookup_alter_ne by lia. apply H, Hx.
Qed.

Lemma region_alloc (base : ref) (n : Node) (d : DOM) :
  (forall k, k ∈ childNodes n -> base <= k) ->
  region base d -> region base (snd (alloc n d)).
Proof.
  intros Hn (H1 & H2 & H3). unfold alloc, region. simpl. split; [lia|]. split.
  - intros x Hx. rewrite lookup_insert_ne by lia. apply H2. lia.
  - intros x m Hx. rewrite lookup_insert. case_decide.
    + intros [= <-]. exact Hn.
    + intros Hm. eapply H3; eassumption.
Qed.

Lemma agree_below_alloc (base : ref) (n : Node) (d0 d : DOM) :
  base <= next_ref d -> agree_below base d0 d -> agree_below base d0 (snd (alloc n d)).
Proof.
  intros Hb H x Hx. unfold alloc. simpl. rewrite lookup_insert_ne by lia. apply H, Hx.
Qed.

Lemma agree_below_refl (base : ref) (d : DOM) : agree_below base d d.
Proof. intros x _. reflexivity. Qed.

Lemma agree_below_trans (base : ref) (d1 d2 d3 : DOM) :
  agree_below base d1 d2 -> agree_below base d2 d3 -> agree_below base d1 d3.
Proof. intros H12 H23 x Hx. rewrite (H23 x Hx). apply H12, Hx. Qed.

Lemma agree_below_le (b b' : ref) (d d' : DOM) :
  b <= b' -> agree_below b' d d' -> agree_below b d d'.
Proof. intros Hle H x Hx. apply H. lia. Qed.

Lemma region_combine (b b' : ref) (d1 d2 : DOM) :
  b <= b' -> region b d1 -> region b' d2 -> agree_below b' d1 d2 -> region b d2.
Proof.
  intros Hle (A1 & A2 & A3) (B1 & B2 & B3) Hag. split; [lia|]. split; [exact B2|].
  intros x n Hx Hn k Hk. destruct (Nat.lt_ge_cases x b') as [Hlt|Hge].
  - rewrite (Hag x Hlt) in Hn. eapply A3; eassumption.
  - assert (b' <= k) by (eapply B3; eassumption). lia.
Qed.

Lemma Forall2_impl_in {A B : Type} (P Q : A -> B -> Prop) (l : list A) (l' : list B) :
  Forall2 P l l' ->
  (forall x y, y ∈ l' -> P x y -> Q x y) ->
  Forall2 Q l l'.
Proof.
  induction 1 as [|x y l l' Hxy _ IH]; intros H; constructor.
  - apply H; [left|exact Hxy].
  - apply IH. intros a c Hc. apply H. right. exact Hc.
Qed.

(** A copy is not affected by later writes above the next reference of
    the document it was made in. *)
Lemma copy_of_later (d0 dd dd' : DOM) (f : nat) :
  (forall x, next_ref dd <= x -> nodes dd !! x = None) ->
  agree_below (next_ref dd) dd dd' ->
  forall r r', copy_of f d0 dd r r' -> copy_of f d0 dd' r r'.
Proof.
  intros Hbeyond Hag.
  assert (Hsame : forall r' n', node_at dd r' = Some n' -> node_at dd' r' = Some n').
  { intros r' n' E. unfold node_at in *.
    destruct (Nat.lt_ge_cases r' (next_ref dd)) as [Hlt|Hge].
    - rewrite (Hag r' Hlt). exact E.
    - rewrite (Hbeyond r' Hge) in E. discriminate. }
  induction f as [|f IH]; intros r r' H; cbn [copy_of] in *;
    destruct (node_at d0 r) as [n|]; try (destruct H; fail);
    destruct (node_at dd r') as [n'|] eqn:E; try (destruct H; fail);
    rewrite (Hsame r' n' E); destruct H as [Hc Hch]; (split; [exact Hc|]).
  - exact Hch.
  - eapply Forall2_impl; [exact Hch|]. intros x y. apply IH.
Qed.

(** Nor by writes below a base under which it does not reach. *)
Lemma copy_of_above (d0 dd dd' : DOM) (b : ref) (f : nat) :
  region b dd ->
  (forall x, b <= x -> nodes dd' !! x = nodes dd !! x) ->
  forall r r', b <= r' -> copy_of f d0 dd r r' -> copy_of f d0 dd' r r'.
Proof.
  intros Hreg Hsame.
  induction f as [|f IH]; intros r r' Hr' H; cbn [copy_of] in *;
    destruct (node_at d0 r) as [n|]; try (destruct H; fail);
    unfold node_at in H |- *; rewrite (Hsame r' Hr');
    destruct (nodes dd !! r') as [n'|] eqn:E; try (destruct H; fail);
    destruct H as [Hc Hch]; (split; [exact Hc|]).
  - exact Hch.
  - eapply Forall2_impl_in; [exact Hch|]. intros x y Hy. apply IH.
    destruct Hreg as (_ & _ & H3). eapply H3; eassumption.
Qed.

Section Clone.

Variable d0 : DOM.
Hypothesis Hwf : wf_dom d0.

Lemma child_exists (r : ref) (n : Node) (k : ref) :
  nodes d0 !! r = Some n -> k ∈ childNodes n -> is_Some (nodes d0 !! k).
Proof.
  intros Hn Hk. destruct (Hwf r n Hn) as (_ & Hc & _).
  destruct (Hc k Hk) as [_ Hp]. unfold parent_of, node_at in Hp.
  destruct (nodes d0 !! k); [eauto|discriminate].
Qed.

Lemma cloneNode_upto_spec (fuel : nat) :
  forall (b : ref) (d : DOM) (r : ref) (n : Node) (parent : option ref)
         (c : ref) (d' : DOM),
    next_ref d0 <= b ->
    region b d ->
    agree_below (next_ref d0) d0 d ->
    nodes d0 !! r = Some n ->
    cloneNode_upto fuel d r parent = (c, d') ->
    c = next_ref d
    /\ next_ref d < next_ref d'
    /\ region b d'
    /\ region (S c) d'
    /\ agree_below (next_ref d) d d'
    /\ (exists kids,
          nodes d' !! c = Some (with_childNodes kids (with_parentNode parent n))
          /\ forall k, k ∈ kids -> S c <= k)
    /\ copy_of fuel d0 d' r c.
Proof.
  induction fuel as [|f IH]; intros b d r n parent c d' Hb Hreg Hagree Hn Hclone.
  - simpl in Hclone. unfold node_at in Hclone.
    assert (Hr : r < next_ref d0) by (destruct (Hwf r n Hn) as [Hr _]; exact Hr).
    rewrite (Hagree r Hr), Hn in Hclone. unfold alloc in Hclone.
    injection Hclone as <- <-. simpl.
    split; [reflexivity|]. split; [lia|]. split.
    { apply (region_alloc b _ d); [|exact Hreg]. simpl. intros k Hk. inversion Hk. }
    split.
    { split; [simpl; lia|]. split.
      - intros x Hx. simpl in *. rewrite lookup_insert_ne by lia. apply Hreg. lia.
      - intros x m Hx. simpl. rewrite lookup_insert_ne by lia. intros Hm.
        destruct Hreg as (_ & H2 & _). rewrite H2 in Hm by lia. discriminate. }
    split.
    { intros x Hx. simpl. rewrite lookup_insert_ne by lia. reflexivity. }
    split.
    { exists []. rewrite lookup_insert_eq.
      split; [destruct n; reflexivity|]. intros k Hk. inversion Hk. }
    cbn [copy_of]. unfold node_at. simpl. rewrite Hn, lookup_insert_eq.
    split; [destruct n; repeat split|reflexivity].
  - simpl in Hclone. unfold node_at in Hclone.
    assert (Hr : r < next_ref d0) by (destruct (Hwf r n Hn) as [Hr _]; exact Hr).
    rewrite (Hagree r Hr), Hn in Hclone.
    set (node0 := with_parentNode parent (with_childNodes [] n)) in *.
    set (d1 := snd (alloc node0 d)).
    set (b' := S (next_ref d)).
    assert (Hb' : next_ref d0 <= b') by (destruct Hreg as [H _]; unfold b'; lia).
    assert (Hreg1 : region b d1).
    { apply region_alloc; [|exact Hreg]. simpl. intros k Hk. inversion Hk. }
    assert (Hreg1' : region b' d1).
    { split; [unfold d1, b'; simpl; lia|]. split.
      - intros x Hx. apply Hreg1. exact Hx.
      - intros x m Hx Hm. destruct Hreg1 as (_ & H2 & _).
        rewrite H2 in Hm by (unfold d1, b' in *; simpl in *; lia). discriminate. }
    assert (Hagree1 : agree_below (next_ref d0) d0 d1).
    { apply agree_below_alloc; [destruct Hreg; lia|exact Hagree]. }
    change (alloc node0 d) with (next_ref d, d1) in Hclone. cbv iota beta in Hclone.
    set (step := fun (acc : list ref * DOM) (k : ref) =>
                   let '(k', dd) := cloneNode_upto f (snd acc) k (Some (next_ref d)) in
                   (fst acc ++ [k'], dd)) in *.
    assert (Hloop : forall cs,
               (forall k, k ∈ cs -> is_Some (nodes d0 !! k)) ->
               forall done kids dd,
                 region b' dd ->
                 agree_below (next_ref d0) d0 dd ->
                 (forall k, k ∈ kids -> b' <= k) ->
                 Forall2 (copy_of f d0 dd) done kids ->
                 region b' (snd (fold_left step cs (kids, dd)))
                 /\ agree_below (next_ref dd) dd (snd (fold_left step cs (kids, dd)))
                 /\ next_ref dd <= next_ref (snd (fold_left step cs (kids, dd)))
                 /\ (forall k, k ∈ fst (fold_left step cs (kids, dd)) -> b' <= k)
                 /\ Forall2 (copy_of f d0 (snd (fold_left step cs (kids, dd))))
                      (done ++ cs) (fst (fold_left step cs (kids, dd)))).
    { induction cs as [|k cs IHcs]; intros Hcs done kids dd Hdd Hadd Hkids Hcopies; simpl.
      - split; [exact Hdd|]. split; [apply agree_below_refl|]. split; [lia|].
        split; [exact Hkids|]. rewrite app_nil_r. exact Hcopies.
      - destruct (cloneNode_upto f dd k (Some (next_ref d))) as [k' dd'] eqn:Ek.
        assert (Estep : step (kids, dd) k = (kids ++ [k'], dd')).
        { unfold step. cbn [fst snd]. rewrite Ek. reflexivity. }
        rewrite Estep.
        destruct (Hcs k) as [nk Hnk]; [left|].
        destruct (IH b' dd k nk (Some (next_ref d)) k' dd' Hb' Hdd Hadd Hnk Ek)
          as (Hk' & Hlt & Hreg' & _ & Hst & _ & Hcopy).
        destruct (IHcs (fun y Hy => Hcs y (list_elem_of_further _ _ _ Hy))
                    (done ++ [k]) (kids ++ [k']) dd') as (G1 & G2 & G3 & G4 & G5).
        + exact Hreg'.
        + eapply agree_below_trans; [exact Hadd|].
          eapply agree_below_le; [|exact Hst]. destruct Hdd; lia.
        + intros y Hy. apply elem_of_app in Hy as [Hy|Hy]; [apply Hkids, Hy|].
          apply list_elem_of_singleton in Hy. subst y k'. apply Hdd.
        + apply Forall2_app; [|constructor; [exact Hcopy|constructor]].
          eapply Forall2_impl; [exact Hcopies|]. intros x y.
          apply copy_of_later; [apply Hdd|exact Hst].
        + split; [exact G1|]. split.
          * eapply agree_below_trans; [exact Hst|].
            eapply agree_below_le; [|exact G2]. lia.
          * split; [lia|]. split; [exact G4|].
            rewrite <- app_assoc in G5. exact G5. }
    destruct (Hloop (childNodes n) (fun k Hk => child_exists r n k Hn Hk)
                [] [] d1 Hreg1' Hagree1) as (L1 & L2 & L3 & L4 & L5).
    { intros k Hk. inversion Hk. }
    { constructor. }
    change (mkDOM (<[next_ref d := node0]> (nodes d)) (S (next_ref d))) with d1 in Hclone.
    destruct (fold_left step (childNodes n) ([], d1)) as [kids d2] eqn:Efold.
    simpl in L1, L2, L3, L4, L5.
    injection Hclone as <- <-.
    assert (Hn1 : next_ref d1 = b') by reflexivity.
    assert (Hreg2 : region b d2).
    { apply (region_combine b b' d1 d2);
        [destruct Hreg; unfold b'; lia|exact Hreg1|exact L1|exact L2]. }
    assert (Hnode : nodes d2 !! next_ref d = Some node0).
    { rewrite (L2 (next_ref d)) by lia.
      unfold d1. simpl. apply lookup_insert_eq. }
    split; [reflexivity|]. split; [simpl; unfold b' in *; lia|]. split.
    { apply region_update; [|exact Hreg2]. simpl. intros n0 k Hk. right.
      assert (b' <= k) by apply L4, Hk. destruct Hreg; unfold b' in *; lia. }
    split.
    { apply region_update; [|exact L1]. simpl. intros n0 k Hk. right. apply L4, Hk. }
    split.
    { apply agree_below_update; [lia|].
      eapply agree_below_trans; [|eapply agree_below_le; [|exact L2]; lia].
      intros x Hx. unfold d1. simpl. rewrite lookup_insert_ne by lia. reflexivity. }
    split.
    { exists kids. unfold update_node. simpl. rewrite lookup_alter_eq, Hnode.
      split; [destruct n; reflexivity|exact L4]. }
    cbn [copy_of]. unfold node_at at 1 2. rewrite Hn.
    unfold update_node at 1. cbn [nodes]. rewrite lookup_alter_eq, Hnode.
    cbn [fmap option_fmap option_map]. split; [destruct n; repeat split|].
    cbn [childNodes with_childNodes].
    eapply Forall2_impl_in; [exact L5|]. intros x y Hy.
    apply (copy_of_above d0 d2 _ b'); [exact L1| |apply L4, Hy].
    intros z Hz. unfold update_node. simpl. rewrite lookup_alter_ne by (unfold b' in Hz; lia).
    reflexivity.
Qed.

End Clone.

(** *** Writes that stay inside a region *)

Section Inside.

Variables (base : ref) (d0 : DOM).

Local Abbreviation within := (inside base d0).

Lemma inside_update (f : Node -> Node) (r : ref) (d : DOM) :
  base <= r ->
  (forall n k, k ∈ childNodes (f n) -> k ∈ childNodes n \/ base <= k) ->
  within d -> within (update_node f r d).
Proof.
  intros Hr Hf [H1 H2]. split;
    [apply region_update; assumption|apply agree_below_update; assumption].
Qed.

Lemma inside_alloc (n : Node) (d : DOM) :
  (forall k, k ∈ childNodes n -> base <= k) ->
  within d -> within (snd (alloc n d)).
Proof.
  intros Hn [H1 H2]. split;
    [apply region_alloc; assumption|apply agree_below_alloc; [apply H1|assumption]].
Qed.

Lemma children_inside (d : DOM) (r k : ref) :
  region base d -> base <= r -> k ∈ children_of d r -> base <= k.
Proof.
  intros (_ & _ & H3) Hr. unfold children_of, node_at.
  destruct (nodes d !! r) as [n|] eqn:E; [|intros Hk; inversion Hk].
  apply (H3 r n Hr E).
Qed.

Lemma descendants_inside (fuel : nat) (d : DOM) :
  region base d ->
  forall r x, base <= r -> x ∈ descendants_upto fuel d r -> base <= x.
Proof.
  intros Hreg. induction fuel as [|f IH]; intros r x Hr; simpl.
  - intros Hx. inversion Hx.
  - intros Hx. apply list_elem_of_In, in_flat_map in Hx as (c & Hc & Hx).
    apply list_elem_of_In in Hc.
    pose proof (children_inside d r c Hreg Hr Hc) as Hcb.
    destruct Hx as [<-|Hx]; [exact Hcb|].
    apply (IH c x Hcb). apply list_elem_of_In. exact Hx.
Qed.

Lemma querySelector_inside (sel : DOM -> ref -> bool) (d : DOM) (r x : ref) :
  region base d -> base <= r -> querySelector sel d r = Some x -> base <= x.
Proof.
  intros Hreg Hr Hq. unfold querySelector, querySelectorAll in Hq.
  apply head_Some_elem_of, list_elem_of_In, List.filter_In in Hq as [Hq _].
  eapply descendants_inside; [exact Hreg|exact Hr|apply list_elem_of_In, Hq].
Qed.

Lemma inside_setAttribute (k v : string) (r : ref) (d : DOM) :
  base <= r -> within d -> within (setAttribute k v r d).
Proof.
  intros Hr. apply inside_update; [exact Hr|]. intros [] y Hy. left. exact Hy.
Qed.

Lemma inside_set_src (v : string) (r : ref) (d : DOM) :
  base <= r -> within d -> within (set_src v r d).
Proof.
  intros Hr H. unfold set_src. destruct (tag_is "IMG" d r); [|exact H].
  apply inside_setAttribute; assumption.
Qed.

Lemma inside_set_alt (v : string) (r : ref) (d : DOM) :
  base <= r -> within d -> within (set_alt v r d).
Proof.
  intros Hr H. unfold set_alt. destruct (tag_is "IMG" d r); [|exact H].
  apply inside_setAttribute; assumption.
Qed.

Lemma inside_orphans (l : list ref) (d : DOM) :
  (forall k, k ∈ l -> base <= k) ->
  within d ->
  within (fold_right (fun c acc => update_node (with_parentNode None) c acc) d l).
Proof.
  induction l as [|c l IH]; intros Hl H; simpl; [exact H|].
  apply inside_update.
  - apply Hl. left.
  - intros [] y Hy. left. exact Hy.
  - apply IH; [|exact H]. intros k Hk. apply Hl. right. exact Hk.
Qed.

Lemma inside_set_textContent (v : string) (r : ref) (d : DOM) :
  base <= r -> within d -> within (set_textContent v r d).
Proof.
  intros Hr H. unfold set_textContent.
  assert (H1 : within (orphan_children r d)).
  { unfold orphan_children. apply inside_update; [exact Hr| |].
    - simpl. intros n y Hy. inversion Hy.
    - apply inside_orphans; [|exact H].
      intros k Hk. eapply children_inside; [apply H|exact Hr|exact Hk]. }
  destruct (String.eqb v ""); [exact H1|].
  unfold alloc. set (d1 := orphan_children r d) in *.
  apply inside_update; [exact Hr| |].
  - simpl. intros n y Hy. apply list_elem_of_singleton in Hy. subst y.
    right. apply H1.
  - apply (inside_alloc _ d1); [|exact H1]. simpl. intros k Hk. inversion Hk.
Qed.

Lemma inside_applyUpdatesToDOM (c : ComponentData) (el : ref) (d : DOM) :
  element c = Some el -> base <= el -> within d -> within (applyUpdatesToDOM c d).
Proof.
  intros He Hel H. unfold applyUpdatesToDOM. rewrite He.
  assert (Hq : forall sel x, querySelector sel d el = Some x -> base <= x).
  { intros sel x. apply querySelector_inside; [apply H|exact Hel]. }
  destruct (type c); try exact H.
  - destruct (querySelector (sel_tag "IMG") d el) as [i|] eqn:Ei;
      destruct (querySelector (sel_tag "FIGCAPTION") d el) as [f|] eqn:Ef;
      repeat match goal with
             | |- within (if ?b then _ else _) => destruct b
             | |- within (set_textContent _ _ _) =>
                 apply inside_set_textContent; [eapply Hq; eassumption|]
             | |- within (set_src _ _ _) => apply inside_set_src; [eapply Hq; eassumption|]
             | |- within (set_alt _ _ _) => apply inside_set_alt; [eapply Hq; eassumption|]
             end; exact H.
  - destruct (querySelector (sel_tag "IMG") d el) as [i|] eqn:Ei;
      destruct (querySelector (sel_tag "BLOCKQUOTE") d el) as [b|] eqn:Eb;
      destruct (querySelector (sel_tag "CITE") d el) as [ci|] eqn:Eci;
      repeat match goal with
             | |- within (if ?b then _ else _) => destruct b
             | |- within (set_textContent _ _ _) =>
                 apply inside_set_textContent; [eapply Hq; eassumption|]
             | |- within (set_src _ _ _) => apply inside_set_src; [eapply Hq; eassumption|]
             | |- within (set_alt _ _ _) => apply inside_set_alt; [eapply Hq; eassumption|]
             end; exact H.
Qed.

End Inside.

(** *** Sibling lists *)

Lemma following_siblings_split (r : ref) (before rest : list ref) :
  r ∉ before -> following_siblings r (before ++ r :: rest) = rest.
Proof.
  induction before as [|b before IH]; intros Hr; simpl.
  - rewrite Nat.eqb_refl. reflexivity.
  - destruct (Nat.eqb_spec b r) as [->|_].
    + exfalso. apply Hr. left.
    + apply IH. intros H. apply Hr. right. exact H.
Qed.

Lemma insert_before_child_split (new v : ref) (pre post : list ref) :
  v ∉ pre -> insert_before_child new v (pre ++ v :: post) = pre ++ new :: v :: post.
Proof.
  induction pre as [|b pre IH]; intros Hv; simpl.
  - rewrite Nat.eqb_refl. reflexivity.
  - destruct (Nat.eqb_spec b v) as [->|_].
    + exfalso. apply Hv. left.
    + rewrite IH; [reflexivity|]. intros H. apply Hv. right. exact H.
Qed.

Lemma filter_all {A : Type} (P : A -> Prop) `{forall x, Decision (P x)} (l : list A) :
  (forall x, x ∈ l -> P x) -> filter P l = l.
Proof.
  induction l as [|a l IH]; intros Hl; [reflexivity|].
  rewrite filter_cons_True by (apply Hl; left).
  rewrite IH; [reflexivity|]. intros x Hx. apply Hl. right. exact Hx.
Qed.

(** Where [after] puts a new node in a duplicate-free list of children. *)
Lemma after_position (el new : ref) (before rest : list ref) :
  NoDup (before ++ el :: rest) ->
  (forall k, k ∈ rest -> k <> new) ->
  match head (filter (fun c => c ≠ new) (following_siblings el (before ++ el :: rest))) with
  | None => (before ++ el :: rest) ++ [new]
  | Some b => insert_before_child new b (before ++ el :: rest)
  end = before ++ el :: new :: rest.
Proof.
  intros Hnd Hnew.
  apply NoDup_app in Hnd as (Hb & Hbr & Hr).
  apply NoDup_cons in Hr as [Hel Hrest].
  rewrite following_siblings_split by (intros H; apply (Hbr el H); left).
  rewrite filter_all by exact Hnew.
  destruct rest as [|v rest]; simpl.
  - rewrite <- app_assoc. reflexivity.
  - replace (before ++ el :: v :: rest) with ((before ++ [el]) ++ v :: rest)
      by (rewrite <- app_assoc; reflexivity).
    rewrite insert_before_child_split.
    + rewrite <- app_assoc. reflexivity.
    + intros Hv. apply elem_of_app in Hv as [Hv|Hv].
      * apply (Hbr v Hv). right. left.
      * apply list_elem_of_singleton in Hv. subst v. apply Hel. left.
Qed.

Lemma wf_region (d : DOM) : wf_dom d -> region (next_ref d) d.
Proof.
  intros Hwf. split; [lia|]. split.
  - intros x Hx. destruct (nodes d !! x) as [n|] eqn:E; [|reflexivity].
    destruct (Hwf x n E) as [Hlt _]. lia.
  - intros x n Hx E. destruct (Hwf x n E) as [Hlt _]. lia.
Qed.

Lemma depth_bound_positive (d : DOM) (r : ref) (x : Node) :
  node_at d r = Some x -> exists f, depth_bound d = S f.
Proof.
  intros H. unfold depth_bound. destruct (size (nodes d)) as [|f] eqn:E; [|eauto].
  apply map_size_empty_inv in E. unfold node_at in H. rewrite E, lookup_empty in H.
  discriminate.
Qed.

Section Duplicate.

Variables (st : State) (i : string) (c : ComponentData) (el p : ref).
Hypothesis Hwf : wf_dom (document st).
Hypothesis Hc : components st !! i = Some c.
Hypothesis He : element c = Some el.
Hypothesis Hp : parent_of (document st) el = Some p.
Hypothesis Hfresh : components st !! next_id st = None.

Local Abbreviation d := (document st).
Local Abbreviation clone := (next_ref (document st)).
Local Abbreviation newId := (next_id st).

Lemma source_node :
  exists n, nodes d !! el = Some n /\ parentNode n = Some p /\ el < clone
            /\ p <> el /\ el ∈ children_of d p.
Proof.
  unfold parent_of, node_at in Hp.
  destruct (nodes d !! el) as [n|] eqn:E; [|discriminate].
  exists n. destruct (Hwf el n E) as (Hlt & _ & _ & Hpar).
  destruct (Hpar p Hp) as [Hne Hin]. auto.
Qed.

Lemma parent_node :
  exists np, nodes d !! p = Some np /\ p < clone /\ NoDup (childNodes np)
             /\ (forall k, k ∈ childNodes np -> k < clone)
             /\ exists before rest, childNodes np = before ++ el :: rest.
Proof.
  destruct source_node as (n & _ & _ & _ & _ & Hin).
  unfold children_of, node_at in Hin.
  destruct (nodes d !! p) as [np|] eqn:E; [|inversion Hin].
  exists np. destruct (Hwf p np E) as (Hlt & Hch & Hnd & _).
  split; [reflexivity|]. split; [exact Hlt|]. split; [exact Hnd|]. split.
  - intros k Hk. apply (Hch k Hk).
  - apply list_elem_of_split. exact Hin.
Qed.

Lemma clone_made :
  exists d1 kids n f,
    nodes d !! el = Some n
    /\ cloneNode d el = (clone, d1)
    /\ inside clone d d1
    /\ region (S clone) d1
    /\ nodes d1 !! clone = Some (with_childNodes kids (with_parentNode None n))
    /\ (forall k, k ∈ kids -> S clone <= k)
    /\ depth_bound d = S f
    /\ Forall2 (copy_of f d d1) (childNodes n) kids.
Proof.
  destruct source_node as (n & Hn & _).
  destruct (cloneNode d el) as [cl d1] eqn:E.
  unfold cloneNode in E.
  destruct (depth_bound_positive d el n Hn) as [f Hf].
  destruct (cloneNode_upto_spec d Hwf (depth_bound d) clone d el n None cl d1
              (Nat.le_refl _) (wf_region d Hwf) (agree_below_refl _ d) Hn E)
    as (-> & _ & Hreg & Hreg' & Hagree & (kids & Hk & Hkids) & Hcopy).
  exists d1, kids, n, f. split; [exact Hn|]. split; [reflexivity|].
  split; [split; assumption|]. split; [exact Hreg'|]. split; [exact Hk|].
  split; [exact Hkids|]. split; [exact Hf|].
  rewrite Hf in Hcopy. cbn [copy_of] in Hcopy. unfold node_at in Hcopy.
  rewrite Hn, Hk in Hcopy. apply Hcopy.
Qed.

(** The document [duplicateComponent] leaves, given the clone. *)
Lemma duplicate_placed (d1 : DOM) (kids : list ref) (n : Node) (f : nat) :
  nodes d !! el = Some n ->
  inside clone d d1 ->
  region (S clone) d1 ->
  nodes d1 !! clone = Some (with_childNodes kids (with_parentNode None n)) ->
  (forall k, k ∈ kids -> S clone <= k) ->
  Forall2 (copy_of f d d1) (childNodes n) kids ->
  let d3 := after el clone (set_componentId newId clone d1) in
  region clone d3
  /\ (forall x, x < clone -> x <> p -> nodes d3 !! x = nodes d !! x)
  /\ nodes d3 !! clone
     = Some (with_componentId (Some newId)
               (with_childNodes kids (with_parentNode (Some p) n)))
  /\ (exists before rest,
        children_of d p = before ++ el :: rest
        /\ children_of d3 p = before ++ el :: clone :: rest)
  /\ Forall2 (copy_of f d d3) (childNodes n) kids.
Proof.
  intros Hn [Hreg Hagree] Hreg' Hclone Hkids Hcopies.
  destruct source_node as (n' & Hn' & Hpn & Hel & Hpe & _).
  rewrite Hn in Hn'. injection Hn' as <-.
  destruct parent_node as (np & Hnp & Hplt & Hnd & Hch & before & rest & Hsplit).
  set (d2 := set_componentId newId clone d1).
  assert (Hd2 : forall x, x <> clone -> nodes d2 !! x = nodes d1 !! x).
  { intros x Hx. unfold d2, set_componentId, update_node. simpl.
    rewrite lookup_alter_ne by congruence. reflexivity. }
  assert (Hd2c : nodes d2 !! clone
                 = Some (with_componentId (Some newId)
                           (with_childNodes kids (with_parentNode None n)))).
  { unfold d2, set_componentId, update_node. simpl.
    rewrite lookup_alter_eq, Hclone. reflexivity. }
  assert (Hel2 : parent_of d2 el = Some p).
  { unfold parent_of, node_at. rewrite Hd2 by lia. rewrite (Hagree el Hel), Hn.
    exact Hpn. }
  assert (Hcl2 : parent_of d2 clone = None).
  { unfold parent_of, node_at. rewrite Hd2c. reflexivity. }
  assert (Hp2 : children_of d2 p = before ++ el :: rest).
  { unfold children_of, node_at. rewrite Hd2 by lia. rewrite (Hagree p Hplt), Hnp.
    exact Hsplit. }
  assert (Hreg2 : region clone d2).
  { unfold d2, set_componentId. apply region_update; [|exact Hreg].
    intros [] k Hk. left. exact Hk. }
  intros d3.
  assert (Hd3 : d3 = update_node (with_parentNode (Some p)) clone
                       (update_node
                          (fun m => with_childNodes
                                      (match head (filter (fun k => k ≠ clone)
                                                     (following_siblings el
                                                        (before ++ el :: rest))) with
                                       | None => childNodes m ++ [clone]
                                       | Some b => insert_before_child clone b (childNodes m)
                                       end) m) p d2)).
  { unfold d3, after. fold d2. rewrite Hel2, Hp2.
    unfold insertBefore, remove. rewrite Hcl2.
    destruct (head (filter (fun k => k ≠ clone)
                      (following_siblings el (before ++ el :: rest))));
      reflexivity. }
  rewrite Hd3. clear Hd3 d3. clearbody d2. split; [|split; [|split; [|split]]].
  - apply region_update; [intros [] k Hk; left; exact Hk|].
    apply region_update; [|exact Hreg2].
    intros m k Hk. simpl in Hk.
    destruct (head (filter (fun k => k ≠ clone)
                      (following_siblings el (before ++ el :: rest)))) as [b|].
    + clear -Hk. induction (childNodes m) as [|a l IH]; simpl in Hk.
      * apply list_elem_of_singleton in Hk. subst. right. lia.
      * destruct (a =? b)%nat.
        -- apply elem_of_cons in Hk as [->|Hk]; [right; lia|]. left. exact Hk.
        -- apply elem_of_cons in Hk as [->|Hk]; [left; left|].
           destruct (IH Hk) as [H|H]; [left; right; exact H|right; exact H].
    + apply elem_of_app in Hk as [Hk|Hk]; [left; exact Hk|].
      apply list_elem_of_singleton in Hk. subst. right. lia.
  - intros x Hx Hxp. unfold update_node. simpl.
    rewrite lookup_alter_ne by lia. rewrite lookup_alter_ne by congruence.
    rewrite Hd2 by lia. apply Hagree, Hx.
  - unfold update_node. simpl. rewrite lookup_alter_eq.
    rewrite lookup_alter_ne by lia. rewrite Hd2c. destruct n; reflexivity.
  - exists before, rest. split.
    + unfold children_of, node_at. rewrite Hnp. exact Hsplit.
    + unfold children_of, node_at, update_node. simpl.
      rewrite lookup_alter_ne by lia. rewrite lookup_alter_eq.
      rewrite Hd2 by lia. rewrite (Hagree p Hplt), Hnp. simpl.
      rewrite Hsplit. apply after_position.
      * rewrite <- Hsplit. exact Hnd.
      * intros k Hk. assert (k < clone); [|lia].
        apply Hch. rewrite Hsplit. apply elem_of_app. right. right. exact Hk.
  - eapply Forall2_impl_in; [exact Hcopies|]. intros x y Hy.
    apply (copy_of_above d d1 _ (S clone)); [exact Hreg'| |apply Hkids, Hy].
    intros z Hz. unfold update_node. simpl.
    rewrite lookup_alter_ne by lia. rewrite lookup_alter_ne by lia.
    apply Hd2. lia.
Qed.

End Duplicate.

(** X25 (duplicate, then update the duplicate). For a tracked
    component whose node sits under a parent in a
    well-formed document, when the id drawn by [generateId] is not yet
    a key of the registry: [duplicateComponent] returns that id, which
    differs from the id of the source; it files under it a record with
    the type and the properties of the source, about a new node that
    has the content of the source node, children that are copies of
    the children of the source, subtree by subtree as far as the depth
    bound of the document reaches, and its place immediately after the
    source in the children of its parent; a following [updateComponent] on the
    new id succeeds and merges the update into the duplicate's
    properties, while the record of the source is the same as before
    and so is every node that existed before the duplication, the
    source's node among them, except the parent, which gained a child. *)
Theorem duplicate_then_update (i : string) (updates : Props) (st : State)
    (c : ComponentData) (el p : ref) :
  wf_dom (document st) ->
  components st !! i = Some c ->
  element c = Some el ->
  parent_of (document st) el = Some p ->
  components st !! next_id st = None ->
  let newId := next_id st in
  let clone := next_ref (document st) in
  let st1 := snd (duplicateComponent i st) in
  let st2 := snd (updateComponent newId updates st1) in
  fst (duplicateComponent i st) = Some newId
  /\ newId <> i
  /\ components st1 !! newId = Some (mkComponent newId (type c) (props c) (Some clone))
  /\ components st1 !! i = Some c
  /\ (exists n kids f,
        node_at (document st) el = Some n
        /\ node_at (document st1) clone
           = Some (with_componentId (Some newId)
                     (with_childNodes kids (with_parentNode (Some p) n)))
        /\ depth_bound (document st) = S f
        /\ Forall2 (copy_of f (document st) (document st1)) (childNodes n) kids)
  /\ (exists before rest,
        children_of (document st) p = before ++ el :: rest
        /\ children_of (document st1) p = before ++ el :: clone :: rest)
  /\ fst (updateComponent newId updates st1) = true
  /\ components st2 !! i = Some c
  /\ components st2 !! newId
     = Some (mkComponent newId (type c) (spread (props c) updates) (Some clone))
  /\ (forall r, r < clone -> r <> p ->
                node_at (document st2) r = node_at (document st) r)
  /\ node_at (document st2) el = node_at (document st) el.
Proof.
  intros Hwf Hc He Hp Hfresh newId clone st1 st2.
  destruct (clone_made st el p Hwf Hp)
    as (d1 & kids & n & f & Hn & Hclone & Hin & Hreg' & Hcn & Hkids & Hf & Hcopies).
  destruct (duplicate_placed st el p Hwf Hp d1 kids n f Hn Hin Hreg' Hcn Hkids Hcopies)
    as (Hreg3 & Hframe3 & Hclone3 & (before & rest & Hcs & Hcs3) & Hcopies3).
  destruct (source_node st el p Hwf Hp) as (n' & Hn' & _ & Hel & Hpe & _).
  set (d3 := after el clone (set_componentId newId clone d1)) in *.
  set (rec := mkComponent newId (type c) (props c) (Some clone)).
  assert (Hne : newId <> i) by (intros E; unfold newId in E; congruence).
  assert (Hdup : duplicateComponent i st
                 = (Some newId,
                    syncContent
                      (with_components (<[newId := rec]> (components st))
                         (with_document d3 (with_draws (S (draws st)) st))))).
  { unfold duplicateComponent. rewrite Hc, He, Hclone. reflexivity. }
  assert (Hst1 : st1 = syncContent
                         (with_components (<[newId := rec]> (components st))
                            (with_document d3 (with_draws (S (draws st)) st)))).
  { unfold st1. rewrite Hdup. reflexivity. }
  assert (Hcomp1 : components st1 = <[newId := rec]> (components st)).
  { rewrite Hst1, components_syncContent. reflexivity. }
  assert (Hdoc1 : document st1 = d3).
  { rewrite Hst1, document_syncContent. reflexivity. }
  set (rec' := with_props (spread (props rec) updates) rec).
  assert (Hupd : updateComponent newId updates st1
                 = (true,
                    notifyListeners newId rec'
                      (syncContent
                         (with_document (applyUpdatesToDOM rec' (document st1))
                            (with_components (<[newId := rec']> (components st1)) st1))))).
  { unfold updateComponent. rewrite Hcomp1, lookup_insert_eq. reflexivity. }
  assert (Hcomp2 : components st2 = <[newId := rec']> (components st1)).
  { unfold st2. rewrite Hupd. simpl. rewrite components_syncContent. reflexivity. }
  assert (Hdoc2 : document st2 = applyUpdatesToDOM rec' d3).
  { unfold st2. rewrite Hupd. simpl. rewrite document_syncContent. simpl.
    rewrite Hdoc1. reflexivity. }
  assert (Hin2 : inside clone d3 (applyUpdatesToDOM rec' d3)).
  { apply (inside_applyUpdatesToDOM clone d3 rec' clone); [reflexivity|lia|].
    split; [exact Hreg3|apply agree_below_refl]. }
  assert (Hframe : forall r, r < clone -> r <> p ->
                     node_at (document st2) r = node_at (document st) r).
  { intros r Hr Hrp. unfold node_at. rewrite Hdoc2.
    destruct Hin2 as [_ Hag]. rewrite (Hag r Hr). apply Hframe3; assumption. }
  split; [rewrite Hdup; reflexivity|]. split; [exact Hne|].
  split; [rewrite Hcomp1; apply lookup_insert_eq|].
  split; [rewrite Hcomp1, lookup_insert_ne by exact Hne; exact Hc|].
  split.
  { exists n, kids, f. split; [exact Hn|]. rewrite Hdoc1.
    split; [exact Hclone3|]. split; [exact Hf|exact Hcopies3]. }
  split.
  { exists before, rest. split; [exact Hcs|]. rewrite Hdoc1. exact Hcs3. }
  split; [rewrite Hupd; reflexivity|].
  split.
  { rewrite Hcomp2, Hcomp1. rewrite !lookup_insert_ne by exact Hne. exact Hc. }
  split; [rewrite Hcomp2; apply lookup_insert_eq|].
  split; [exact Hframe|].
  apply Hframe; [exact Hel|congruence].
Qed.

Lemma duplicate_then_update_witness :
  wf_dom (document figure_manager)
  /\ fst (duplicateComponent figure_id figure_manager) = Some (next_id figure_manager)
  /\ node_at
       (document
          (snd (updateComponent (next_id figure_manager) {["caption" := VString "B"]}
                  (snd (duplicateComponent figure_id figure_manager))))) 2
     = node_at (document figure_manager) 2.
Proof.
  assert (Hwf : wf_dom (document figure_manager))
    by (apply wf_dom_b_spec; vm_compute; reflexivity).
  split; [exact Hwf|].
  assert (Hc : exists c, components figure_manager !! figure_id = Some c
                         /\ element c = Some 2%nat).
  { eexists. split; vm_compute; reflexivity. }
  destruct Hc as (c & Hc & He).
  pose proof (duplicate_then_update figure_id {["caption" := VString "B"]}
                figure_manager c 2 1 Hwf Hc He) as H.
  cbv zeta in H.
  destruct H as (H1 & _ & _ & _ & _ & _ & _ & _ & _ & _ & H11);
    [vm_compute; reflexivity|vm_compute; reflexivity|].
  split; [exact H1|exact H11].
Defined.

(** C9, the code at the failing input. The figure of [figure_page]
    is registered under [figure_id], and the clock and the random
    source give at the next draw what they gave at the first. The id
    [duplicateComponent] returns is not fresh: it is [figure_id], the
    id of the source. The record of the clone replaces the record of
    the source, so the registry still has one entry and the source
    node has none; source and clone carry the same marker. The update
    of the caption under the id of the duplicate then changes the
    properties filed under the id of the original. *)
Theorem duplicate_reuses_the_id :
  let dup := duplicateComponent figure_id frozen_manager in
  let upd := updateComponent figure_id {["caption" := VString "B"]} (snd dup) in
  element <$> getComponent figure_id frozen_manager = Some (Some 2%nat)
  /\ (getComponent figure_id frozen_manager ≫= fun c => props c !! "caption")
     = Some (VString "A")
  /\ fst dup = Some figure_id
  /\ size (components (snd dup)) = 1%nat
  /\ element <$> getComponent figure_id (snd dup) = Some (Some 6%nat)
  /\ dataset_componentId (document (snd dup)) 2 = Some figure_id
  /\ dataset_componentId (document (snd dup)) 6 = Some figure_id
  /\ fst upd = true
  /\ (getComponent figure_id (snd upd) ≫= fun c => props c !! "caption")
     = Some (VString "B").
Proof. vm_compute. repeat split. Qed.

(** The source node has no parent: [duplicateComponent] returns an id
    and files a record under it, but [after] has nowhere to put the
    clone, which stays outside the document; the editable root and the
    output field do not show it. *)
Lemma duplicate_of_detached_source :
  let dup := duplicateComponent figure_id detached_manager in
  element <$> getComponent figure_id detached_manager = Some (Some 2%nat)
  /\ parent_of (document detached_manager) 2 = None
  /\ fst dup = Some (next_id detached_manager)
  /\ element <$> getComponent (next_id detached_manager) (snd dup) = Some (Some 6%nat)
  /\ parent_of (document (snd dup)) 6 = None
  /\ children_of (document (snd dup)) 1 = []
  /\ value <$> contentInput (snd dup) = Some "".
Proof. vm_compute. repeat split. Qed.

(** ** Insertion of an image (C8) *)








Lemma tower1 (a : ref) (x x' : Node) (m : gmap ref Node) (k : ref) :
  x = x' -> mkDOM (<[a := x]> m) k = mkDOM (<[a := x']> m) k.
Proof. intros ->. reflexivity. Qed.




Lemma update_base (f : Node -> Node) (r : ref) (m : gmap ref Node) (k : ref) :
  update_node f r (mkDOM m k) = mkDOM (alter f r m) k.
Proof. reflexivity. Qed.


Section InsertIntoEmptyRoot.

Variables (m : gmap ref Node) (N ed : ref) (n : Node) (i src alt : string).
Hypothesis Hed : m !! ed = Some n.
Hypothesis Hkind : nodeType n = ELEMENT_NODE.
Hypothesis Hempty : childNodes n = [].
Hypothesis Hlt : ed < N.

Let d5 := mkDOM (<[S N := centered_image_node src alt (Some N)]>
                   (<[N := wrapper_node i [S N] None]> m)) (S (S N)).

Let g1 := fun x : Node => with_childNodes (childNodes x ++ [N]) x.
Let g2 := fun x : Node => with_childNodes (childNodes x ++ [S (S N)]) x.

Let d6 := mkDOM (<[S N := centered_image_node src alt (Some N)]>
                   (<[N := wrapper_node i [S N] (Some ed)]> (alter g1 ed m))) (S (S N)).



Let d7 := mkDOM (<[S (S (S N)) := br_node (Some (S (S N)))]>
                   (<[S (S N) := paragraph_node [S (S (S N))] None]>
                      (<[S N := centered_image_node src alt (Some N)]>
                         (<[N := wrapper_node i [S N] (Some ed)]> (alter g1 ed m)))))
                (S (S (S (S N)))).

Let d8 := mkDOM (<[S (S (S N)) := br_node (Some (S (S N)))]>
                   (<[S (S N) := paragraph_node [S (S (S N))] (Some ed)]>
                      (<[S N := centered_image_node src alt (Some N)]>
                         (<[N := wrapper_node i [S N] (Some ed)]>
                            (alter g2 ed (alter g1 ed m)))))) (S (S (S (S N)))).




End InsertIntoEmptyRoot.






(** * Further properties *)

(** ** Registrations of unmarked nodes *)

Lemma registerElement_stamped (el : ref) (st : State) :
  exists t p, registerElement el st = (next_id st, stamped el t p st)
              /\ t = detectComponentType (set_componentId (next_id st) el (document st)) el.
Proof. eexists _, _. split; reflexivity. Qed.

Lemma registerImage_stamped (img : ref) (st : State) :
  exists p, registerImage img st = (next_id st, stamped img T_image p st).
Proof. eexists. reflexivity. Qed.

Lemma registers_trans (a b c : State) : registers a b -> registers b c -> registers a c.
Proof.
  intros Hab Hbc. induction Hbc; [exact Hab|].
  apply registers_more; auto.
Qed.

Lemma registers_element (st : State) (el : ref) :
  is_Some (node_at (document st) el) ->
  has_marker (document st) el = false ->
  registers st (snd (registerElement el st)).
Proof.
  intros He Hm. destruct (registerElement_stamped el st) as (t & p & -> & _).
  apply registers_more; [apply registers_none|assumption..].
Qed.

Lemma registers_image (st : State) (img : ref) :
  is_Some (node_at (document st) img) ->
  has_marker (document st) img = false ->
  registers st (snd (registerImage img st)).
Proof.
  intros He Hm. destruct (registerImage_stamped img st) as (p & ->).
  apply registers_more; [apply registers_none|assumption..].
Qed.

(** *** Documents that differ in markers only *)

Lemma same_but_markers_refl (d : DOM) : same_but_markers d d.
Proof. split; reflexivity. Qed.

Lemma same_but_markers_trans (a b c : DOM) :
  same_but_markers a b -> same_but_markers b c -> same_but_markers a c.
Proof. intros [H1 H2] [H3 H4]. split; [congruence|]. intros x. rewrite H4. apply H2. Qed.

Lemma same_but_markers_set (v : string) (r : ref) (d : DOM) :
  same_but_markers d (set_componentId v r d).
Proof.
  split; [reflexivity|]. intros x. unfold set_componentId. rewrite node_at_update.
  destruct (decide (r = x)); [|reflexivity].
  destruct (node_at d x) as [[]|]; reflexivity.
Qed.

Lemma read_same {A : Type} (g : Node -> A) (dflt : A) (d d' : DOM) (x : ref) :
  same_but_markers d d' ->
  (forall n, g (unmarked n) = g n) ->
  match node_at d' x with Some n => g n | None => dflt end
  = match node_at d x with Some n => g n | None => dflt end.
Proof.
  intros [_ H] Hg. specialize (H x).
  destruct (node_at d' x) as [n'|], (node_at d x) as [n|]; try discriminate;
    [|reflexivity].
  assert (E : unmarked n' = unmarked n).
  { change (Some (unmarked n') = Some (unmarked n)) in H. congruence. }
  rewrite <- (Hg n'), <- (Hg n), E. reflexivity.
Qed.

Section SameButMarkers.

Variables d d' : DOM.
Hypothesis Hsame : same_but_markers d d'.

Lemma same_exists (x : ref) : is_Some (node_at d' x) <-> is_Some (node_at d x).
Proof.
  destruct Hsame as [_ H]. specialize (H x).
  destruct (node_at d' x), (node_at d x); simpl in H; try discriminate;
    split; intros [? ?]; eauto; discriminate.
Qed.

Lemma same_children_of (x : ref) : children_of d' x = children_of d x.
Proof. apply (read_same childNodes []); [exact Hsame|reflexivity]. Qed.

Lemma same_parent_of (x : ref) : parent_of d' x = parent_of d x.
Proof. apply (read_same parentNode None); [exact Hsame|reflexivity]. Qed.

Lemma same_tag_is (t : string) (x : ref) : tag_is t d' x = tag_is t d x.
Proof. apply (read_same (fun n => String.eqb (tagName n) t) false); [exact Hsame|reflexivity]. Qed.

Lemma same_classList_contains (c : string) (x : ref) :
  classList_contains c d' x = classList_contains c d x.
Proof.
  apply (read_same (fun n => mem_string c (classList n)) false); [exact Hsame|reflexivity].
Qed.

Lemma same_depth_bound : depth_bound d' = depth_bound d.
Proof.
  unfold depth_bound.
  rewrite <- (size_dom (D:=gset nat) (nodes d')), <- (size_dom (D:=gset nat) (nodes d)).
  f_equal. apply set_eq. intros x. rewrite !elem_of_dom. apply same_exists.
Qed.

Lemma same_descendants_upto (fuel : nat) (x : ref) :
  descendants_upto fuel d' x = descendants_upto fuel d x.
Proof.
  revert x. induction fuel as [|f IH]; intros x; simpl; [reflexivity|].
  rewrite same_children_of.
  induction (children_of d x) as [|c l IHl]; simpl; [reflexivity|].
  rewrite IH, IHl. reflexivity.
Qed.

Lemma same_descendants (x : ref) : descendants d' x = descendants d x.
Proof. unfold descendants. rewrite same_depth_bound. apply same_descendants_upto. Qed.

Lemma same_querySelectorAll (sel : DOM -> ref -> bool) (x : ref) :
  ignores_markers sel -> querySelectorAll sel d' x = querySelectorAll sel d x.
Proof.
  intros Hsel. unfold querySelectorAll. rewrite same_descendants.
  induction (descendants d x) as [|c l IH]; simpl; [reflexivity|].
  rewrite (Hsel d d' Hsame), IH. reflexivity.
Qed.

End SameButMarkers.

Lemma sel_class_ignores (c : string) : ignores_markers (sel_class c).
Proof. intros d d' H x. apply same_classList_contains, H. Qed.

Lemma sel_tag_ignores (t : string) : ignores_markers (sel_tag t).
Proof. intros d d' H x. apply same_tag_is, H. Qed.

Lemma sel_plain_figure_ignores : ignores_markers sel_plain_figure.
Proof.
  intros d d' H x. unfold sel_plain_figure.
  rewrite (same_tag_is d d' H), (same_classList_contains d d' H). reflexivity.
Qed.

Lemma sel_editable_img_ignores : ignores_markers sel_editable_img.
Proof.
  intros d d' H x. unfold sel_editable_img.
  rewrite (same_tag_is d d' H), !(same_classList_contains d d' H). reflexivity.
Qed.

Lemma component_selectors_ignore (sel : DOM -> ref -> bool) :
  sel ∈ component_selectors -> ignores_markers sel.
Proof.
  unfold component_selectors. intros Hin.
  repeat (apply elem_of_cons in Hin; destruct Hin as [->|Hin];
          [first [apply sel_class_ignores | apply sel_plain_figure_ignores]|]).
  inversion Hin.
Qed.

(** *** What a run of registrations keeps *)

Lemma has_marker_set (v : string) (r x : ref) (d : DOM) :
  v <> "" ->
  has_marker (set_componentId v r d) x
  = if decide (r = x) then bool_decide (is_Some (node_at d x)) else has_marker d x.
Proof.
  intros Hv. unfold has_marker. rewrite dataset_componentId_set.
  destruct (decide (r = x)); [|reflexivity].
  destruct (node_at d x).
  - rewrite bool_decide_eq_true_2 by eauto.
    destruct (String.eqb_spec v ""); [contradiction|reflexivity].
  - rewrite bool_decide_eq_false_2; [reflexivity|]. intros [? ?]; discriminate.
Qed.

Lemma has_marker_sel_marked (d : DOM) (x : ref) :
  has_marker d x = true -> sel_marked d x = true.
Proof. unfold has_marker, sel_marked. destruct (dataset_componentId d x); auto. Qed.

Lemma registers_keeps (st s : State) :
  registers st s ->
  editor s = editor st /\ contentInput s = contentInput st
  /\ changeListeners s = changeListeners st /\ calls s = calls st
  /\ same_but_markers (document st) (document s)
  /\ draws st <= draws s
  /\ (forall x, has_marker (document st) x = true ->
                dataset_componentId (document s) x = dataset_componentId (document st) x)
  /\ (forall x, sel_marked (document st) x = true -> sel_marked (document s) x = true)
  /\ (forall i, is_Some (components st !! i) -> is_Some (components s !! i))
  /\ (forall i c, components s !! i = Some c ->
        components st !! i = Some c
        \/ (i <> ""
            /\ exists el, element c = Some el
                          /\ has_marker (document st) el = false
                          /\ dataset_componentId (document s) el = Some i))
  /\ (forall x, has_marker (document s) x = true ->
                has_marker (document st) x = true
                \/ exists m, dataset_componentId (document s) x = Some m
                             /\ is_Some (components s !! m)).
Proof.
  induction 1 as [st|st s el t p Hreg IH Hex Hun].
  - split_and!; auto using same_but_markers_refl.
  - destruct IH as (He & Hi & Hl & Hc & Hd & Hk & Hm & Hs & Hcs & Hnew & Hcov).
    assert (Hkept : forall x, has_marker (document st) x = true -> x <> el).
    { intros x Hx ->. unfold has_marker in Hun, Hx. rewrite (Hm el Hx) in Hun.
      unfold has_marker in Hx. rewrite Hx in Hun. discriminate. }
    unfold stamped. cbn [editor contentInput changeListeners calls document draws components
                           with_components with_document with_draws].
    split_and!; try assumption.
    + eapply same_but_markers_trans; [exact Hd|apply same_but_markers_set].
    + lia.
    + intros x Hx. rewrite dataset_componentId_set, decide_False by (apply not_eq_sym; auto).
      auto.
    + intros x Hx. specialize (Hs x Hx). unfold sel_marked in *.
      rewrite dataset_componentId_set. case_decide as E; [|exact Hs].
      subst x. destruct Hex as [n ->]. reflexivity.
    + intros i Hi'. rewrite lookup_insert. case_decide; [eauto|auto].
    + intros i c. rewrite lookup_insert. case_decide as E.
      * intros [= <-]. subst i. right. split; [apply next_id_nonempty|].
        exists el. split; [reflexivity|]. split.
        -- destruct (has_marker (document st) el) eqn:E; [|reflexivity].
           destruct (Hkept el E). reflexivity.
        -- rewrite dataset_componentId_set, decide_True by reflexivity.
           destruct Hex as [n ->]. reflexivity.
      * intros Hc'. destruct (Hnew i c Hc') as [Hold|(Hne & e & Hel & Hu & Hmk)];
          [left; exact Hold|].
        right. split; [exact Hne|]. exists e. split; [exact Hel|]. split; [exact Hu|].
        rewrite dataset_componentId_set. case_decide as E'; [|exact Hmk].
        subst e. exfalso. apply Hne. exact (has_marker_false _ _ _ Hun Hmk).
    + intros x. rewrite has_marker_set by apply next_id_nonempty.
      case_decide as E.
      * subst x. intros _. right. exists (next_id s). split.
        -- rewrite dataset_componentId_set, decide_True by reflexivity.
           destruct Hex as [n ->]. reflexivity.
        -- rewrite lookup_insert_eq. eauto.
      * intros Hx. destruct (Hcov x Hx) as [Hold|(m & Hm1 & Hm2)]; [left; exact Hold|].
        right. exists m. split.
        -- rewrite dataset_componentId_set, decide_False by exact E. exact Hm1.
        -- rewrite lookup_insert. case_decide; eauto.
Qed.

Lemma registers_has_marker (st s : State) (x : ref) :
  registers st s -> has_marker (document st) x = true -> has_marker (document s) x = true.
Proof.
  intros H Hx. apply registers_keeps in H as (_ & _ & _ & _ & _ & _ & Hm & _).
  unfold has_marker in *. rewrite (Hm x Hx). exact Hx.
Qed.

Lemma registers_same (st s : State) :
  registers st s -> same_but_markers (document st) (document s).
Proof. intros H. apply registers_keeps in H. tauto. Qed.

Lemma registers_exists (st s : State) (x : ref) :
  registers st s -> is_Some (node_at (document st) x) -> is_Some (node_at (document s) x).
Proof. intros H. apply (same_exists _ _ (registers_same _ _ H)). Qed.

Lemma closest_upto_grows (fuel : nat) (d d' : DOM) :
  same_but_markers d d' ->
  (forall x, sel_marked d x = true -> sel_marked d' x = true) ->
  forall r, is_Some (closest_upto fuel sel_marked d r) ->
            is_Some (closest_upto fuel sel_marked d' r).
Proof.
  intros Hsame Hmono. induction fuel as [|f IH]; intros r; simpl.
  - destruct (sel_marked d r) eqn:E; [rewrite (Hmono r E); eauto|].
    intros [? ?]; discriminate.
  - destruct (sel_marked d r) eqn:E; [rewrite (Hmono r E); eauto|].
    destruct (sel_marked d' r); [eauto|].
    rewrite (same_parent_of d d' Hsame). destruct (parent_of d r); [apply IH|auto].
Qed.

Lemma registers_closest (st s : State) (r : ref) :
  registers st s ->
  is_Some (closest sel_marked (document st) r) ->
  is_Some (closest sel_marked (document s) r).
Proof.
  intros H. unfold closest. rewrite (same_depth_bound _ _ (registers_same _ _ H)).
  apply closest_upto_grows; [apply registers_same, H|].
  apply registers_keeps in H. tauto.
Qed.

Lemma closest_here (sel : DOM -> ref -> bool) (d : DOM) (r : ref) :
  sel d r = true -> closest sel d r = Some r.
Proof. intros H. unfold closest. destruct (depth_bound d); simpl; rewrite H; reflexivity. Qed.

(** *** The loops of the scan *)

Lemma marking_loop (l : list ref) :
  forall s,
    (forall r, r ∈ l -> is_Some (node_at (document s) r)) ->
    let s' := fold_left
                (fun s' el => if has_marker (document s') el then s'
                              else snd (registerElement el s')) l s in
    registers s s' /\ forall r, r ∈ l -> has_marker (document s') r = true.
Proof.
  induction l as [|r l IH]; intros s Hl; simpl.
  - split; [apply registers_none|]. intros r Hr. inversion Hr.
  - set (s1 := if has_marker (document s) r then s else snd (registerElement r s)).
    assert (H1 : registers s s1 /\ has_marker (document s1) r = true).
    { unfold s1. destruct (has_marker (document s) r) eqn:E.
      - split; [apply registers_none|exact E].
      - split; [apply registers_element; [apply Hl; left|exact E]|].
        destruct (registerElement_stamped r s) as (t & p & -> & _).
        cbn [snd stamped document with_components with_document].
        rewrite has_marker_set, decide_True by (reflexivity || apply next_id_nonempty).
        apply bool_decide_eq_true_2. apply Hl. left. }
    destruct H1 as [H1 H1'].
    destruct (IH s1) as [H2 H3].
    { intros x Hx. eapply registers_exists; [exact H1|]. apply Hl. right. exact Hx. }
    split; [eapply registers_trans; eassumption|].
    intros x [->|Hx]%elem_of_cons; [|apply H3, Hx].
    eapply registers_has_marker; eassumption.
Qed.

Lemma selected_iff (sel : DOM -> ref -> bool) (d : DOM) (root r : ref) :
  r ∈ querySelectorAll sel d root <-> r ∈ descendants d root /\ sel d r = true.
Proof.
  unfold querySelectorAll. rewrite !list_elem_of_In. apply List.filter_In.
Qed.

Lemma selectors_loop (ed : ref) (sels : list (DOM -> ref -> bool)) :
  (forall sel, sel ∈ sels -> sel ∈ component_selectors) ->
  forall s,
    let s' := fold_left
                (fun s0 sel =>
                   fold_left
                     (fun s' el => if has_marker (document s') el then s'
                                   else snd (registerElement el s'))
                     (querySelectorAll sel (document s0) ed) s0) sels s in
    registers s s' /\ all_marked sels ed s'.
Proof.
  induction sels as [|sel sels IH]; intros Hsub s; simpl.
  - split; [apply registers_none|]. intros sel el Hs. inversion Hs.
  - destruct (marking_loop (querySelectorAll sel (document s) ed) s) as [H1 H1'].
    { intros r Hr. eapply selected_exists; [|exact Hr].
      intros x. apply component_selector_exists, Hsub. left. }
    cbv zeta in H1, H1'.
    set (s1 := fold_left _ (querySelectorAll sel (document s) ed) s) in *.
    destruct (IH (fun x Hx => Hsub x (list_elem_of_further _ _ _ Hx)) s1) as [H2 H3].
    cbv zeta in H2, H3.
    split; [eapply registers_trans; eassumption|].
    intros sel' el [->|Hs]%elem_of_cons Hel; [|apply (H3 sel' el Hs Hel)].
    eapply registers_has_marker; [exact H2|]. apply H1'.
    rewrite (same_querySelectorAll (document s) _
               (registers_same _ _ (registers_trans _ _ _ H1 H2))) in Hel;
      [exact Hel|].
    apply component_selectors_ignore, Hsub. left.
Qed.

Lemma covering_loop (l : list ref) :
  forall s,
    (forall r, r ∈ l -> is_Some (node_at (document s) r)) ->
    let s' := fold_left
                (fun s img =>
                   match closest sel_marked (document s) img with
                   | Some _ => s
                   | None => if has_marker (document s) img then s
                             else snd (registerImage img s)
                   end) l s in
    registers s s' /\ forall r, r ∈ l -> is_Some (closest sel_marked (document s') r).
Proof.
  induction l as [|r l IH]; intros s Hl; simpl.
  - split; [apply registers_none|]. intros r Hr. inversion Hr.
  - set (s1 := match closest sel_marked (document s) r with
               | Some _ => s
               | None => if has_marker (document s) r then s else snd (registerImage r s)
               end).
    assert (H1 : registers s s1 /\ is_Some (closest sel_marked (document s1) r)).
    { unfold s1. destruct (closest sel_marked (document s) r) as [a|] eqn:Ec.
      - split; [apply registers_none|]. rewrite Ec. eauto.
      - destruct (has_marker (document s) r) eqn:E.
        + rewrite (closest_here sel_marked) in Ec by (apply has_marker_sel_marked, E).
          discriminate.
        + split; [apply registers_image; [apply Hl; left|exact E]|].
          destruct (registerImage_stamped r s) as (p & ->).
          cbn [snd stamped document with_components with_document].
          rewrite closest_here; [eauto|].
          apply has_marker_sel_marked.
          rewrite has_marker_set, decide_True by (reflexivity || apply next_id_nonempty).
          apply bool_decide_eq_true_2. apply Hl. left. }
    destruct H1 as [H1 H1'].
    destruct (IH s1) as [H2 H3].
    { intros x Hx. eapply registers_exists; [exact H1|]. apply Hl. right. exact Hx. }
    split; [eapply registers_trans; eassumption|].
    intros x [->|Hx]%elem_of_cons; [|apply H3, Hx].
    eapply registers_closest; eassumption.
Qed.

Lemma scan_registers (st : State) (ed : ref) :
  editor st = Some ed ->
  registers st (scanExistingComponents st)
  /\ all_marked component_selectors ed (scanExistingComponents st)
  /\ images_covered ed (scanExistingComponents st).
Proof.
  intros Hed. unfold scanExistingComponents. rewrite Hed.
  destruct (selectors_loop ed component_selectors (fun _ H => H) st) as [H1 H1'].
  cbv zeta in H1, H1'.
  set (st1 := fold_left _ component_selectors st) in *.
  destruct (covering_loop (querySelectorAll sel_editable_img (document st1) ed) st1)
    as [H2 H2'].
  { intros r Hr. eapply selected_exists; [|exact Hr].
    intros x [H _]%andb_prop. apply tag_is_exists in H. exact H. }
  cbv zeta in H2, H2'.
  set (st2 := fold_left _ (querySelectorAll sel_editable_img (document st1) ed) st1) in *.
  split; [eapply registers_trans; eassumption|]. split.
  - intros sel el Hs Hel. eapply registers_has_marker; [exact H2|].
    apply (H1' sel el Hs).
    rewrite (same_querySelectorAll (document st1) _ (registers_same _ _ H2)) in Hel;
      [exact Hel|apply component_selectors_ignore, Hs].
  - intros img Himg. apply H2'.
    rewrite (same_querySelectorAll (document st1) _ (registers_same _ _ H2)) in Himg;
      [exact Himg|apply sel_editable_img_ignores].
Qed.

Lemma marking_loop_fixed (l : list ref) (s : State) :
  (forall r, r ∈ l -> has_marker (document s) r = true) ->
  fold_left (fun s' el => if has_marker (document s') el then s'
                          else snd (registerElement el s')) l s = s.
Proof.
  induction l as [|r l IH]; intros Hl; simpl; [reflexivity|].
  rewrite (Hl r) by left. apply IH. intros x Hx. apply Hl. right. exact Hx.
Qed.

Lemma covering_loop_fixed (l : list ref) (s : State) :
  (forall r, r ∈ l -> is_Some (closest sel_marked (document s) r)) ->
  fold_left
    (fun s img =>
       match closest sel_marked (document s) img with
       | Some _ => s
       | None => if has_marker (document s) img then s else snd (registerImage img s)
       end) l s = s.
Proof.
  induction l as [|r l IH]; intros Hl; simpl; [reflexivity|].
  destruct (Hl r) as [a ->]; [left|]. apply IH. intros x Hx. apply Hl. right. exact Hx.
Qed.

Lemma scan_fixed (s : State) (ed : ref) :
  editor s = Some ed ->
  all_marked component_selectors ed s ->
  images_covered ed s ->
  scanExistingComponents s = s.
Proof.
  intros Hed Hall Himg. unfold scanExistingComponents. rewrite Hed.
  assert (H1 : forall sels,
             (forall sel, sel ∈ sels -> sel ∈ component_selectors) ->
             fold_left
               (fun s0 sel =>
                  fold_left
                    (fun s' el => if has_marker (document s') el then s'
                                  else snd (registerElement el s'))
                    (querySelectorAll sel (document s0) ed) s0) sels s = s).
  { induction sels as [|sel sels IH]; intros Hsub; simpl; [reflexivity|].
    rewrite marking_loop_fixed.
    - apply IH. intros x Hx. apply Hsub. right. exact Hx.
    - intros r Hr. apply (Hall sel r); [apply Hsub; left|exact Hr]. }
  rewrite H1 by auto. apply covering_loop_fixed. exact Himg.
Qed.

(** ** Registration and lookup *)

Lemma detectComponentType_same (d d' : DOM) (el : ref) :
  same_but_markers d d' -> detectComponentType d' el = detectComponentType d el.
Proof.
  intros H. unfold detectComponentType.
  rewrite !(same_classList_contains d d' H), (same_tag_is d d' H). reflexivity.
Qed.

Lemma closest_upto_same (sel : DOM -> ref -> bool) (fuel : nat) (d d' : DOM) :
  same_but_markers d d' -> ignores_markers sel ->
  forall r, closest_upto fuel sel d' r = closest_upto fuel sel d r.
Proof.
  intros H Hsel. induction fuel as [|f IH]; intros r; simpl; rewrite (Hsel d d' H);
    [reflexivity|].
  rewrite (same_parent_of d d' H). destruct (sel d r); [reflexivity|].
  destruct (parent_of d r); [apply IH|reflexivity].
Qed.

Lemma detectImageLayout_same (d d' : DOM) (img : ref) :
  same_but_markers d d' -> detectImageLayout d' img = detectImageLayout d img.
Proof.
  intros H. unfold detectImageLayout, closest.
  rewrite !(same_classList_contains d d' H), (same_depth_bound d d' H),
    (closest_upto_same _ _ d d' H (sel_tag_ignores "FIGURE")).
  reflexivity.
Qed.

(** X1 (registration and lookup): a node that [registerElement] or
    [registerImage] has registered is found again, by the id returned
    and by the node itself: the record names the node, carries the id
    as the node does, and has the type (for an image, the layout) read
    from the node before it was marked. *)
Theorem registered_node_is_found (el : ref) (st : State) :
  is_Some (node_at (document st) el) ->
  (exists c,
      getComponent (fst (registerElement el st)) (snd (registerElement el st)) = Some c
      /\ getComponentByElement el (snd (registerElement el st)) = Some c
      /\ id c = fst (registerElement el st)
      /\ element c = Some el
      /\ type c = detectComponentType (document st) el
      /\ dataset_componentId (document (snd (registerElement el st))) el = Some (id c))
  /\ (exists c,
        getComponent (fst (registerImage el st)) (snd (registerImage el st)) = Some c
        /\ getComponentByElement el (snd (registerImage el st)) = Some c
        /\ id c = fst (registerImage el st)
        /\ element c = Some el
        /\ type c = T_image
        /\ props c !! "layout"
           = Some (VString (layout_name (detectImageLayout (document st) el)))
        /\ dataset_componentId (document (snd (registerImage el st))) el = Some (id c)).
Proof.
  intros [n Hn].
  assert (Hm : dataset_componentId (set_componentId (next_id st) el (document st)) el
               = Some (next_id st)).
  { rewrite dataset_componentId_set, decide_True, Hn by reflexivity. reflexivity. }
  assert (Hh : has_marker (set_componentId (next_id st) el (document st)) el = true).
  { unfold has_marker. rewrite Hm.
    destruct (String.eqb_spec (next_id st) ""); [|reflexivity].
    destruct (next_id_nonempty st). assumption. }
  split.
  - eexists. unfold getComponent, getComponentByElement, registerElement, generateId.
    cbn [fst snd document components with_components with_document with_draws id element type].
    rewrite Hh, Hm. cbn [mbind option_bind]. rewrite lookup_insert_eq.
    split_and!; try reflexivity.
    apply detectComponentType_same, same_but_markers_set.
  - eexists. unfold getComponent, getComponentByElement, registerImage, generateId.
    cbn [fst snd document components with_components with_document with_draws id element type
           props].
    rewrite Hh, Hm. cbn [mbind option_bind]. rewrite lookup_insert_eq.
    split_and!; try reflexivity.
    cbn [props]. rewrite lookup_insert_eq. do 3 f_equal.
    apply detectImageLayout_same, same_but_markers_set.
Qed.

Lemma registered_node_is_found_witness :
  exists c,
    getComponent (fst (registerElement 2 (new_ComponentManager figure_page ticking_clock
                                            constant_random)))
      (snd (registerElement 2 (new_ComponentManager figure_page ticking_clock
                                 constant_random))) = Some c
    /\ type c = T_figure.
Proof.
  destruct (registered_node_is_found 2
              (new_ComponentManager figure_page ticking_clock constant_random))
    as [(c & H1 & _ & _ & _ & H5 & _) _].
  - vm_compute. eauto.
  - exists c. split; [exact H1|]. rewrite H5. vm_compute. reflexivity.
Defined.

(** ** The scan *)

Lemma scan_registers_any (st : State) : registers st (scanExistingComponents st).
Proof.
  destruct (editor st) as [ed|] eqn:E.
  - apply (scan_registers st ed E).
  - unfold scanExistingComponents. rewrite E. apply registers_none.
Qed.

(** X2 (the scan is idempotent): a second scan registers nothing and
    leaves the state as the first one left it. *)
Theorem scan_is_idempotent (st : State) :
  scanExistingComponents (scanExistingComponents st) = scanExistingComponents st.
Proof.
  destruct (editor st) as [e|] eqn:E.
  - destruct (scan_registers st e E) as (H1 & H2 & H3).
    apply (scan_fixed _ e); [|assumption..].
    apply registers_keeps in H1 as (-> & _). exact E.
  - unfold scanExistingComponents at 2. rewrite E.
    unfold scanExistingComponents. rewrite E. reflexivity.
Qed.

Lemma isComponentElement_selected (d : DOM) (el : ref) :
  isComponentElement d el = true -> exists sel, sel ∈ component_selectors /\ sel d el = true.
Proof.
  unfold isComponentElement. intros H.
  assert (Hin : forall sel, In sel component_selectors -> sel ∈ component_selectors).
  { intros sel. apply list_elem_of_In. }
  destruct (classList_contains "blog-figure" d el) eqn:Ef.
  - exists (sel_class "blog-figure"). split; [apply Hin; simpl; auto 10|exact Ef].
  - rewrite orb_false_r in H.
    repeat (apply orb_prop in H as [H|H]).
    + exists (sel_class "blog-layout"). split; [apply Hin; simpl; auto 10|exact H].
    + exists (sel_class "blog-gallery"). split; [apply Hin; simpl; auto 10|exact H].
    + exists (sel_class "blog-hero"). split; [apply Hin; simpl; auto 10|exact H].
    + exists (sel_class "blog-quote"). split; [apply Hin; simpl; auto 10|exact H].
    + exists (sel_class "blog-comparison"). split; [apply Hin; simpl; auto 10|exact H].
    + exists (sel_class "blog-image-wrapper"). split; [apply Hin; simpl; auto 10|exact H].
    + exists sel_plain_figure. split; [apply Hin; simpl; auto 10|].
      unfold sel_plain_figure. rewrite H, Ef. reflexivity.
Qed.

(** X3 (the scan covers the root): after the scan every element of the
    root that is a component element carries a marker, and is found in
    the registry if it carried none before; every [<img>] of the root
    with the class [blog-image] or [editable] has a marked node at or
    above it. *)
Theorem scan_marks_every_component (st : State) (ed el : ref) :
  editor st = Some ed ->
  el ∈ descendants (document st) ed ->
  (isComponentElement (document st) el = true ->
   has_marker (document (scanExistingComponents st)) el = true
   /\ (has_marker (document st) el = false ->
       is_Some (getComponentByElement el (scanExistingComponents st))))
  /\ (sel_editable_img (document st) el = true ->
      is_Some (closest sel_marked (document (scanExistingComponents st)) el)).
Proof.
  intros Hed Hel. destruct (scan_registers st ed Hed) as (Hreg & Hall & Himg).
  assert (Hsame := registers_same _ _ Hreg).
  split.
  - intros (sel & Hsel & Hm)%isComponentElement_selected.
    assert (Hmark : has_marker (document (scanExistingComponents st)) el = true).
    { apply (Hall sel el Hsel). apply selected_iff.
      rewrite (same_descendants _ _ Hsame),
        (component_selectors_ignore sel Hsel _ _ Hsame). auto. }
    split; [exact Hmark|]. intros Hun.
    apply registers_keeps in Hreg. destruct Hreg as (_ & _ & _ & _ & _ & _ & _ & _ & _ & _ & Hcov).
    destruct (Hcov el Hmark) as [Hold|(m & Hm1 & Hm2)]; [congruence|].
    unfold getComponentByElement. rewrite Hmark, Hm1. exact Hm2.
  - intros Hi. apply Himg. apply selected_iff.
    rewrite (same_descendants _ _ Hsame), (sel_editable_img_ignores _ _ Hsame). auto.
Qed.

Lemma scan_marks_every_component_witness :
  has_marker (document (scanExistingComponents
                          (with_editor (Some 1%nat)
                             (new_ComponentManager figure_page ticking_clock
                                constant_random)))) 2 = true.
Proof.
  apply (scan_marks_every_component
           (with_editor (Some 1%nat)
              (new_ComponentManager figure_page ticking_clock constant_random)) 1 2).
  - reflexivity.
  - vm_compute. left.
  - vm_compute. reflexivity.
Defined.

(** X4 (the scan writes markers only): the scan changes nothing in the
    document but markers, and no marker that is there and not empty; a
    record it adds is about a node that carried no such marker; the
    output field, the listeners and the calls made to them are as they
    were. *)
Theorem scan_skips_marked_nodes (st : State) :
  same_but_markers (document st) (document (scanExistingComponents st))
  /\ (forall x, has_marker (document st) x = true ->
                dataset_componentId (document (scanExistingComponents st)) x
                = dataset_componentId (document st) x)
  /\ (forall i c, components (scanExistingComponents st) !! i = Some c ->
        components st !! i = Some c
        \/ exists el, element c = Some el /\ has_marker (document st) el = false)
  /\ contentInput (scanExistingComponents st) = contentInput st
  /\ changeListeners (scanExistingComponents st) = changeListeners st
  /\ calls (scanExistingComponents st) = calls st.
Proof.
  destruct (registers_keeps _ _ (scan_registers_any st))
    as (_ & Hi & Hl & Hc & Hd & _ & Hm & _ & _ & Hnew & _).
  split_and!; try assumption.
  intros i c Hic. destruct (Hnew i c Hic) as [?|(_ & el & ? & ? & _)]; eauto.
Qed.

(** ** The watcher *)

(** X5 (one registration per added node): the callback registers an
    added node at most once, as a component element if it is one and
    as an image otherwise, and only if it is an instance of
    [HTMLElement] without marker: a marked node, an element of SVG or
    MathML and a text node leave the state as it is. *)
Theorem on_added_registers_once (node : ref) (st : State) :
  on_added node st
  = if instanceof_HTMLElement (document st) node && negb (has_marker (document st) node)
    then if isComponentElement (document st) node then snd (registerElement node st)
         else if tag_is "IMG" (document st) node then snd (registerImage node st)
              else st
    else st.
Proof.
  unfold on_added.
  destruct (instanceof_HTMLElement (document st) node) eqn:Hel; [|reflexivity].
  destruct (has_marker (document st) node) eqn:Hm; cbn [negb andb].
  - rewrite andb_false_r, Hm, andb_false_r. reflexivity.
  - rewrite andb_true_r. destruct (isComponentElement (document st) node);
      [|rewrite Hm, andb_true_r; reflexivity].
    destruct (registerElement_stamped node st) as (t & p & -> & _).
    cbn [snd stamped document with_components with_document].
    rewrite has_marker_set, decide_True by (reflexivity || apply next_id_nonempty).
    rewrite bool_decide_eq_true_2 by (apply instanceof_HTMLElement_exists, Hel).
    rewrite andb_false_r. reflexivity.
Qed.

(** The scan selects by class and registers an [<svg>] that has a
    component class; the watcher asks for an [HTMLElement] and neither
    registers that element when it is added nor forgets it when it is
    removed. *)
Lemma watcher_skips_other_namespaces :
  let scanned := scanExistingComponents drawing_manager in
  isComponentElement (document drawing_manager) 2 = true
  /\ has_marker (document drawing_manager) 2 = false
  /\ on_added 2 drawing_manager = drawing_manager
  /\ size (components scanned) = 1
  /\ has_marker (document scanned) 2 = true
  /\ on_removed 2 scanned = scanned.
Proof.
  intros scanned.
  assert (E : instanceof_HTMLElement (document scanned) 2 = false)
    by (vm_compute; reflexivity).
  split; [vm_compute; reflexivity|]. split; [vm_compute; reflexivity|].
  split; [reflexivity|]. split; [vm_compute; reflexivity|].
  split; [vm_compute; reflexivity|].
  unfold on_removed. rewrite E. reflexivity.
Qed.

(** ** Reading back what an update wrote *)

Lemma mem_add_token (x t : string) (l : list string) :
  mem_string x (add_token t l) = mem_string x l || String.eqb x t.
Proof.
  unfold add_token, mem_string.
  destruct (existsb (String.eqb t) l) eqn:E.
  - destruct (String.eqb_spec x t) as [->|]; [|rewrite orb_false_r; reflexivity].
    rewrite E. reflexivity.
  - rewrite existsb_app. simpl. rewrite orb_false_r. reflexivity.
Qed.

Lemma closest_upto_update (f : Node -> Node) (r : ref) (d : DOM) (t : string) (fuel : nat) :
  keeps_shape f ->
  forall x, closest_upto fuel (sel_tag t) (update_node f r d) x
            = closest_upto fuel (sel_tag t) d x.
Proof.
  intros Hf. unfold sel_tag.
  induction fuel as [|k IH]; intros x; simpl; rewrite (tag_is_update f r d Hf);
    [reflexivity|].
  rewrite (parent_of_update f r d Hf). destruct (tag_is t d x); [reflexivity|].
  destruct (parent_of d x); [apply IH|reflexivity].
Qed.

Lemma classList_contains_patched (t : string) (l : Layout) (img : ref) (d : DOM) :
  is_Some (node_at d img) ->
  mem_string t layout_classes = true ->
  classList_contains t (update_node (layout_patch l) img d) img
  = match l with
    | L_inline | L_figure => false
    | _ => String.eqb t (layout_name l)
    end.
Proof.
  intros [n Hn] Ht. unfold classList_contains.
  rewrite node_at_update, decide_True, Hn by reflexivity.
  cbn [fmap option_fmap option_map layout_patch classList with_style with_classList].
  destruct l; cbn [class_patch]; rewrite ?mem_add_token, mem_remove_tokens by exact Ht;
    reflexivity.
Qed.

(** X6 (the layout read back): after [updateImage] with a layout, the
    layout that [detectImageLayout] reads from the patched element is
    the one written if it is a float or [center]; [inline] and
    [figure] leave no class, and read back as [figure] inside a
    [<figure>] and as [inline] elsewhere, whichever of the two was
    written. The record holds the layout written. *)
Theorem layout_read_back (i : string) (l : Layout) (st : State) (c : ComponentData)
    (img : ref) :
  components st !! i = Some c ->
  image_of c (document st) = Some img ->
  is_Some (node_at (document st) img) ->
  detectImageLayout (document (snd (updateImage i (layout_only l) st))) img
  = match l with
    | L_inline | L_figure =>
        match closest (sel_tag "FIGURE") (document st) img with
        | Some _ => L_figure
        | None => L_inline
        end
    | _ => l
    end
  /\ (exists c', components (snd (updateImage i (layout_only l) st)) !! i = Some c'
                 /\ props c' !! "layout" = Some (VString (layout_name l))).
Proof.
  intros Hc Hi Hn. unfold updateImage. rewrite Hc, Hi.
  cbn [snd layout_only ip_src ip_alt ip_width ip_layout when].
  unfold notifyListeners.
  cbn [document components with_calls].
  rewrite document_syncContent, components_syncContent.
  cbn [document components with_components with_document].
  split.
  - rewrite apply_layout_patch. unfold detectImageLayout.
    rewrite !classList_contains_patched by (assumption || reflexivity).
    unfold closest. rewrite depth_bound_update.
    rewrite closest_upto_update by apply layout_patch_keeps_shape.
    destruct l; reflexivity.
  - eexists. rewrite lookup_insert_eq. split; [reflexivity|].
    cbn [props with_props]. unfold spread. apply lookup_union_Some_l.
    unfold image_bag. cbn [ip_src ip_alt ip_width ip_layout ip_caption put fmap option_fmap
                             option_map layout_only].
    apply lookup_insert_eq.
Qed.

Lemma layout_read_back_witness :
  detectImageLayout (document (snd (updateImage photo_id (layout_only L_figure) photo_manager)))
    2 = L_inline.
Proof.
  apply (layout_read_back photo_id L_figure photo_manager
           (mkComponent photo_id T_image
              (<["layout" := VString "inline"]>
                 (<["width" := VString "100%"]>
                    (<["alt" := VString ""]> (<["src" := VString "p.png"]> ∅))))
              (Some 2%nat)) 2).
  - vm_compute. reflexivity.
  - reflexivity.
  - vm_compute. eauto.
Defined.

(** ** Text written and read back *)

Lemma node_at_alloc (n : Node) (d : DOM) (x : ref) :
  node_at (snd (alloc n d)) x = if decide (next_ref d = x) then Some n else node_at d x.
Proof.
  unfold alloc, node_at. cbn [snd nodes]. rewrite lookup_insert. reflexivity.
Qed.

Lemma descendants_upto_leaf (fuel : nat) (d : DOM) (x : ref) :
  children_of d x = [] -> descendants_upto fuel d x = [].
Proof. intros H. destruct fuel; simpl; [reflexivity|]. rewrite H. reflexivity. Qed.

Lemma orphans_next_ref (l : list ref) (d : DOM) :
  next_ref (fold_right (fun c acc => update_node (with_parentNode None) c acc) d l)
  = next_ref d.
Proof. induction l as [|c l IH]; simpl; [reflexivity|exact IH]. Qed.

Lemma orphans_exists (l : list ref) (d : DOM) (x : ref) :
  is_Some (node_at (fold_right (fun c acc => update_node (with_parentNode None) c acc) d l) x)
  <-> is_Some (node_at d x).
Proof.
  induction l as [|c l IH]; simpl; [reflexivity|].
  rewrite node_exists_update. exact IH.
Qed.

Lemma textContent_set (v : string) (r : ref) (d : DOM) :
  is_Some (node_at d r) ->
  (forall x, next_ref d <= x -> node_at d x = None) ->
  textContent (set_textContent v r d) r = v.
Proof.
  intros Hr Hfresh. unfold set_textContent, orphan_children.
  set (d0 := fold_right _ d (children_of d r)).
  assert (H0 : is_Some (node_at d0 r)) by (apply orphans_exists; exact Hr).
  assert (N0 : next_ref d0 = next_ref d) by apply orphans_next_ref.
  destruct H0 as [n0 H0].
  destruct (String.eqb_spec v "") as [->|Hv].
  - unfold textContent, descendants. rewrite descendants_upto_leaf; [reflexivity|].
    unfold children_of. rewrite node_at_update, decide_True, H0 by reflexivity. reflexivity.
  - set (d1 := update_node (with_childNodes []) r d0).
    assert (Hne : next_ref d1 <> r).
    { change (next_ref d1) with (next_ref d0). rewrite N0. intros <-.
      destruct Hr as [n Hn]. rewrite Hfresh in Hn by lia. discriminate. }
    change (let '(t, d2) := alloc (with_parentNode (Some r) (new_text v)) d1 in
            update_node (with_childNodes [t]) r d2)
      with (update_node (with_childNodes [next_ref d1]) r
              (snd (alloc (with_parentNode (Some r) (new_text v)) d1))).
    set (d3 := update_node _ r _).
    assert (Ht : node_at d3 (next_ref d1) = Some (with_parentNode (Some r) (new_text v))).
    { unfold d3. rewrite node_at_update, decide_False by (apply not_eq_sym, Hne).
      rewrite node_at_alloc, decide_True by reflexivity. reflexivity. }
    assert (Hk : children_of d3 r = [next_ref d1]).
    { unfold children_of, d3. rewrite node_at_update, decide_True by reflexivity.
      rewrite node_at_alloc, decide_False by exact Hne.
      unfold d1. rewrite node_at_update, decide_True, H0 by reflexivity. reflexivity. }
    destruct (depth_bound_positive d3 _ _ Ht) as [f Hf].
    unfold textContent, descendants. rewrite Hf. cbn [descendants_upto].
    rewrite Hk. cbn [flat_map]. rewrite descendants_upto_leaf.
    + cbn [app map]. unfold text_of. rewrite Ht. reflexivity.
    + unfold children_of. rewrite Ht. reflexivity.
Qed.

Lemma setAttribute_fresh (k v : string) (r : ref) (d : DOM) (f : ref) :
  is_Some (node_at d f) /\ (forall x, next_ref d <= x -> node_at d x = None) ->
  is_Some (node_at (setAttribute k v r d) f)
  /\ (forall x, next_ref (setAttribute k v r d) <= x -> node_at (setAttribute k v r d) x = None).
Proof.
  intros [H1 H2]. unfold setAttribute. split.
  - apply node_exists_update, H1.
  - intros x Hx. rewrite node_at_update. rewrite (H2 x Hx). case_decide; reflexivity.
Qed.

Lemma set_src_fresh (v : string) (r : ref) (d : DOM) (f : ref) :
  is_Some (node_at d f) /\ (forall x, next_ref d <= x -> node_at d x = None) ->
  is_Some (node_at (set_src v r d) f)
  /\ (forall x, next_ref (set_src v r d) <= x -> node_at (set_src v r d) x = None).
Proof.
  intros H. unfold set_src. destruct (tag_is "IMG" d r); [apply setAttribute_fresh|]; exact H.
Qed.

Lemma set_alt_fresh (v : string) (r : ref) (d : DOM) (f : ref) :
  is_Some (node_at d f) /\ (forall x, next_ref d <= x -> node_at d x = None) ->
  is_Some (node_at (set_alt v r d) f)
  /\ (forall x, next_ref (set_alt v r d) <= x -> node_at (set_alt v r d) x = None).
Proof.
  intros H. unfold set_alt. destruct (tag_is "IMG" d r); [apply setAttribute_fresh|]; exact H.
Qed.

(** X7 (the caption read back): after [updateComponent] on a figure
    that has a [<figcaption>], the text of the caption is the caption
    of the merged properties, the one given or else the one stored,
    whatever the caption held before; the record holds the same
    string. *)
Theorem caption_read_back (i s : string) (updates : Props) (st : State)
    (c : ComponentData) (el f : ref) :
  components st !! i = Some c ->
  type c = T_figure ->
  element c = Some el ->
  querySelector (sel_tag "FIGCAPTION") (document st) el = Some f ->
  (forall x, next_ref (document st) <= x -> node_at (document st) x = None) ->
  spread (props c) updates !! "caption" = Some (VString s) ->
  fst (updateComponent i updates st) = true
  /\ textContent (document (snd (updateComponent i updates st))) f = s
  /\ (exists c', components (snd (updateComponent i updates st)) !! i = Some c'
                 /\ props c' !! "caption" = Some (VString s)).
Proof.
  intros Hc Ht He Hf Hfresh Hcap. unfold updateComponent. rewrite Hc, He.
  cbn [fst snd]. split; [reflexivity|].
  unfold notifyListeners. cbn [document components with_calls].
  rewrite document_syncContent, components_syncContent.
  cbn [document components with_components with_document].
  split.
  - unfold applyUpdatesToDOM. cbn [element type props with_props]. rewrite He, Ht, Hf, Hcap.
    cbn [defined js_string].
    assert (Hex : is_Some (node_at (document st) f)).
    { unfold querySelector in Hf. apply head_Some_elem_of in Hf.
      eapply selected_exists; [|exact Hf]. intros x. apply tag_is_exists. }
    set (img := querySelector (sel_tag "IMG") (document st) el).
    set (p' := spread (props c) updates).
    set (d1 := match img with
               | Some i0 => if truthy (p' !! "src")
                            then set_src (js_string (p' !! "src")) i0 (document st)
                            else document st
               | None => document st
               end).
    set (d2 := match img with
               | Some i0 => if truthy (p' !! "alt")
                            then set_alt (js_string (p' !! "alt")) i0 d1
                            else d1
               | None => d1
               end).
    assert (H1 : is_Some (node_at d1 f)
                 /\ (forall x, next_ref d1 <= x -> node_at d1 x = None)).
    { unfold d1. destruct img; [|auto]. destruct (truthy _); [|auto].
      apply set_src_fresh. auto. }
    clearbody d1.
    assert (H2 : is_Some (node_at d2 f)
                 /\ (forall x, next_ref d2 <= x -> node_at d2 x = None)).
    { unfold d2. destruct img; [|auto]. destruct (truthy _); [|auto].
      apply set_alt_fresh. auto. }
    apply textContent_set; apply H2.
  - eexists. rewrite lookup_insert_eq. split; [reflexivity|exact Hcap].
Qed.

Lemma caption_read_back_witness :
  textContent
    (document (snd (updateComponent figure_id {["caption" := VString "B"]} figure_manager)))
    4 = "B".
Proof.
  apply (caption_read_back figure_id "B" {["caption" := VString "B"]} figure_manager
           (mkComponent figure_id T_figure
              (<["caption" := VString "A"]>
                 (<["alt" := VString ""]> (<["src" := VString "a.png"]> ∅)))
              (Some 2%nat)) 2 4).
  - vm_compute. reflexivity.
  - reflexivity.
  - reflexivity.
  - vm_compute. reflexivity.
  - assert (Hwf : wf_dom (document figure_manager))
      by (apply wf_dom_b_spec; vm_compute; reflexivity).
    apply (wf_region _ Hwf).
  - vm_compute. reflexivity.
Defined.

(** ** Updating an inserted image *)

Section Extends.

Context {A : Type} (g : Node -> A).

Lemma extends_refl (d : DOM) : extends g d d.
Proof. split; [lia|reflexivity]. Qed.

Lemma extends_trans (a b c : DOM) : extends g a b -> extends g b c -> extends g a c.
Proof.
  intros [H1 H2] [H3 H4]. split; [lia|].
  intros x Hx. rewrite H4 by lia. apply H2, Hx.
Qed.

Lemma extends_update (f : Node -> Node) (r : ref) (d : DOM) :
  (forall n, g (f n) = g n) -> extends g d (update_node f r d).
Proof.
  intros Hf. split; [reflexivity|]. intros x _.
  rewrite node_at_update. destruct (decide (r = x)); [|reflexivity].
  destruct (node_at d x); simpl; [rewrite Hf|]; reflexivity.
Qed.

Lemma extends_alloc (n : Node) (d : DOM) : extends g d (snd (alloc n d)).
Proof.
  split; [simpl; lia|]. intros x Hx.
  rewrite node_at_alloc, decide_False by lia. reflexivity.
Qed.

End Extends.

Ltac extends_layer :=
  first [ apply extends_update; intros []; reflexivity
        | apply extends_alloc ].

Ltac extends_chain :=
  repeat (eapply extends_trans; [|extends_layer]); apply extends_refl.

Section ExtendsTree.

(** What the operations on the tree leave alone: anything that does
    not depend on the children, the parent and the character data. *)
Context {A : Type} (g : Node -> A).
Hypothesis Hchildren : forall c n, g (with_childNodes c n) = g n.
Hypothesis Hparent : forall p n, g (with_parentNode p n) = g n.
Hypothesis Hdata : forall s n, g (with_data s n) = g n.

Lemma extends_remove (r : ref) (d : DOM) : extends g d (remove r d).
Proof.
  unfold remove. destruct (parent_of d r); [|apply extends_refl].
  eapply extends_trans; apply extends_update; intros ?; [apply Hchildren|apply Hparent].
Qed.

Lemma extends_insertBefore (p new : ref) (b : option ref) (d : DOM) :
  extends g d (insertBefore p new b d).
Proof.
  unfold insertBefore.
  eapply extends_trans; [|apply extends_update; intros ?; apply Hparent].
  eapply extends_trans; [|apply extends_update; intros ?; apply Hchildren].
  apply extends_remove.
Qed.

Lemma extends_after (r new : ref) (d : DOM) : extends g d (after r new d).
Proof.
  unfold after. destruct (parent_of d r); [apply extends_insertBefore|apply extends_refl].
Qed.

Lemma extends_orphans (l : list ref) (d : DOM) :
  extends g d (fold_right (fun c acc => update_node (with_parentNode None) c acc) d l).
Proof.
  induction l as [|c l IH]; simpl; [apply extends_refl|].
  eapply extends_trans; [exact IH|apply extends_update; intros ?; apply Hparent].
Qed.

Lemma extends_br (r : ref) (d : DOM) : extends g d (set_innerHTML_br r d).
Proof.
  unfold set_innerHTML_br, orphan_children.
  set (d1 := update_node (with_childNodes []) r _).
  change (let '(b, d2) := alloc (with_parentNode (Some r) (new_element "BR")) d1 in
          update_node (with_childNodes [b]) r d2)
    with (update_node (with_childNodes [next_ref d1]) r
            (snd (alloc (with_parentNode (Some r) (new_element "BR")) d1))).
  eapply extends_trans; [|apply extends_update; intros ?; apply Hchildren].
  eapply extends_trans; [|apply extends_alloc].
  unfold d1.
  eapply extends_trans; [|apply extends_update; intros ?; apply Hchildren].
  apply extends_orphans.
Qed.

Lemma extends_paragraph (d : DOM) :
  fst (empty_paragraph d) = next_ref d /\ extends g d (snd (empty_paragraph d)).
Proof.
  unfold empty_paragraph, createElement.
  change (let '(p, d1) := alloc (new_element "P") d in (p, set_innerHTML_br p d1))
    with (next_ref d, set_innerHTML_br (next_ref d) (snd (alloc (new_element "P") d))).
  split; [reflexivity|]. cbn [snd].
  eapply extends_trans; [apply extends_alloc|apply extends_br].
Qed.

Lemma extends_insertNode (rg : Range) (new : ref) (d d' : DOM) :
  insertNode rg new d = Some d' -> extends g d d'.
Proof.
  unfold insertNode. destruct (node_at d (startContainer rg)) as [n|]; [|discriminate].
  destruct (nodeType n).
  - intros [= <-]. apply extends_insertBefore.
  - destruct (parentNode n) as [p|]; [|discriminate].
    set (txt := new_text _).
    change (let '(t2, d1) := alloc txt d in
            let d2 := update_node (with_data (substring 0 (startOffset rg) (data n)))
                        (startContainer rg) d1 in
            let d3 := insertBefore p t2 (nextSibling d2 (startContainer rg)) d2 in
            Some (insertBefore p new (Some t2) d3))
      with (let d2 := update_node (with_data (substring 0 (startOffset rg) (data n)))
                        (startContainer rg) (snd (alloc txt d)) in
            let d3 := insertBefore p (next_ref d) (nextSibling d2 (startContainer rg)) d2 in
            Some (insertBefore p new (Some (next_ref d)) d3)).
    cbv zeta. intros [= <-].
    eapply extends_trans; [|apply extends_insertBefore].
    eapply extends_trans; [|apply extends_insertBefore].
    eapply extends_trans; [|apply extends_update; intros ?; apply Hdata].
    apply extends_alloc.
Qed.

End ExtendsTree.

Lemma extends_set_src {A : Type} (g : Node -> A) (v : string) (r : ref) (d : DOM) :
  (forall a n, g (with_attributes a n) = g n) -> extends g d (set_src v r d).
Proof.
  intros Hg. unfold set_src, setAttribute.
  destruct (tag_is "IMG" d r); [|apply extends_refl].
  apply extends_update. intros ?. apply Hg.
Qed.

Lemma extends_set_alt {A : Type} (g : Node -> A) (v : string) (r : ref) (d : DOM) :
  (forall a n, g (with_attributes a n) = g n) -> extends g d (set_alt v r d).
Proof.
  intros Hg. unfold set_alt, setAttribute.
  destruct (tag_is "IMG" d r); [|apply extends_refl].
  apply extends_update. intros ?. apply Hg.
Qed.

Lemma extends_style_set {A : Type} (g : Node -> A) (p v : string) (r : ref) (d : DOM) :
  (forall s n, g (with_style s n) = g n) -> extends g d (style_set p v r d).
Proof. intros Hg. unfold style_set. apply extends_update. intros ?. apply Hg. Qed.

Lemma tag_is_read (t : string) (d : DOM) (x : ref) :
  tag_is t d x = match tagName <$> node_at d x with
                 | Some s => String.eqb s t
                 | None => false
                 end.
Proof. unfold tag_is. destruct (node_at d x); reflexivity. Qed.

Lemma dataset_componentId_read (d : DOM) (x : ref) :
  dataset_componentId d x = mjoin (componentId <$> node_at d x).
Proof. unfold dataset_componentId. destruct (node_at d x); reflexivity. Qed.

(** The wrapper that [image_fragment] builds is a [<div>] marked with
    the id; the fragment is made of new nodes. *)
Lemma image_fragment_wrapper (i src alt width : string) (layout : Layout) (d : DOM) :
  fst (image_fragment i src alt width layout d) = next_ref d
  /\ next_ref d < next_ref (snd (image_fragment i src alt width layout d))
  /\ tagName <$> node_at (snd (image_fragment i src alt width layout d)) (next_ref d)
     = Some "DIV"
  /\ componentId <$> node_at (snd (image_fragment i src alt width layout d)) (next_ref d)
     = Some (Some i).
Proof.
  unfold image_fragment, new_wrapper, new_image, createElement.
  set (d1 := snd (alloc (new_element "DIV") d)).
  set (d1' := set_className "blog-image-wrapper" (next_ref d) d1).
  set (d1'' := set_componentId i (next_ref d) d1').
  set (dw := style_set "margin" "1rem 0" (next_ref d) d1'').
  set (cls := "blog-image editable " +:+ _).
  set (d2 := snd (alloc (new_element "IMG") dw)).
  set (di := style_set "display" "block" (next_ref dw)
               (style_set "cursor" "pointer" (next_ref dw)
                  (style_set "height" "auto" (next_ref dw)
                     (style_set "width" width (next_ref dw)
                        (style_set "max-width" "100%" (next_ref dw)
                           (set_className cls (next_ref dw)
                              (set_alt alt (next_ref dw)
                                 (set_src src (next_ref dw) d2)))))))).
  change (let '(wrapper, d3) := let '(wrapper, d4) := alloc (new_element "DIV") d in
                                (wrapper,
                                 style_set "margin" "1rem 0" wrapper
                                   (set_componentId i wrapper
                                      (set_className "blog-image-wrapper" wrapper d4))) in
          let '(img, d4) := let '(img, d5) := alloc (new_element "IMG") d3 in
                            (img,
                             style_set "display" "block" img
                               (style_set "cursor" "pointer" img
                                  (style_set "height" "auto" img
                                     (style_set "width" width img
                                        (style_set "max-width" "100%" img
                                           (set_className cls img
                                              (set_alt alt img (set_src src img d5)))))))) in
          (wrapper, appendChild wrapper img d4))
    with (next_ref d, appendChild (next_ref d) (next_ref dw) di).
  cbn [fst snd].
  assert (N1 : next_ref d1 = S (next_ref d)) by reflexivity.
  assert (E1 : node_at d1 (next_ref d) = Some (new_element "DIV")).
  { unfold d1. rewrite node_at_alloc, decide_True by reflexivity. reflexivity. }
  clearbody d1.
  assert (Nw : next_ref dw = next_ref d1) by reflexivity.
  assert (Ew : exists n, node_at dw (next_ref d) = Some n /\ tagName n = "DIV"
                         /\ componentId n = Some i).
  { unfold dw, d1'', d1', style_set, set_componentId, set_className.
    rewrite !node_at_update, !decide_True, E1 by reflexivity.
    eexists. split; [reflexivity|]. split; reflexivity. }
  clearbody dw.
  assert (H2 : forall {A : Type} (g : Node -> A), extends g dw d2)
    by (intros; apply extends_alloc).
  clearbody d2.
  assert (Hi : forall {A : Type} (g : Node -> A),
             (forall c n, g (with_childNodes c n) = g n) ->
             (forall p n, g (with_parentNode p n) = g n) ->
             (forall a n, g (with_attributes a n) = g n) ->
             (forall s n, g (with_style s n) = g n) ->
             (forall c n, g (with_classList c n) = g n) ->
             extends g dw (appendChild (next_ref d) (next_ref dw) di)).
  { intros A g G1 G2 G3 G4 G5. unfold appendChild.
    eapply extends_trans; [|apply extends_insertBefore; assumption].
    unfold di, set_className.
    repeat (eapply extends_trans; [|apply extends_style_set; assumption]).
    eapply extends_trans; [|apply extends_update; intros ?; apply G5].
    eapply extends_trans; [|apply extends_set_alt; assumption].
    eapply extends_trans; [|apply extends_set_src; assumption].
    apply H2. }
  destruct Ew as (n & En & Et & Em).
  split; [reflexivity|].
  destruct (Hi _ tagName) as [Hi1 Hi2]; try (intros ? []; reflexivity).
  destruct (Hi _ componentId) as [_ Hi3]; try (intros ? []; reflexivity).
  split; [lia|]. split.
  - rewrite Hi2 by lia. rewrite En. simpl. rewrite Et. reflexivity.
  - rewrite Hi3 by lia. rewrite En. simpl. rewrite Em. reflexivity.
Qed.

(** What [insertImage] leaves, when it returns an id. *)
Lemma insertImage_returns (src alt : string) (options : ImageProps)
    (selection : option Range) (st : State) (ed : ref) (i : string) :
  editor st = Some ed ->
  fst (insertImage src alt options selection st) = Returns i ->
  exists X bag,
    snd (insertImage src alt options selection st) = syncContent X
    /\ i = next_id st
    /\ editor X = Some ed
    /\ changeListeners X = changeListeners st /\ calls X = calls st
    /\ components X
       = <[i := mkComponent i T_image bag (Some (next_ref (document st)))]> (components st)
    /\ bag !! "src" = Some (VString src)
    /\ tag_is "DIV" (document X) (next_ref (document st)) = true
    /\ dataset_componentId (document X) (next_ref (document st)) = Some i.
Proof.
  intros Hed. unfold insertImage. rewrite Hed. unfold generateId.
  set (width := or_else _ "100%"). set (layout := default L_inline _).
  set (st0 := with_draws (S (draws st)) st).
  destruct (image_fragment_wrapper (next_id st) src alt width layout (document st))
    as (F1 & F2 & F3 & F4).
  change (document st) with (document st0) in F1, F2, F3, F4 |- *.
  cbv beta iota.
  destruct (image_fragment (next_id st) src alt width layout (document st0))
    as [w d5] eqn:Ef.
  cbn [fst snd] in F1, F2, F3, F4. subst w.
  set (ins := match selection with
              | Some range => insertNode range (next_ref (document st0)) d5
              | None => Some (appendChild ed (next_ref (document st0)) d5)
              end).
  destruct ins as [d6|] eqn:Ei; [|discriminate].
  assert (H6 : forall {A : Type} (g : Node -> A),
             (forall c n, g (with_childNodes c n) = g n) ->
             (forall p n, g (with_parentNode p n) = g n) ->
             (forall s n, g (with_data s n) = g n) ->
             extends g d5 d6).
  { intros A g G1 G2 G3. unfold ins in Ei. destruct selection as [rg|].
    - eapply extends_insertNode; eassumption.
    - injection Ei as <-. apply extends_insertBefore; assumption. }
  assert (P := fun A (g : Node -> A) G1 G2 => extends_paragraph g G1 G2 d6).
  destruct (empty_paragraph d6) as [pp d7] eqn:Ep. cbn [fst snd] in P.
  cbn [fst snd]. intros [= <-].
  set (d8 := after (next_ref (document st0)) pp d7).
  assert (H8 : forall {A : Type} (g : Node -> A),
             (forall c n, g (with_childNodes c n) = g n) ->
             (forall p n, g (with_parentNode p n) = g n) ->
             (forall s n, g (with_data s n) = g n) ->
             g <$> node_at d8 (next_ref (document st0))
             = g <$> node_at d5 (next_ref (document st0))).
  { intros A g G1 G2 G3.
    destruct (H6 A g G1 G2 G3) as [A1 A2], (P A g G1 G2) as [_ [B1 B2]],
      (extends_after g G1 G2 (next_ref (document st0)) pp d7) as [C1 C2].
    unfold d8. rewrite C2, B2, A2 by lia. reflexivity. }
  eexists (with_components _ (with_document d8 st0)), _.
  split; [reflexivity|]. split; [reflexivity|].
  cbn [editor changeListeners calls components document with_components with_document].
  split; [exact Hed|]. split; [reflexivity|]. split; [reflexivity|].
  split; [reflexivity|]. split.
  { rewrite !lookup_insert_ne by discriminate. apply lookup_insert_eq. }
  split.
  - rewrite tag_is_read, H8, F3 by (intros ? []; reflexivity). reflexivity.
  - rewrite dataset_componentId_read, H8, F4 by (intros ? []; reflexivity). reflexivity.
Qed.



(** ** Removal *)

Lemma children_of_update_node (f : Node -> Node) (r x : ref) (d : DOM) :
  children_of (update_node f r d) x
  = if decide (r = x)
    then match node_at d x with Some n => childNodes (f n) | None => [] end
    else children_of d x.
Proof.
  unfold children_of. rewrite node_at_update. destruct (decide (r = x)); [|reflexivity].
  destruct (node_at d x); reflexivity.
Qed.

Lemma descendant_listed (fuel : nat) (d : DOM) :
  forall r x, x ∈ descendants_upto fuel d r -> exists q, x ∈ children_of d q.
Proof.
  induction fuel as [|f IH]; intros r x; simpl; [intros H; inversion H|].
  intros H. apply list_elem_of_In, in_flat_map in H as (c & Hc & Hx).
  destruct Hx as [<-|Hx].
  - exists r. apply list_elem_of_In, Hc.
  - apply (IH c). apply list_elem_of_In, Hx.
Qed.

Lemma listed_child (d : DOM) (q x : ref) :
  wf_dom d -> x ∈ children_of d q -> parent_of d x = Some q.
Proof.
  intros Hwf. unfold children_of. destruct (node_at d q) as [n|] eqn:E;
    [|intros H; inversion H].
  intros Hx. destruct (Hwf q n E) as (_ & Hk & _). apply Hk, Hx.
Qed.

Lemma remove_unlists (el : ref) (d : DOM) :
  wf_dom d -> forall q, el ∉ children_of (remove el d) q.
Proof.
  intros Hwf q Hin. unfold remove in Hin.
  destruct (parent_of d el) as [p|] eqn:Ep.
  - assert (Hpe : p <> el).
    { unfold parent_of in Ep. destruct (node_at d el) as [n|] eqn:En; [|discriminate].
      destruct (Hwf el n En) as (_ & _ & _ & Hp). apply (Hp p Ep). }
    rewrite children_of_update_node in Hin. case_decide as E1.
    + subst q. rewrite node_at_update, decide_False in Hin by exact Hpe.
      assert (Hin' : el ∈ children_of d el).
      { unfold children_of. destruct (node_at d el); [exact Hin|inversion Hin]. }
      apply (listed_child d el el Hwf) in Hin'. congruence.
    + rewrite children_of_update_node in Hin. case_decide as E2.
      * destruct (node_at d q); [|inversion Hin].
        cbn [childNodes with_childNodes] in Hin.
        apply list_elem_of_filter in Hin as [Hne _]. apply Hne. reflexivity.
      * apply (listed_child d q el Hwf) in Hin. congruence.
  - apply (listed_child d q el Hwf) in Hin. congruence.
Qed.

(** X9 (a removed component is gone): after a successful
    [removeComponent] the id resolves to nothing and the other records
    are as they were; the element has no parent and is a descendant of
    no node; it keeps its marker, under which nothing is found. *)
Theorem removed_component_is_gone (i : string) (st : State) (c : ComponentData) (el : ref) :
  wf_dom (document st) ->
  components st !! i = Some c ->
  element c = Some el ->
  fst (removeComponent i st) = true
  /\ getComponent i (snd (removeComponent i st)) = None
  /\ (forall j, j <> i ->
        getComponent j (snd (removeComponent i st)) = getComponent j st)
  /\ (forall r, el ∉ descendants (document (snd (removeComponent i st))) r)
  /\ parent_of (document (snd (removeComponent i st))) el = None
  /\ dataset_componentId (document (snd (removeComponent i st))) el
     = dataset_componentId (document st) el.
Proof.
  intros Hwf Hc He. unfold removeComponent, getComponent. rewrite Hc, He. cbn [fst snd].
  rewrite components_syncContent, document_syncContent.
  cbn [components document with_components with_document].
  split_and!.
  - reflexivity.
  - apply lookup_delete_eq.
  - intros j Hj. apply lookup_delete_ne. congruence.
  - intros r Hin. apply descendant_listed in Hin as [q Hq].
    exact (remove_unlists el (document st) Hwf q Hq).
  - unfold remove. destruct (parent_of (document st) el) as [p|] eqn:Ep; [|exact Ep].
    unfold parent_of. rewrite node_at_update, decide_True by reflexivity.
    destruct (node_at _ el); reflexivity.
  - apply dataset_componentId_remove.
Qed.

Lemma removed_component_is_gone_witness :
  getComponent figure_id (snd (removeComponent figure_id figure_manager)) = None
  /\ parent_of (document (snd (removeComponent figure_id figure_manager))) 2 = None.
Proof.
  assert (Hwf : wf_dom (document figure_manager))
    by (apply wf_dom_b_spec; vm_compute; reflexivity).
  assert (Hc : exists c, components figure_manager !! figure_id = Some c
                         /\ element c = Some 2%nat).
  { eexists. split; vm_compute; reflexivity. }
  destruct Hc as (c & Hc & He).
  destruct (removed_component_is_gone figure_id figure_manager c 2 Hwf Hc He)
    as (_ & H2 & _ & _ & H5 & _).
  split; assumption.
Defined.

(** ** Ids that are not registered *)

(** X10 (no element, no effect): an id that is not registered, or whose
    record names no element, is refused by every operation that takes
    an id, and the state stays as it is. *)
Theorem unknown_id_is_refused (i : string) (updates : Props) (p : ImageProps) (st : State) :
  components st !! i = None
  \/ (exists c, components st !! i = Some c /\ element c = None) ->
  updateComponent i updates st = (false, st)
  /\ updateImage i p st = (false, st)
  /\ removeComponent i st = (false, st)
  /\ duplicateComponent i st = (None, st).
Proof.
  unfold updateComponent, updateImage, removeComponent, duplicateComponent, image_of.
  intros [->|(c & -> & He)]; [repeat split|].
  rewrite He. destruct (type c); repeat split.
Qed.

Lemma unknown_id_is_refused_witness :
  removeComponent "nonexistent-id" figure_manager = (false, figure_manager)
  /\ duplicateComponent "nonexistent-id" figure_manager = (None, figure_manager).
Proof.
  destruct (unknown_id_is_refused "nonexistent-id" ∅ center_options figure_manager)
    as (_ & _ & H3 & H4).
  - left. vm_compute. reflexivity.
  - split; assumption.
Defined.

(** ** Listeners *)

Lemma perform_calls (m : Mutation) (s : State) :
  changeListeners (snd (perform m s)) = changeListeners s
  /\ exists i c, calls (snd (perform m s)) = calls s
                 \/ calls (snd (perform m s))
                    = calls s ++ map (fun l => (l, i, c)) (changeListeners s).
Proof.
  destruct m as [i u | i p | sr a o sel | i | i]; cbn [perform snd].
  - unfold updateComponent.
    destruct (components s !! i) as [c|]; [|split; [reflexivity|exists "", (mkComponent "" T_image ∅ None); left; reflexivity]].
    destruct (element c);
      [|split; [reflexivity|exists "", c; left; reflexivity]].
    cbn [snd]. unfold notifyListeners. cbn [calls changeListeners with_calls].
    rewrite calls_syncContent, changeListeners_syncContent.
    split; [reflexivity|]. eexists _, _. right. reflexivity.
  - unfold updateImage.
    destruct (components s !! i) as [c|]; [|split; [reflexivity|exists "", (mkComponent "" T_image ∅ None); left; reflexivity]].
    destruct (image_of c (document s));
      [|split; [reflexivity|exists "", c; left; reflexivity]].
    cbn [snd]. unfold notifyListeners. cbn [calls changeListeners with_calls].
    rewrite calls_syncContent, changeListeners_syncContent.
    split; [reflexivity|]. eexists _, _. right. reflexivity.
  - assert (H : changeListeners (snd (insertImage sr a o sel s)) = changeListeners s
                /\ calls (snd (insertImage sr a o sel s)) = calls s).
    { unfold insertImage. destruct (editor s); [|split; reflexivity].
      unfold generateId. cbv beta iota.
      destruct (image_fragment _ _ _ _ _ _) as [w d5].
      match goal with |- context [match ?x with Some _ => _ | None => _ end] =>
        destruct x end; [|split; reflexivity].
      destruct (empty_paragraph _) as [pp d7]. cbn [snd].
      rewrite calls_syncContent, changeListeners_syncContent. split; reflexivity. }
    destruct H as [H1 H2]. split; [exact H1|].
    exists "", (mkComponent "" T_image ∅ None). left. exact H2.
  - unfold removeComponent.
    destruct (components s !! i) as [c|]; [|split; [reflexivity|exists "", (mkComponent "" T_image ∅ None); left; reflexivity]].
    destruct (element c);
      [|split; [reflexivity|exists "", c; left; reflexivity]].
    cbn [snd]. rewrite calls_syncContent, changeListeners_syncContent.
    split; [reflexivity|]. exists "", c. left. reflexivity.
  - unfold duplicateComponent.
    destruct (components s !! i) as [c|]; [|split; [reflexivity|exists "", (mkComponent "" T_image ∅ None); left; reflexivity]].
    destruct (element c) as [el|];
      [|split; [reflexivity|exists "", c; left; reflexivity]].
    destruct (cloneNode (document s) el) as [clone d1].
    unfold generateId. cbn [snd].
    rewrite calls_syncContent, changeListeners_syncContent.
    split; [reflexivity|]. exists "", c. left. reflexivity.
Qed.

Lemma onChange_member (l : nat) (s : State) :
  onChange l (onChange l s) = onChange l s /\ calls (onChange l s) = calls s.
Proof.
  assert (E : onChange l s
              = if bool_decide (l ∈ changeListeners s) then s
                else with_changeListeners (changeListeners s ++ [l]) s) by reflexivity.
  destruct (decide (l ∈ changeListeners s)) as [H|H].
  - rewrite bool_decide_eq_true_2 in E by exact H. rewrite !E. split; reflexivity.
  - rewrite bool_decide_eq_false_2 in E by exact H. rewrite !E. split; [|reflexivity].
    unfold onChange. cbn [changeListeners with_changeListeners].
    rewrite bool_decide_eq_true_2; [reflexivity|].
    apply elem_of_app. right. left.
Qed.

(** X11 (a set of listeners): subscribing a listener again changes
    nothing, and a listener that has been unsubscribed once, however
    often it was subscribed, is not called by any later mutation. *)
Theorem unsubscribed_listener_is_silent (l n : nat) (m : Mutation) (st : State)
    (i : string) (c : ComponentData) :
  onChange l (onChange l st) = onChange l st
  /\ (l ∉ changeListeners (unsubscribe l (Nat.iter n (onChange l) st)))
  /\ ((l, i, c) ∈ calls (snd (perform m (unsubscribe l (Nat.iter n (onChange l) st)))) ->
      (l, i, c) ∈ calls st).
Proof.
  split; [apply onChange_member|].
  assert (Hnot : l ∉ changeListeners (unsubscribe l (Nat.iter n (onChange l) st))).
  { unfold unsubscribe. cbn [changeListeners with_changeListeners].
    intros H%list_elem_of_filter. tauto. }
  split; [exact Hnot|].
  assert (Hcalls : calls (unsubscribe l (Nat.iter n (onChange l) st)) = calls st).
  { unfold unsubscribe. cbn [calls with_changeListeners]. clear Hnot.
    induction n as [|k IH]; [reflexivity|].
    change (Nat.iter (S k) (onChange l) st) with (onChange l (Nat.iter k (onChange l) st)).
    rewrite (proj2 (onChange_member l _)). exact IH. }
  destruct (perform_calls m (unsubscribe l (Nat.iter n (onChange l) st)))
    as (_ & j & cj & [E|E]); rewrite E, Hcalls; [trivial|].
  intros [H|H]%elem_of_app; [exact H|].
  apply list_elem_of_fmap in H as (l' & [= <- _ _] & Hl'). contradiction.
Qed.

(** ** The watcher and the engine's own changes *)

Lemma on_added_marked_node (node : ref) (st : State) :
  has_marker (document st) node = true -> on_added node st = st.
Proof.
  intros Hm. unfold on_added. destruct (instanceof_HTMLElement (document st) node); [|reflexivity].
  rewrite Hm. cbn [negb]. rewrite andb_false_r, Hm. cbn [negb].
  rewrite andb_false_r. reflexivity.
Qed.

Lemma with_components_same (s : State) : with_components (components s) s = s.
Proof. destruct s; reflexivity. Qed.

Lemma has_marker_syncContent (s : State) (x : ref) :
  has_marker (document (syncContent s)) x = has_marker (document s) x.
Proof. rewrite document_syncContent. reflexivity. Qed.

(** X12 (the watcher after an insertion): the wrapper that [insertImage]
    has put into the document carries its marker, so the watcher, told
    of the new node, registers nothing and leaves the state as it is. *)
Theorem watcher_after_insertImage (src alt : string) (options : ImageProps)
    (selection : option Range) (st : State) (ed : ref) (i : string) :
  editor st = Some ed ->
  fst (insertImage src alt options selection st) = Returns i ->
  getComponentByElement (next_ref (document st))
    (snd (insertImage src alt options selection st))
  = getComponent i (snd (insertImage src alt options selection st))
  /\ mutation_callback [mkMutation [] [next_ref (document st)]]
       (snd (insertImage src alt options selection st))
     = snd (insertImage src alt options selection st).
Proof.
  intros Hed Hret.
  destruct (insertImage_returns src alt options selection st ed i Hed Hret)
    as (X & bag & -> & Hi & _ & _ & _ & _ & _ & _ & Hm).
  assert (Hmark : has_marker (document (syncContent X)) (next_ref (document st)) = true).
  { rewrite has_marker_syncContent. unfold has_marker. rewrite Hm.
    destruct (String.eqb_spec i ""); [|reflexivity].
    subst i. destruct (next_id_nonempty st). congruence. }
  split.
  - unfold getComponentByElement, getComponent. rewrite Hmark, document_syncContent, Hm.
    reflexivity.
  - unfold mutation_callback. cbn [fold_left removedNodes addedNodes].
    apply on_added_marked_node, Hmark.
Qed.

Lemma watcher_after_insertImage_witness :
  mutation_callback [mkMutation [] [next_ref (document empty_manager)]]
    (snd (insertImage "https://x/img.png" "cat" center_options None empty_manager))
  = snd (insertImage "https://x/img.png" "cat" center_options None empty_manager).
Proof.
  apply (watcher_after_insertImage "https://x/img.png" "cat" center_options None
           empty_manager 1 (next_id empty_manager)); reflexivity.
Defined.

(** X13 (the watcher after a removal or a duplication): when the
    entries carry their markers, the watcher, told that the element of
    a removed component has left the document, finds nothing to delete;
    told of the copy that [duplicateComponent] has put in, it registers
    nothing. *)
Theorem watcher_after_remove_or_duplicate (i : string) (st : State) (c : ComponentData)
    (el p : ref) :
  entries_marked st ->
  wf_dom (document st) ->
  components st !! i = Some c ->
  element c = Some el ->
  parent_of (document st) el = Some p ->
  mutation_callback [mkMutation [el] []] (snd (removeComponent i st))
  = snd (removeComponent i st)
  /\ mutation_callback [mkMutation [] [next_ref (document st)]]
       (snd (duplicateComponent i st))
     = snd (duplicateComponent i st).
Proof.
  intros Hinv Hwf Hc He Hp. split.
  - unfold mutation_callback. cbn [fold_left removedNodes addedNodes].
    unfold removeComponent. rewrite Hc, He. cbn [snd].
    set (s1 := syncContent _).
    assert (Hm : dataset_componentId (document s1) el = Some i).
    { unfold s1. rewrite document_syncContent. cbn [document with_components with_document].
      rewrite dataset_componentId_remove.
      destruct (Hinv i c Hc) as (_ & _ & e & He' & Hm). congruence. }
    assert (Hcs : components s1 = delete i (components st)).
    { unfold s1. rewrite components_syncContent. reflexivity. }
    unfold on_removed. destruct (_ && _); [|reflexivity].
    rewrite Hm, Hcs, delete_delete_eq, <- Hcs. apply with_components_same.
  - unfold mutation_callback. cbn [fold_left removedNodes addedNodes].
    apply on_added_marked_node.
    unfold duplicateComponent. rewrite Hc, He.
    destruct (clone_made st el p Hwf Hp)
      as (d1 & kids & n & f & Hn & Hclone & Hin & Hreg & Hd1 & Hkids & Hf & Hcopy).
    rewrite Hclone. unfold generateId. cbn [snd].
    rewrite has_marker_syncContent. cbn [document with_components with_document with_draws].
    destruct (duplicate_placed st el p Hwf Hp d1 kids n f Hn Hin Hreg Hd1 Hkids Hcopy)
      as (_ & _ & Hnode & _).
    cbv zeta in Hnode.
    unfold has_marker, dataset_componentId, node_at. rewrite Hnode.
    cbn [componentId with_componentId].
    destruct (String.eqb_spec (next_id st) ""); [|reflexivity].
    destruct (next_id_nonempty st). assumption.
Qed.

Lemma watcher_after_remove_or_duplicate_witness :
  mutation_callback [mkMutation [2%nat] []] (snd (removeComponent figure_id figure_manager))
  = snd (removeComponent figure_id figure_manager).
Proof.
  assert (Hwf : wf_dom (document figure_manager))
    by (apply wf_dom_b_spec; vm_compute; reflexivity).
  assert (Hinv : entries_marked figure_manager).
  { apply scanExistingComponents_marked. intros i c H. vm_compute in H. discriminate. }
  assert (Hc : exists c, components figure_manager !! figure_id = Some c
                         /\ element c = Some 2%nat).
  { eexists. split; vm_compute; reflexivity. }
  destruct Hc as (c & Hc & He).
  apply (watcher_after_remove_or_duplicate figure_id figure_manager c 2 1 Hinv Hwf Hc He).
  vm_compute. reflexivity.
Defined.

(** ** Updates that leave the document alone *)

(** X14 (types without a handler): [updateComponent] writes to the
    document for figures and quotes only; for a component of any other
    type it merges the properties into the record, calls the
    listeners, and leaves the document and the output field's source
    as they are. *)
Theorem update_without_handler (i : string) (updates : Props) (st : State)
    (c : ComponentData) (el : ref) :
  components st !! i = Some c ->
  element c = Some el ->
  type c <> T_figure ->
  type c <> T_quote ->
  fst (updateComponent i updates st) = true
  /\ document (snd (updateComponent i updates st)) = document st
  /\ components (snd (updateComponent i updates st))
     = <[i := with_props (spread (props c) updates) c]> (components st).
Proof.
  intros Hc He Hf Hq. unfold updateComponent. rewrite Hc, He. cbn [fst snd].
  split; [reflexivity|].
  unfold notifyListeners. cbn [document components with_calls].
  rewrite document_syncContent, components_syncContent.
  cbn [document components with_components with_document].
  split; [|reflexivity].
  unfold applyUpdatesToDOM. cbn [element type with_props]. rewrite He.
  destruct (type c); try reflexivity; contradiction.
Qed.

Lemma update_without_handler_witness :
  document (snd (updateComponent photo_id {["alt" := VString "a photo"]} photo_manager))
  = document photo_manager.
Proof.
  assert (Hc : exists c, components photo_manager !! photo_id = Some c
                         /\ element c = Some 2%nat /\ type c = T_image).
  { eexists. split; [vm_compute; reflexivity|]. split; reflexivity. }
  destruct Hc as (c & Hc & He & Ht).
  apply (update_without_handler photo_id {["alt" := VString "a photo"]} photo_manager c 2
           Hc He); rewrite Ht; discriminate.
Defined.

(** ** Component elements *)


(** ** Ids drawn from an environment that does not repeat itself *)

(** X16 (distinct draws, distinct ids): when no two calls of
    [generateId] read the same time and the same random digits, the
    ids that a sequence of registrations hands out are pairwise
    different. *)
Theorem ids_of_distinct_draws (rs : list Registration) (st : State) :
  (forall j k, draw st j = draw st k -> j = k) ->
  NoDup (fst (register_all rs st)).
Proof. apply distinct_draws_distinct_ids. Qed.

Lemma ids_of_distinct_draws_witness :
  NoDup (fst (register_all [R_registerElement 2; R_duplicateComponent figure_id]
                (new_ComponentManager figure_page ticking_clock constant_random))).
Proof.
  apply (ids_of_distinct_draws [R_registerElement 2; R_duplicateComponent figure_id]
           (new_ComponentManager figure_page ticking_clock constant_random)).
  intros j k H. unfold draw in H. cbn [Date_now new_ComponentManager] in H.
  unfold ticking_clock in H. injection H as H. lia.
Defined.

(** ** Validators of hexadecimal formats *)

Lemma hex_exactly_length (n : nat) : forall s, hex_exactly n s = true -> String.length s = n.
Proof.
  induction n as [|n IH]; intros [|a r] H; simpl in *; try discriminate; auto.
  apply andb_prop in H as [_ H]. f_equal. auto.
Qed.

Lemma prefixed_hex_inv (n : nat) (s : string) :
  prefixed_hex n s = true -> exists r, s = "0x" +:+ r /\ hex_exactly n r = true.
Proof.
  destruct s as [|a [|b r]]; simpl; try discriminate.
  intros H. apply andb_prop in H as [H Hr]. apply andb_prop in H as [Ha Hb].
  apply Ascii.eqb_eq in Ha, Hb. subst. exists r. split; [reflexivity|assumption].
Qed.

Lemma prefixed_hex_length (n : nat) (s : string) :
  prefixed_hex n s = true -> String.length s = S (S n).
Proof.
  intros (r & -> & H)%prefixed_hex_inv. simpl. f_equal. f_equal.
  apply hex_exactly_length. assumption.
Qed.

Lemma is_hex_lower (a : ascii) : is_hex (lower_ascii a) = is_hex a.
Proof. destruct a as [[] [] [] [] [] [] [] []]; reflexivity. Qed.

Lemma hex_exactly_lower (n : nat) : forall s, hex_exactly n (toLowerCase s) = hex_exactly n s.
Proof.
  induction n as [|n IH]; intros [|a r]; simpl; try reflexivity.
  rewrite is_hex_lower, IH. reflexivity.
Qed.

(** X17: each of the four validators accepts strings of one length only
    (42, 66, 132 and 64 characters), so no string passes two of them;
    a transaction hash is [0x] followed by what [isValidNonce] accepts. *)
Theorem validators_fix_the_length (s : string) :
  (isValidAddress s = true -> String.length s = 42%nat)
  /\ (isValidTxHash s = true -> String.length s = 66%nat)
  /\ (isValidSignature s = true -> String.length s = 132%nat)
  /\ (isValidNonce s = true -> String.length s = 64%nat)
  /\ length (filter (fun v : string -> bool => v s = true)
               [isValidAddress; isValidTxHash; isValidSignature; isValidNonce]) <= 1
  /\ isValidTxHash ("0x" +:+ s) = isValidNonce s.
Proof.
  assert (Ha := prefixed_hex_length 40 s).
  assert (Ht := prefixed_hex_length 64 s).
  assert (Hs := prefixed_hex_length 130 s).
  assert (Hn := hex_exactly_length 64 s).
  split; [exact Ha|]. split; [exact Ht|]. split; [exact Hs|]. split; [exact Hn|].
  split; [|reflexivity].
  unfold isValidAddress, isValidTxHash, isValidSignature, isValidNonce.
  rewrite !filter_cons, filter_nil.
  destruct (decide (prefixed_hex 40 s = true)) as [E1|E1];
    destruct (decide (prefixed_hex 64 s = true)) as [E2|E2];
    destruct (decide (prefixed_hex 130 s = true)) as [E3|E3];
    destruct (decide (hex_exactly 64 s = true)) as [E4|E4];
    cbn [length];
    try (specialize (Ha E1)); try (specialize (Ht E2));
    try (specialize (Hs E3)); try (specialize (Hn E4)); lia.
Qed.

(** X18: the digits are accepted in either case and without any check of
    a mixed-case checksum, the prefix in lower case only. *)
Theorem address_digits_in_either_case (r : string) :
  isValidAddress ("0x" +:+ toLowerCase r) = isValidAddress ("0x" +:+ r)
  /\ isValidAddress ("0X" +:+ r) = false.
Proof.
  split; [|reflexivity].
  unfold isValidAddress.
  change ("0x" +:+ toLowerCase r) with (String "0" (String "x" (toLowerCase r))).
  change ("0x" +:+ r) with (String "0" (String "x" r)).
  cbn [prefixed_hex]. rewrite hex_exactly_lower. reflexivity.
Qed.

(** ** [sanitizeInput] *)

Lemma remove_matches_from_sublist (m : string -> option nat) (s : string) :
  forall skip, sublist (chars (remove_matches_from skip m s)) (chars s).
Proof.
  induction s as [|a r IH]; intros skip; simpl.
  - constructor.
  - destruct skip as [|k]; [|apply sublist_cons, IH].
    destruct (m (String a r)) as [[|k]|].
    + apply sublist_skip, IH.
    + apply sublist_cons, IH.
    + apply sublist_skip, IH.
Qed.

Lemma trim_start_sublist (s : string) : sublist (chars (trim_start s)) (chars s).
Proof.
  induction s as [|a r IH]; simpl; [constructor|].
  destruct (is_space a); [apply sublist_cons, IH|reflexivity].
Qed.

Lemma trim_end_sublist (s : string) : sublist (chars (trim_end s)) (chars s).
Proof.
  induction s as [|a r IH]; simpl; [constructor|].
  destruct (trim_end r) as [|b r'].
  - destruct (is_space a); simpl.
    + apply sublist_nil_l.
    + apply sublist_skip, sublist_nil_l.
  - apply sublist_skip, IH.
Qed.

Lemma all_chars_sublist (p : ascii -> bool) (s t : string) :
  sublist (chars s) (chars t) -> all_chars p t = true -> all_chars p s = true.
Proof.
  revert s. induction t as [|b t IH]; intros s H Ht; simpl in *.
  - destruct s; [reflexivity|inversion H].
  - apply andb_prop in Ht as [Hb Ht].
    destruct s as [|a s]; [reflexivity|]. simpl in *.
    inversion H; subst.
    + rewrite Hb. simpl. apply IH; assumption.
    + apply (IH (String a s)); assumption.
Qed.

Lemma no_angle_bracket_left (s : string) :
  all_chars (fun a => negb (Ascii.eqb a "<" || Ascii.eqb a ">"))
    (remove_matches match_angle_bracket s) = true.
Proof.
  unfold remove_matches.
  induction s as [|a r IH]; simpl; [reflexivity|].
  destruct (Ascii.eqb a "<" || Ascii.eqb a ">") eqn:E; simpl; [exact IH|].
  rewrite E. exact IH.
Qed.

(** A string that does not begin with white space. *)
Lemma trim_start_fixed (s : string) :
  match s with String a _ => is_space a = false | "" => True end ->
  trim_start s = s.
Proof. destruct s as [|a r]; simpl; [reflexivity|]. intros ->. reflexivity. Qed.

Lemma trim_start_begins (s : string) :
  match trim_start s with String a _ => is_space a = false | "" => True end.
Proof.
  induction s as [|a r IH]; simpl; [exact I|].
  destruct (is_space a) eqn:E; [exact IH|exact E].
Qed.

Lemma trim_end_begins (s : string) :
  match s with String a _ => is_space a = false | "" => True end ->
  match trim_end s with String a _ => is_space a = false | "" => True end.
Proof.
  destruct s as [|a r]; simpl; [trivial|].
  intros E. rewrite E. destruct (trim_end r); exact E.
Qed.

Lemma trim_end_cons (a : ascii) (r : string) :
  trim_end (String a r)
  = match trim_end r with
    | "" => if is_space a then "" else String a ""
    | String b r' => String a (String b r')
    end.
Proof. reflexivity. Qed.

Lemma trim_end_again (s : string) : trim_end (trim_end s) = trim_end s.
Proof.
  induction s as [|a r IH]; [reflexivity|].
  rewrite (trim_end_cons a r).
  destruct (trim_end r) as [|b r'] eqn:E.
  - destruct (is_space a) eqn:Ea; [reflexivity|].
    rewrite trim_end_cons. change (trim_end "") with "". rewrite Ea. reflexivity.
  - rewrite trim_end_cons, IH. reflexivity.
Qed.

Lemma trim_again (s : string) : trim (trim s) = trim s.
Proof.
  unfold trim.
  rewrite (trim_start_fixed (trim_end (trim_start s))).
  - apply trim_end_again.
  - apply trim_end_begins, trim_start_begins.
Qed.

(** X19: [sanitizeInput] only deletes characters; what it returns holds
    no angle bracket and neither begins nor ends with white space. *)
Theorem sanitizeInput_only_deletes (input : string) :
  sublist (chars (sanitizeInput input)) (chars input)
  /\ all_chars (fun a => negb (Ascii.eqb a "<" || Ascii.eqb a ">")) (sanitizeInput input) = true
  /\ trim (sanitizeInput input) = sanitizeInput input.
Proof.
  assert (Hsub : forall s,
             sublist (chars (trim (remove_matches match_handler
                                     (remove_matches match_javascript s)))) (chars s)).
  { intros s. unfold trim, remove_matches.
    etrans; [apply trim_end_sublist|].
    etrans; [apply trim_start_sublist|].
    etrans; apply remove_matches_from_sublist. }
  split; [|split].
  - unfold sanitizeInput. etrans; [apply Hsub|].
    apply remove_matches_from_sublist.
  - unfold sanitizeInput.
    eapply all_chars_sublist; [apply Hsub|apply no_angle_bracket_left].
  - apply trim_again.
Qed.

Lemma trim_end_keep (a : ascii) (r : string) :
  is_space a = false -> trim_end (String a r) = String a (trim_end r).
Proof.
  intros H. rewrite trim_end_cons, H. destruct (trim_end r); reflexivity.
Qed.

Lemma prefix_survives (rest : string) :
  remove_matches match_handler
    (remove_matches match_javascript
       (remove_matches match_angle_bracket ("javaonx=script:" +:+ rest)))
  = "javascript:"
    +:+ remove_matches match_handler
          (remove_matches match_javascript
             (remove_matches match_angle_bracket rest)).
Proof.
  assert (E1 : remove_matches match_angle_bracket ("javaonx=script:" +:+ rest)
               = "javaonx=script:" +:+ remove_matches match_angle_bracket rest)
    by reflexivity.
  rewrite E1. generalize (remove_matches match_angle_bracket rest). intros x.
  assert (E2 : remove_matches match_javascript ("javaonx=script:" +:+ x)
               = "javaonx=script:" +:+ remove_matches match_javascript x)
    by reflexivity.
  rewrite E2. generalize (remove_matches match_javascript x). intros y.
  destruct y; reflexivity.
Qed.

(** X20: each of the three removals runs once, in the order brackets,
    [javascript:], handlers; the text a later removal joins together is
    not examined again. An input [javaonx=script:] followed by [rest]
    comes back as [javascript:] followed by [rest] after the three
    removals, trimmed at its end only: white space at the start of
    [rest] is no longer at the start of the string and stays. *)
Theorem sanitizeInput_is_one_pass (rest : string) :
  sanitizeInput ("javaonx=script:" +:+ rest)
  = "javascript:"
    +:+ trim_end
          (remove_matches match_handler
             (remove_matches match_javascript
                (remove_matches match_angle_bracket rest))).
Proof.
  unfold sanitizeInput, trim. rewrite prefix_survives. cbv [append].
  rewrite trim_start_fixed by reflexivity.
  rewrite !trim_end_keep by reflexivity.
  reflexivity.
Qed.

(** ** [getRateLimitKey] *)

Lemma append_nil (t : string) : "" +:+ t = t.
Proof. reflexivity. Qed.

Lemma append_cons (a : ascii) (r t : string) : String a r +:+ t = String a (r +:+ t).
Proof. reflexivity. Qed.

Lemma filter_chars_app (p : ascii -> bool) (s t : string) :
  filter_chars p (s +:+ t) = filter_chars p s +:+ filter_chars p t.
Proof.
  induction s as [|a r IH]; [reflexivity|].
  rewrite append_cons. cbn [filter_chars]. rewrite IH.
  destruct (p a); reflexivity.
Qed.

Lemma filter_chars_all (p : ascii -> bool) (s : string) :
  all_chars p s = true -> filter_chars p s = s.
Proof.
  induction s as [|a r IH]; cbn [all_chars filter_chars]; [reflexivity|].
  intros [-> Hr]%andb_prop. rewrite IH by assumption. reflexivity.
Qed.

Lemma all_chars_filter (p : ascii -> bool) (s : string) :
  all_chars p (filter_chars p s) = true.
Proof.
  induction s as [|a r IH]; cbn [all_chars filter_chars]; [reflexivity|].
  destruct (p a) eqn:E; cbn [all_chars]; [rewrite E|]; exact IH.
Qed.

Lemma append_assoc (s t u : string) : (s +:+ t) +:+ u = s +:+ (t +:+ u).
Proof.
  induction s as [|a r IH]; [reflexivity|].
  rewrite !append_cons, IH. reflexivity.
Qed.

Lemma append_length (s t : string) :
  String.length (s +:+ t) = String.length s + String.length t.
Proof.
  induction s as [|a r IH]; [reflexivity|].
  rewrite append_cons. cbn [String.length]. rewrite IH. reflexivity.
Qed.

Lemma append_inj_r (s t u : string) : s +:+ t = s +:+ u -> t = u.
Proof.
  induction s as [|a r IH]; [trivial|].
  rewrite !append_cons. intros [= H]. auto.
Qed.

Lemma substring_whole (n : nat) (s : string) :
  String.length s <= n -> substring 0 n s = s.
Proof.
  revert n. induction s as [|a r IH]; intros [|n] H; cbn [String.length substring] in *;
    try reflexivity; try lia.
  rewrite IH by lia. reflexivity.
Qed.

Lemma substring_length_le (n : nat) (s : string) : String.length (substring 0 n s) <= n.
Proof.
  revert n. induction s as [|a r IH]; intros [|n]; cbn [String.length substring]; try lia.
  specialize (IH n). lia.
Qed.

Lemma substring_app_long (n : nat) (s t : string) :
  n <= String.length s -> substring 0 n (s +:+ t) = substring 0 n s.
Proof.
  revert n. induction s as [|a r IH]; intros [|n] H; cbn [String.length] in H;
    rewrite ?append_cons, ?append_nil; cbn [substring]; try reflexivity; try lia.
  - destruct t; reflexivity.
  - rewrite IH by lia. reflexivity.
Qed.

(** X21: for a given prefix, identifiers made of letters, digits, [-]
    and [_] that fit into the 128 characters get keys of their own. *)
Theorem rate_key_injective (prefix i j : string) :
  all_chars is_key_char i = true ->
  all_chars is_key_char j = true ->
  String.length prefix + 1 + String.length i <= 128 ->
  String.length prefix + 1 + String.length j <= 128 ->
  getRateLimitKey prefix i = getRateLimitKey prefix j <-> i = j.
Proof.
  intros Hi Hj Li Lj. split; [|intros ->; reflexivity].
  unfold getRateLimitKey.
  rewrite !filter_chars_all by assumption.
  rewrite !substring_whole by (rewrite !append_length; cbn [String.length]; lia).
  intros H%append_inj_r. rewrite !append_cons, !append_nil in H.
  injection H as H. exact H.
Qed.

Lemma rate_key_injective_witness :
  getRateLimitKey "login" "alice" = getRateLimitKey "login" "bob" <-> "alice" = "bob".
Proof.
  apply (rate_key_injective "login" "alice" "bob"); try reflexivity; simpl; lia.
Defined.

(** X22: a key has at most 128 characters. Different callers can arrive
    at the same key: the characters taken out of the identifier do not
    count; the prefix is not cleaned and [-] may occur on either side of
    the separator, so that the identifier [q-i] under the prefix [p]
    and the identifier [i] under the prefix [p-q'] share a key, [q']
    being [q] without the characters that the cleaning takes out; and a
    prefix of 128 characters or more leaves no room for the
    identifier. *)
Theorem rate_key_collisions (prefix q identifier : string) :
  String.length (getRateLimitKey prefix identifier) <= 128
  /\ getRateLimitKey prefix (filter_chars is_key_char identifier)
     = getRateLimitKey prefix identifier
  /\ getRateLimitKey prefix (q +:+ "-" +:+ identifier)
     = getRateLimitKey (prefix +:+ "-" +:+ filter_chars is_key_char q) identifier
  /\ (128 <= String.length prefix ->
      getRateLimitKey prefix identifier = substring 0 128 prefix).
Proof.
  unfold getRateLimitKey. repeat split.
  - apply substring_length_le.
  - rewrite (filter_chars_all _ (filter_chars _ _)) by apply all_chars_filter. reflexivity.
  - rewrite !filter_chars_app. rewrite !append_assoc. reflexivity.
  - intros H. apply substring_app_long. exact H.
Qed.

(** ** [isValidJWT] *)

Lemma split_nonempty (c : ascii) (s : string) : split c s <> [].
Proof.
  induction s as [|a r IH]; simpl; [discriminate|].
  destruct (Ascii.eqb a c); [discriminate|].
  destruct (split c r); discriminate.
Qed.

Lemma split_length (c : ascii) (s : string) :
  length (split c s) = S (String.length (filter_chars (fun a => Ascii.eqb a c) s)).
Proof.
  induction s as [|a r IH]; simpl; [reflexivity|].
  destruct (Ascii.eqb a c); simpl; [rewrite IH; reflexivity|].
  destruct (split c r) as [|x xs] eqn:E; [destruct (split_nonempty c r E)|].
  simpl in *. exact IH.
Qed.

Lemma split_no_separator (c : ascii) (s : string) :
  all_chars (fun a => negb (Ascii.eqb a c)) s = true -> split c s = [s].
Proof.
  induction s as [|a r IH]; simpl; [reflexivity|].
  intros [Ha Hr]%andb_prop. apply negb_true_iff in Ha. rewrite Ha, IH by assumption.
  reflexivity.
Qed.

Lemma split_app (c : ascii) (s t : string) :
  all_chars (fun a => negb (Ascii.eqb a c)) s = true ->
  split c (s +:+ String c t) = s :: split c t.
Proof.
  induction s as [|a r IH]; simpl.
  - intros _. rewrite Ascii.eqb_refl. reflexivity.
  - intros [Ha Hr]%andb_prop. apply negb_true_iff in Ha. rewrite Ha, IH by assumption.
    reflexivity.
Qed.

Lemma all_chars_impl (p q : ascii -> bool) (s : string) :
  (forall a, p a = true -> q a = true) -> all_chars p s = true -> all_chars q s = true.
Proof.
  intros Hpq. induction s as [|a r IH]; simpl; [reflexivity|].
  intros [Ha Hr]%andb_prop. rewrite (Hpq a Ha), IH by assumption. reflexivity.
Qed.

Lemma all_chars_map (p : ascii -> bool) (f : ascii -> ascii) (s : string) :
  all_chars p (map_chars f s) = all_chars (fun a => p (f a)) s.
Proof. induction s as [|a r IH]; simpl; [reflexivity|]. rewrite IH. reflexivity. Qed.

Lemma map_chars_length (f : ascii -> ascii) (s : string) :
  String.length (map_chars f s) = String.length s.
Proof. induction s as [|a r IH]; simpl; [reflexivity|]. rewrite IH. reflexivity. Qed.

Lemma without_padding_none (s : string) :
  all_chars (fun a => negb (Ascii.eqb a "=")) s = true -> without_padding s = s.
Proof.
  induction s as [|a r IH]; simpl; [reflexivity|].
  intros [Ha Hr]%andb_prop. apply negb_true_iff in Ha. rewrite Ha, IH by assumption.
  reflexivity.
Qed.

Lemma base64url_segment (s : string) :
  all_chars is_base64url s = true ->
  atob_returns (replace_char "_" "/" (replace_char "-" "+" s))
  = negb (String.length s mod 4 =? 1)%nat.
Proof.
  intros H. unfold atob_returns, replace_char.
  set (t := map_chars _ (map_chars _ s)).
  assert (Ht : all_chars is_base64 t = true).
  { unfold t. rewrite !all_chars_map. revert H. apply all_chars_impl.
    intros a. destruct a as [[] [] [] [] [] [] [] []]; vm_compute; congruence. }
  assert (Hw : filter_chars (fun a => negb (is_ascii_whitespace a)) t = t).
  { apply filter_chars_all. revert Ht. apply all_chars_impl.
    intros a. destruct a as [[] [] [] [] [] [] [] []]; vm_compute; congruence. }
  assert (Hp : without_padding t = t).
  { apply without_padding_none. revert Ht. apply all_chars_impl.
    intros a. destruct a as [[] [] [] [] [] [] [] []]; vm_compute; congruence. }
  cbv zeta. rewrite Hw, Hp.
  assert (Hl : String.length t = String.length s).
  { unfold t. rewrite !map_chars_length. reflexivity. }
  destruct (String.length t mod 4 =? 0)%nat; rewrite Ht, andb_true_r, Hl; reflexivity.
Qed.

(** X23: a token passes only if it holds exactly two dots. *)
Theorem jwt_has_three_segments (token : string) :
  isValidJWT token = true ->
  String.length (filter_chars (fun a => Ascii.eqb a ".") token) = 2%nat.
Proof.
  unfold isValidJWT. rewrite split_length.
  destruct (_ =? 3)%nat eqn:E; simpl; [|discriminate].
  intros _. apply Nat.eqb_eq in E. lia.
Qed.

Lemma jwt_has_three_segments_witness :
  String.length (filter_chars (fun a => Ascii.eqb a ".") "eyJhbGciOiJIUzI1NiJ9.e30.ab_-")
  = 2%nat.
Proof.
  apply (jwt_has_three_segments "eyJhbGciOiJIUzI1NiJ9.e30.ab_-"). reflexivity.
Defined.

(** X24: three segments over the base64url alphabet make a valid token
    exactly when none of the three lengths is 1 modulo 4; the segments
    may be empty, and their content is not looked at. *)
Theorem jwt_of_base64url_segments (h p s : string) :
  all_chars is_base64url h = true ->
  all_chars is_base64url p = true ->
  all_chars is_base64url s = true ->
  isValidJWT (h +:+ "." +:+ p +:+ "." +:+ s)
  = negb (String.length h mod 4 =? 1)%nat
    && negb (String.length p mod 4 =? 1)%nat
    && negb (String.length s mod 4 =? 1)%nat.
Proof.
  intros Hh Hp Hs.
  assert (Hdot : forall x, all_chars is_base64url x = true ->
                           all_chars (fun a => negb (Ascii.eqb a ".")) x = true).
  { intros x. apply all_chars_impl.
    intros a. destruct a as [[] [] [] [] [] [] [] []]; vm_compute; congruence. }
  unfold isValidJWT.
  change ("." +:+ p +:+ "." +:+ s) with (String "." (p +:+ String "." s)).
  rewrite !split_app, split_no_separator by auto.
  cbn [length Nat.eqb negb forallb].
  rewrite !base64url_segment by assumption.
  rewrite andb_true_r, andb_assoc. reflexivity.
Qed.

Lemma jwt_of_base64url_segments_witness :
  isValidJWT ("" +:+ "." +:+ "" +:+ "." +:+ "")
  = negb (String.length "" mod 4 =? 1)%nat
    && negb (String.length "" mod 4 =? 1)%nat
    && negb (String.length "" mod 4 =? 1)%nat.
Proof. apply (jwt_of_base64url_segments "" "" ""); reflexivity. Defined.
